(** * GetYourGuide booking synchroniser (GYG.py): model and verification

    A shallow embedding of the reconciliation logic of [GYG.py]: the greeting
    filter ([extract_greeting_name]), the clean-up applied to the parsed
    answer of the extraction service ([parse_with_g4f],
    [parse_with_huggingface], [parse_with_ai]), the field-level merge
    ([smart_merge]), the construction of a new document ([build_doc]) and the
    per-message body of the loop of [main].  Around them: the two filters on
    the text of a message ([detect_amendment], [is_allowed_booking_email]),
    the loop of [main] over the last five messages, and the way the two
    parsers cut the JSON text out of the answer of a service.

    Conventions of the model.
    - A Python [str] is a [string]; every character stands for one code point
      below 256 other than the micro sign (181) and the y with diaeresis
      (255), the two whose capital letters lie beyond 255; the two codes are
      not used.  On these characters [upper], [lower], the classes of the
      patterns and [int] are the ones of Python.
    - JSON numbers with a fraction or an exponent (Python [float]) are not
      part of the value type.
    - A Python [dict] is an association list in insertion order with
      pairwise distinct keys ([dict_wf]).
    - Python objects that are mutated or copied ([existing_booking],
      [new_data], [merged]) live in a heap of dictionaries indexed by
      locations.
    - [datetime.now(UTC)] reads a clock given as a function from the number
      of earlier readings to an instant.
    - The collection of the database is the list of its documents; what the
      console shows is kept as the [outcome] of a message. *)

From Stdlib Require Import ZArith List String Ascii Bool Lia.
From stdpp Require Import gmap strings.
Import ListNotations.

Set Warnings "-register-all".

Local Open Scope string_scope.
Local Open Scope Z_scope.

(** ** Python values *)

Inductive value : Type :=
| VNone
| VBool (b : bool)
| VInt (z : Z)
| VStr (s : string)
| VList (l : list value)
| VDict (d : list (string * value))
| VTime (t : Z)
| VOid (n : nat).

Abbreviation dict := (list (string * value)).

Inductive exn : Type :=
| AttributeError
| TypeError
| ValueError
| KeyError
| JSONDecodeError
| ConnectionError
| NameError.

Inductive result (A : Type) : Type :=
| Ok (a : A)
| Raise (e : exn).

Arguments Ok {A} a.
Arguments Raise {A} e.

(** ** Dictionaries *)

Fixpoint assoc_find {A : Type} (k : string) (d : list (string * A)) : option A :=
  match d with
  | [] => None
  | (k', v) :: d' => if String.eqb k k' then Some v else assoc_find k d'
  end.

(** [d.get(k)] *)
Definition dict_get (d : dict) (k : string) : value :=
  match assoc_find k d with
  | Some v => v
  | None => VNone
  end.

(** [d[k]] *)
Definition dict_item (d : dict) (k : string) : result value :=
  match assoc_find k d with
  | Some v => Ok v
  | None => Raise KeyError
  end.

(** [d[k] = v]: an existing key keeps its position, a new key goes last. *)
Fixpoint dict_set (k : string) (v : value) (d : dict) : dict :=
  match d with
  | [] => [(k, v)]
  | (k', v') :: d' =>
      if String.eqb k k' then (k, v) :: d' else (k', v') :: dict_set k v d'
  end.

Definition dict_keys (d : dict) : list string := map fst d.

Definition dict_wf (d : dict) : Prop := NoDup (dict_keys d).

(** [k in l] for a list of strings *)
Fixpoint str_in (k : string) (l : list string) : bool :=
  match l with
  | [] => false
  | k' :: l' => String.eqb k k' || str_in k l'
  end.

(** ** Truth value and equality of Python values *)

Definition truthy (v : value) : bool :=
  match v with
  | VNone => false
  | VBool b => b
  | VInt z => negb (z =? 0)
  | VStr s => negb (String.eqb s "")
  | VList l => match l with [] => false | _ => true end
  | VDict d => match d with [] => false | _ => true end
  | VTime _ => true
  | VOid _ => true
  end.

Definition is_none (v : value) : bool :=
  match v with
  | VNone => true
  | _ => false
  end.

(** [a == b] *)
Fixpoint py_eq (a b : value) {struct a} : bool :=
  match a, b with
  | VNone, VNone => true
  | VBool x, VBool y => Bool.eqb x y
  | VBool x, VInt y => Z.b2z x =? y
  | VInt x, VBool y => x =? Z.b2z y
  | VInt x, VInt y => x =? y
  | VStr x, VStr y => String.eqb x y
  | VList xs, VList ys =>
      (fix go (xs ys : list value) {struct xs} : bool :=
         match xs, ys with
         | [], [] => true
         | x :: xs', y :: ys' => py_eq x y && go xs' ys'
         | _, _ => false
         end) xs ys
  | VDict xs, VDict ys =>
      Nat.eqb (List.length xs) (List.length ys) &&
      (fix go (xs : list (string * value)) : bool :=
         match xs with
         | [] => true
         | (k, v) :: xs' =>
             match assoc_find k ys with
             | Some w => py_eq v w
             | None => false
             end && go xs'
         end) xs
  | VTime x, VTime y => x =? y
  | VOid x, VOid y => Nat.eqb x y
  | _, _ => false
  end.

(** ** Strings *)

Definition chars (s : string) : list ascii := list_ascii_of_string s.
Definition text (l : list ascii) : string := string_of_list_ascii l.

Definition code (c : ascii) : nat := nat_of_ascii c.

(** [c.isspace()], also the class [\s] of a [str] pattern *)
Definition is_space (c : ascii) : bool :=
  let n := code c in
  ((9 <=? n) && (n <=? 13) || (28 <=? n) && (n <=? 32)
   || (n =? 133) || (n =? 160))%nat.

Definition is_upper (c : ascii) : bool :=
  ((65 <=? code c) && (code c <=? 90))%nat.

Definition is_lower (c : ascii) : bool :=
  ((97 <=? code c) && (code c <=? 122))%nat.

Definition is_digit (c : ascii) : bool :=
  ((48 <=? code c) && (code c <=? 57))%nat.

(** [c.upper()] for one character: the small letters of ASCII and of
    Latin-1 have their capital 32 places below, the sharp s (223) becomes
    two letters, every other character stays.  (The micro sign and the y
    with diaeresis, whose capitals lie beyond 255, are no characters of the
    model.) *)
Definition upper_chars (c : ascii) : list ascii :=
  let n := code c in
  if (n =? 223)%nat then ["S"; "S"]%char
  else if ((97 <=? n) && (n <=? 122) || (224 <=? n) && (n <=? 246)
           || (248 <=? n) && (n <=? 254))%nat
       then [ascii_of_nat (n - 32)]
       else [c].

(** [s.upper()] *)
Definition py_upper (s : string) : string :=
  text (flat_map upper_chars (chars s)).

Fixpoint drop_space (l : list ascii) : list ascii :=
  match l with
  | [] => []
  | c :: l' => if is_space c then drop_space l' else l
  end.

(** [s.strip()] on characters *)
Definition strip_chars (l : list ascii) : list ascii :=
  rev (drop_space (rev (drop_space l))).

Definition py_strip (s : string) : string := text (strip_chars (chars s)).

(** [s.split()]: the maximal runs of characters that are not white space *)
Fixpoint split_ws (cur : list ascii) (l : list ascii) : list (list ascii) :=
  match l with
  | [] => match cur with [] => [] | _ => [rev cur] end
  | c :: l' =>
      if is_space c
      then match cur with
           | [] => split_ws [] l'
           | _ => rev cur :: split_ws [] l'
           end
      else split_ws (c :: cur) l'
  end.

Definition py_split (s : string) : list string := map text (split_ws [] (chars s)).

(** [v.split()]: only strings have the method. *)
Definition value_split (v : value) : result (list string) :=
  match v with
  | VStr s => Ok (py_split s)
  | _ => Raise AttributeError
  end.

(** [v.upper()] *)
Definition value_upper (v : value) : result value :=
  match v with
  | VStr s => Ok (VStr (py_upper s))
  | _ => Raise AttributeError
  end.

(** Decimal digits with single underscores between digits, as [int] reads
    them. *)
Fixpoint parse_digits (acc : Z) (after_digit : bool) (l : list ascii) : option Z :=
  match l with
  | [] => if after_digit then Some acc else None
  | c :: l' =>
      if is_digit c
      then parse_digits (10 * acc + Z.of_nat (code c - 48)) true l'
      else if Ascii.eqb c "_"%char && after_digit
           then parse_digits acc false l'
           else None
  end.

(** The white space [int] removes around the digits. *)
Definition is_int_space (c : ascii) : bool :=
  let n := code c in
  ((9 <=? n) && (n <=? 13) || (n =? 32) || (n =? 133) || (n =? 160))%nat.

Fixpoint drop_int_space (l : list ascii) : list ascii :=
  match l with
  | [] => []
  | c :: l' => if is_int_space c then drop_int_space l' else l
  end.

(** The number of digits of a literal; [int] refuses more than
    [sys.get_int_max_str_digits()] of them, 4300 unless the limit was
    changed. *)
Definition count_digits (l : list ascii) : nat :=
  List.length (List.filter is_digit l).

Definition int_max_str_digits : nat := 4300.

Definition parse_int (l : list ascii) : option Z :=
  if (int_max_str_digits <? count_digits l)%nat then None
  else
    match rev (drop_int_space (rev (drop_int_space l))) with
    | c :: l' =>
        if Ascii.eqb c "-"%char then option_map Z.opp (parse_digits 0 false l')
        else if Ascii.eqb c "+"%char then parse_digits 0 false l'
        else parse_digits 0 false (c :: l')
    | [] => None
    end.

(** [int(v)] *)
Definition py_int (v : value) : result value :=
  match v with
  | VBool b => Ok (VInt (Z.b2z b))
  | VInt z => Ok (VInt z)
  | VStr s =>
      match parse_int (chars s) with
      | Some z => Ok (VInt z)
      | None => Raise ValueError
      end
  | _ => Raise TypeError
  end.

(** Structural equality, used for the keys of the record store. *)
Fixpoint value_eqb (a b : value) {struct a} : bool :=
  match a, b with
  | VNone, VNone => true
  | VBool x, VBool y => Bool.eqb x y
  | VInt x, VInt y => x =? y
  | VStr x, VStr y => String.eqb x y
  | VList xs, VList ys =>
      (fix go (xs ys : list value) {struct xs} : bool :=
         match xs, ys with
         | [], [] => true
         | x :: xs', y :: ys' => value_eqb x y && go xs' ys'
         | _, _ => false
         end) xs ys
  | VDict xs, VDict ys =>
      (fix go (xs ys : list (string * value)) {struct xs} : bool :=
         match xs, ys with
         | [], [] => true
         | (k, x) :: xs', (k', y) :: ys' =>
             String.eqb k k' && value_eqb x y && go xs' ys'
         | _, _ => false
         end) xs ys
  | VTime x, VTime y => x =? y
  | VOid x, VOid y => Nat.eqb x y
  | _, _ => false
  end.

(** ** Exceptions *)

Definition rbind {A B : Type} (m : result A) (k : A -> result B) : result B :=
  match m with
  | Ok a => k a
  | Raise e => Raise e
  end.

Notation "'let?' x ':=' m 'in' k" := (rbind m (fun x => k))
  (at level 10, x name, m at level 200, k at level 200, only parsing).

(** [try: body except Exception: handler] *)
Definition try_except {A : Type} (body : result A) (handler : exn -> result A) : result A :=
  match body with
  | Ok a => Ok a
  | Raise e => handler e
  end.

(** ** The heap of dictionary objects *)

Abbreviation heap := (gmap nat dict).

Definition M (A : Type) : Type := heap -> result A * heap.

Definition ret {A : Type} (a : A) : M A := fun h => (Ok a, h).

Definition bind {A B : Type} (m : M A) (k : A -> M B) : M B :=
  fun h =>
    match m h with
    | (Ok a, h') => k a h'
    | (Raise e, h') => (Raise e, h')
    end.

Notation "'let!' x ':=' m 'in' k" := (bind m (fun x => k))
  (at level 10, x name, m at level 200, k at level 200, only parsing).

Definition lift {A : Type} (r : result A) : M A := fun h => (r, h).

(** Reading the object at a location.  A location outside the heap has no
    counterpart in Python; the model answers with [KeyError]. *)
Definition read (l : nat) : M dict :=
  fun h =>
    match h !! l with
    | Some d => (Ok d, h)
    | None => (Raise KeyError, h)
    end.

Definition write (l : nat) (d : dict) : M unit :=
  fun h => (Ok tt, <[l := d]> h).

(** A new object: [d.copy()] and dictionary displays. *)
Definition alloc (d : dict) : M nat :=
  fun h => let l := fresh (dom h) in (Ok l, <[l := d]> h).

(** ** [smart_merge] *)

Definition protected_fields : list string := ["name"; "phoneNumber"].

Definition metadata_fields : list string :=
  ["_id"; "createdAt"; "updatedAt"; "platform"; "specialRequirements";
   "is_cancellation"; "is_amendment"].

(** [field == 'name' and len(new_value.split()) < 2] *)
Definition single_word_name (field : string) (new_value : value) : result bool :=
  if String.eqb field "name"
  then let? toks := value_split new_value in Ok (List.length toks <? 2)%nat
  else Ok false.

(** The loop over [new_data.items()].  [existing_booking] and [merged] are
    locations; [updated_fields] is the list built so far. *)
Fixpoint merge_loop (existing_booking merged : nat) (items : dict)
    (updated_fields : list string) : M (list string) :=
  match items with
  | [] => ret updated_fields
  | (field, new_value) :: rest =>
      if str_in field metadata_fields
      then merge_loop existing_booking merged rest updated_fields
      else if is_none new_value || py_eq new_value (VStr "")
      then merge_loop existing_booking merged rest updated_fields
      else if str_in field protected_fields
      then
        let! e := read existing_booking in
        if truthy new_value && negb (py_eq new_value (dict_get e field))
        then
          let! single := lift (single_word_name field new_value) in
          if (single : bool)
          then merge_loop existing_booking merged rest updated_fields
          else
            let! m := read merged in
            let! _ := write merged (dict_set field new_value m) in
            merge_loop existing_booking merged rest (updated_fields ++ [field])
        else merge_loop existing_booking merged rest updated_fields
      else
        let! e := read existing_booking in
        if negb (py_eq new_value (dict_get e field))
        then
          let! m := read merged in
          let! _ := write merged (dict_set field new_value m) in
          merge_loop existing_booking merged rest (updated_fields ++ [field])
        else merge_loop existing_booking merged rest updated_fields
  end.

(** [smart_merge(existing_booking, new_data, greeting_name)]; [now] is the
    reading of the clock taken for [updatedAt].  The result is the location
    of [merged] and [updated_fields]. *)
Definition smart_merge (existing_booking new_data : nat) (greeting_name : value)
    (now : Z) : M (nat * list string) :=
  let! e := read existing_booking in
  let! merged := alloc e in
  let! n := read new_data in
  let! _ := (if py_eq (dict_get n "name") greeting_name
             then write new_data (dict_set "name" VNone n)
             else ret tt) in
  let! items := read new_data in
  let! updated_fields := merge_loop existing_booking merged items [] in
  let! m := read merged in
  let! _ := write merged (dict_set "updatedAt" (VTime now) m) in
  ret (merged, updated_fields).

(** ** [build_doc] *)

(** [a or b] *)
Definition py_or (a b : value) : value := if truthy a then a else b.

Definition build_doc (data : dict) (now : Z) : result dict :=
  let? booking_reference := dict_item data "booking_reference" in
  Ok [ ("name", dict_get data "name");
       ("vehicleType", py_or (dict_get data "vehicleType") (VStr "Unknown"));
       ("address", dict_get data "address");
       ("phoneNumber", dict_get data "phoneNumber");
       ("tour", dict_get data "tour");
       ("tourDate", dict_get data "tourDate");
       ("tourTime", dict_get data "tourTime");
       ("totalPassengers", dict_get data "totalPassengers");
       ("specialRequirements", VStr "No");
       ("booking_reference", booking_reference);
       ("platform", VStr "GYG");
       ("updatedAt", VTime now) ].

(** ** Regular expressions of [extract_greeting_name]

    The fragment of Python's [re] syntax the two greeting patterns use,
    matched the way [re] does: by backtracking, alternatives in order,
    repetitions greedy, the leftmost start first. *)

Inductive regex : Type :=
| Lit (t : string)              (* literal text *)
| Cls (p : ascii -> bool)       (* one character of a class *)
| Plus (p : ascii -> bool)      (* [class+] *)
| Cat (r1 r2 : regex)
| Alt (r1 r2 : regex)           (* [r1|r2] *)
| Opt (r : regex)               (* [(?:r)?] *)
| Grp (r : regex).              (* the capturing group *)

Fixpoint strip_prefix (t s : list ascii) : option (list ascii) :=
  match t, s with
  | [], _ => Some s
  | a :: t', b :: s' => if Ascii.eqb a b then strip_prefix t' s' else None
  | _ :: _, [] => None
  end.

(** Zero or more characters of class [p], the longest run first. *)
Fixpoint star_loop {R : Type} (p : ascii -> bool) (s : list ascii)
    (k : list ascii -> option R) : option R :=
  match s with
  | c :: s' =>
      if p c
      then match star_loop p s' k with
           | Some x => Some x
           | None => k s
           end
      else k s
  | [] => k s
  end.

(** [rmatch r s cap k]: match [r] at the head of [s], then continue with
    [k] on the rest; [cap] is the text of the group, if it has matched. *)
Fixpoint rmatch {R : Type} (r : regex) (s : list ascii) (cap : option (list ascii))
    (k : list ascii -> option (list ascii) -> option R) : option R :=
  match r with
  | Lit t =>
      match strip_prefix (chars t) s with
      | Some s' => k s' cap
      | None => None
      end
  | Cls p =>
      match s with
      | c :: s' => if p c then k s' cap else None
      | [] => None
      end
  | Plus p =>
      match s with
      | c :: s' => if p c then star_loop p s' (fun s'' => k s'' cap) else None
      | [] => None
      end
  | Cat r1 r2 => rmatch r1 s cap (fun s' cap' => rmatch r2 s' cap' k)
  | Alt r1 r2 =>
      match rmatch r1 s cap k with
      | Some x => Some x
      | None => rmatch r2 s cap k
      end
  | Opt r' =>
      match rmatch r' s cap k with
      | Some x => Some x
      | None => k s cap
      end
  | Grp r' =>
      rmatch r' s cap
        (fun s' _ => k s' (Some (firstn (List.length s - List.length s') s)))
  end.

(** [re.search(r, s)], giving [match.group(1)] of the first match. *)
Fixpoint re_search (r : regex) (s : list ascii) : option (option (list ascii)) :=
  match rmatch r s None (fun _ cap => Some cap) with
  | Some cap => Some cap
  | None =>
      match s with
      | [] => None
      | _ :: s' => re_search r s'
      end
  end.

(** [[A-Z][a-z]+] *)
Definition cap_word : regex := Cat (Cls is_upper) (Plus is_lower).

(** [([A-Z][a-z]+(?:\s+[A-Z][a-z]+)?)] *)
Definition name_group : regex :=
  Grp (Cat cap_word (Opt (Cat (Plus is_space) cap_word))).

Definition greeting_patterns : list regex :=
  [ Cat (Alt (Lit "Hi") (Alt (Lit "Hello") (Alt (Lit "Dear") (Lit "Hey"))))
      (Cat (Plus is_space) name_group);
    Cat (Cat (Lit "Good")
           (Cat (Plus is_space)
              (Alt (Lit "morning") (Alt (Lit "afternoon") (Lit "evening")))))
      (Cat (Plus is_space) name_group) ].

(** The loop over [greeting_patterns]; [s] is [email_content[:500]]. *)
Fixpoint greeting_loop (patterns : list regex) (s : list ascii) : result value :=
  match patterns with
  | [] => Ok VNone
  | pattern :: rest =>
      match re_search pattern s with
      | Some (Some g) => Ok (VStr (text (strip_chars g)))
      | Some None => Raise AttributeError
      | None => greeting_loop rest s
      end
  end.

Definition extract_greeting_name (email_content : string) : result value :=
  greeting_loop greeting_patterns (firstn 500 (chars email_content)).

(** ** The clean-up of the parsed answer

    [response] stands for the outcome of the call of the extraction service
    followed by [json.loads]: the decoded JSON value, or the exception
    raised on the way. *)

(** [parsed.get(k)]: only a JSON object has the method. *)
Definition value_get (parsed : value) (k : string) : result value :=
  match parsed with
  | VDict d => Ok (dict_get d k)
  | _ => Raise AttributeError
  end.

(** [parsed[k]] *)
Definition value_item (parsed : value) (k : string) : result value :=
  match parsed with
  | VDict d => dict_item d k
  | _ => Raise TypeError
  end.

(** [parsed[k] = v] *)
Definition value_set (parsed : value) (k : string) (v : value) : result value :=
  match parsed with
  | VDict d => Ok (VDict (dict_set k v d))
  | _ => Raise TypeError
  end.

(** [if parsed.get("booking_reference"):
       parsed["booking_reference"] = parsed["booking_reference"].upper()] *)
Definition upper_reference (parsed : value) : result value :=
  let? r := value_get parsed "booking_reference" in
  if truthy r
  then let? r' := value_item parsed "booking_reference" in
       let? u := value_upper r' in
       value_set parsed "booking_reference" u
  else Ok parsed.

(** The body of the [try] of [parse_with_g4f] from [json.loads] on. *)
Definition g4f_body (response : result value) : result value :=
  let? parsed := response in
  let? parsed := upper_reference parsed in
  let? t := value_get parsed "totalPassengers" in
  let? parsed :=
    (if truthy t
     then try_except
            (let? t' := value_item parsed "totalPassengers" in
             let? n := py_int t' in
             value_set parsed "totalPassengers" n)
            (fun _ => value_set parsed "totalPassengers" VNone)
     else Ok parsed) in
  Ok parsed.

Definition parse_with_g4f (response : result value) : result value :=
  try_except (g4f_body response) (fun _ => Ok VNone).

(** The clean-up of [parse_with_huggingface] from [json.loads] on. *)
Definition huggingface_body (response : result value) : result value :=
  let? parsed := response in
  let? parsed := upper_reference parsed in
  let? t := value_get parsed "totalPassengers" in
  let? parsed :=
    (if truthy t
     then let? t' := value_item parsed "totalPassengers" in
          let? n := py_int t' in
          value_set parsed "totalPassengers" n
     else Ok parsed) in
  Ok parsed.

(** What [requests.post] and the decoding of its answer gave: an exception
    before any answer, or a status code with the decoded text. *)
Inductive http_outcome : Type :=
| HttpFailed (e : exn)
| HttpStatus (status_code : Z) (answer : result value).

Definition parse_with_huggingface (response : http_outcome) : result value :=
  try_except
    (match response with
     | HttpFailed e => Raise e
     | HttpStatus status_code answer =>
         if status_code =? 200 then huggingface_body answer else Ok VNone
     end)
    (fun _ => Ok VNone).

(** [parse_with_ai]; [USE_G4F] says whether the import of [g4f] succeeded.
    The module imports [requests] only when it did not: with [g4f] at hand
    the name [requests] is unbound, and the call [requests.post] of
    [parse_with_huggingface] raises [NameError] whatever the service would
    answer. *)
Definition parse_with_ai (USE_G4F : bool) (g4f_response : result value)
    (hf_response : http_outcome) : result value :=
  let second (response : http_outcome) :=
    let? parsed := parse_with_huggingface response in
    if truthy parsed then Ok parsed else Ok VNone in
  if USE_G4F
  then let? parsed := parse_with_g4f g4f_response in
       if truthy parsed then Ok parsed else second (HttpFailed NameError)
  else second hf_response.

(** ** The record store

    The collection [bookings] of the database, an external service: the
    stored documents in insertion order.  A filter on [booking_reference]
    selects the first document whose field equals the key. *)

Definition matches_reference (booking_ref : value) (doc : dict) : bool :=
  value_eqb (dict_get doc "booking_reference") booking_ref.

(** [collection.find_one({"booking_reference": booking_ref})] *)
Definition find_one (booking_ref : value) (coll : list dict) : option dict :=
  find (matches_reference booking_ref) coll.

(** [collection.delete_one({"booking_reference": booking_ref})] *)
Fixpoint delete_one (booking_ref : value) (coll : list dict) : list dict :=
  match coll with
  | [] => []
  | doc :: coll' =>
      if matches_reference booking_ref doc then coll'
      else doc :: delete_one booking_ref coll'
  end.

(** The fields of [fields] assigned one after the other. *)
Definition set_fields (fields doc : dict) : dict :=
  fold_left (fun acc kv => dict_set (fst kv) (snd kv) acc) fields doc.

(** [collection.update_one({"booking_reference": booking_ref},
                           {"$set": fields})] *)
Fixpoint update_one (booking_ref : value) (fields : dict) (coll : list dict)
    : list dict :=
  match coll with
  | [] => []
  | doc :: coll' =>
      if matches_reference booking_ref doc then set_fields fields doc :: coll'
      else doc :: update_one booking_ref fields coll'
  end.

(** [collection.insert_one(doc)]: the document receives its [_id]. *)
Definition insert_one (doc : dict) (oid : nat) (coll : list dict) : list dict :=
  coll ++ [dict_set "_id" (VOid oid) doc].

(** ** The body of the loop of [main]

    From the test of [parsed] (after [parse_with_ai]) to the end of the
    [try] statement. *)

Record state : Type := mkState {
  collection : list dict;     (* the documents of the store *)
  next_oid : nat;             (* the next [_id] the store hands out *)
  ticks : nat;                (* readings of the clock so far *)
  processed : nat;
  saved : nat;
  updated : nat;
  cancelled : nat;
  duplicates : nat;
  errors : nat
}.

(** The line printed for the message. *)
Inductive outcome : Type :=
| NewBooking                          (* [NEW] Saved new booking *)
| Amended (fields : list string)      (* [AMENDED] Updated fields: ... *)
| Duplicate                           (* [DUPLICATE] No changes detected *)
| Cancelled (booking_ref : value)     (* [CANCELLED] Deleted booking *)
| CancelNotFound (booking_ref : value)  (* [WARNING] Cancellation ... not found *)
| CancelSilent                        (* cancellation without a reference *)
| NoReference                         (* [SKIPPED] No booking reference found *)
| ParseFailed                         (* [errors += 1] after [parse_with_ai] *)
| Failed (e : exn).                   (* [ERROR] of the [except] clause *)

Definition set_collection (c : list dict) (st : state) : state :=
  mkState c (next_oid st) (ticks st) (processed st) (saved st) (updated st)
    (cancelled st) (duplicates st) (errors st).

Definition bump_oid (st : state) : state :=
  mkState (collection st) (S (next_oid st)) (ticks st) (processed st) (saved st)
    (updated st) (cancelled st) (duplicates st) (errors st).

Definition tick (st : state) : state :=
  mkState (collection st) (next_oid st) (S (ticks st)) (processed st) (saved st)
    (updated st) (cancelled st) (duplicates st) (errors st).

Definition count_processed (st : state) : state :=
  mkState (collection st) (next_oid st) (ticks st) (S (processed st)) (saved st)
    (updated st) (cancelled st) (duplicates st) (errors st).

Definition count_saved (st : state) : state :=
  mkState (collection st) (next_oid st) (ticks st) (processed st) (S (saved st))
    (updated st) (cancelled st) (duplicates st) (errors st).

Definition count_updated (st : state) : state :=
  mkState (collection st) (next_oid st) (ticks st) (processed st) (saved st)
    (S (updated st)) (cancelled st) (duplicates st) (errors st).

Definition count_cancelled (st : state) : state :=
  mkState (collection st) (next_oid st) (ticks st) (processed st) (saved st)
    (updated st) (S (cancelled st)) (duplicates st) (errors st).

Definition count_duplicates (st : state) : state :=
  mkState (collection st) (next_oid st) (ticks st) (processed st) (saved st)
    (updated st) (cancelled st) (S (duplicates st)) (errors st).

Definition count_errors (st : state) : state :=
  mkState (collection st) (next_oid st) (ticks st) (processed st) (saved st)
    (updated st) (cancelled st) (duplicates st) (S (errors st)).

(** [v[:45] + "..." if len(v) > 45 else v], evaluated for a true [v]: what
    can go wrong when a field shown on the console is not a string. *)
Definition display_clip (v : value) : result unit :=
  match v with
  | VStr _ => Ok tt
  | VList l => if (45 <? List.length l)%nat then Raise TypeError else Ok tt
  | VDict d => if (45 <? List.length d)%nat then Raise TypeError else Ok tt
  | _ => Raise TypeError
  end.

Definition display_field (doc : dict) (k : string) : result unit :=
  if truthy (dict_get doc k) then display_clip (dict_get doc k) else Ok tt.

(** The branch of the cancellations. *)
Definition cancel_branch (parsed : dict) (st : state) : outcome * state :=
  let booking_ref := dict_get parsed "booking_reference" in
  if truthy booking_ref
  then match find_one booking_ref (collection st) with
       | Some existing =>
           if truthy (VDict existing)
           then (Cancelled booking_ref,
                 count_processed
                   (count_cancelled
                      (set_collection (delete_one booking_ref (collection st)) st)))
           else (CancelNotFound booking_ref, count_processed st)
       | None => (CancelNotFound booking_ref, count_processed st)
       end
  else (CancelSilent, count_processed st).

(** The branch of [smart_merge].  [parsed] and [existing_booking] are two
    objects of a heap of their own: locations 0 and 1. *)
Definition merge_branch (clock : nat -> Z) (greeting_name : value)
    (booking_ref : value) (parsed existing_booking : dict) (st : state)
    : result outcome * state :=
  let h : heap := <[1%nat := existing_booking]> (<[0%nat := parsed]> ∅) in
  match smart_merge 1 0 greeting_name (clock (ticks st)) h with
  | (Raise e, _) => (Raise e, st)
  | (Ok (merged, updated_fields), h') =>
      let st := tick st in
      match h' !! merged with
      | None => (Raise KeyError, st)
      | Some merged_doc =>
          match dict_item merged_doc "booking_reference" with
          | Raise e => (Raise e, st)
          | Ok _ =>
              match updated_fields with
              | _ :: _ =>
                  (Ok (Amended updated_fields),
                   count_processed
                     (count_updated
                        (set_collection
                           (update_one booking_ref merged_doc (collection st)) st)))
              | [] => (Ok Duplicate, count_processed (count_duplicates st))
              end
          end
      end
  end.

(** The branch of [build_doc] and [insert_one]. *)
Definition create_branch (clock : nat -> Z) (parsed : dict) (st : state)
    : result outcome * state :=
  match build_doc parsed (clock (ticks st)) with
  | Raise e => (Raise e, tick st)
  | Ok doc =>
      let st := tick st in
      match (let? _ := display_field doc "tour" in display_field doc "address") with
      | Raise e => (Raise e, st)
      | Ok _ =>
          let new_doc := dict_set "createdAt" (VTime (clock (ticks st))) doc in
          (Ok NewBooking,
           count_processed
             (count_saved
                (bump_oid
                   (set_collection
                      (insert_one new_doc (next_oid st) (collection st))
                      (tick st)))))
      end
  end.

(** The statements of the [try] after [parse_with_ai]. *)
Definition try_body (clock : nat -> Z) (is_amendment : bool)
    (greeting_name parsed : value) (st : state) : result outcome * state :=
  if negb (truthy parsed) then (Ok ParseFailed, count_errors st)
  else
    match parsed with
    | VDict p =>
        if truthy (dict_get p "is_cancellation")
        then let (o, st') := cancel_branch p st in (Ok o, st')
        else if negb (truthy (dict_get p "booking_reference"))
        then (Ok NoReference, st)
        else
          let booking_ref := dict_get p "booking_reference" in
          match find_one booking_ref (collection st) with
          | Some existing_booking =>
              if truthy (VDict existing_booking)
                 && (is_amendment
                     || (is_none (dict_get p "name")
                         || is_none (dict_get p "phoneNumber")))
              then merge_branch clock greeting_name booking_ref p existing_booking st
              else create_branch clock p st
          | None => create_branch clock p st
          end
    | _ => (Raise AttributeError, st)
    end.

(** [try: ... except Exception as e: errors += 1; continue] *)
Definition process_parsed (clock : nat -> Z) (is_amendment : bool)
    (greeting_name parsed : value) (st : state) : outcome * state :=
  match try_body clock is_amendment greeting_name parsed st with
  | (Ok o, st') => (o, st')
  | (Raise e, st') => (Failed e, count_errors st')
  end.

(** One message that passed [is_allowed_booking_email]: [is_amendment] is
    the answer of [detect_amendment]; the two responses are what the
    extraction services give for the message. *)
Definition process_email (clock : nat -> Z) (USE_G4F : bool) (email_content : string)
    (is_amendment : bool) (g4f_response : result value) (hf_response : http_outcome)
    (st : state) : outcome * state :=
  match (let? greeting_name := extract_greeting_name email_content in
         let? parsed := parse_with_ai USE_G4F g4f_response hf_response in
         Ok (greeting_name, parsed)) with
  | Ok (greeting_name, parsed) =>
      process_parsed clock is_amendment greeting_name parsed st
  | Raise e => (Failed e, count_errors st)
  end.

(** ** Patterns searched with [re.I]

    The fragment of [re] that [detect_amendment] and
    [is_allowed_booking_email] use: literal text, [.*?], [\b], alternatives
    and optional groups, all matched without regard to case.  A match is
    only tested for, so the matcher answers with a boolean.  [prev] is the
    character before the position, which [\b] looks at. *)

Definition is_newline (c : ascii) : bool := (code c =? 10)%nat.

(** The class [\w] of a [str] pattern. *)
Definition is_word (c : ascii) : bool :=
  let n := code c in
  ((48 <=? n) && (n <=? 57) || (65 <=? n) && (n <=? 90) || (n =? 95)
   || (97 <=? n) && (n <=? 122) || (n =? 170) || (178 <=? n) && (n <=? 179)
   || (n =? 181) || (185 <=? n) && (n <=? 186) || (188 <=? n) && (n <=? 190)
   || (192 <=? n) && (n <=? 214) || (216 <=? n) && (n <=? 246) || (248 <=? n))%nat.

Definition lower_char (c : ascii) : ascii :=
  let n := code c in
  if ((65 <=? n) && (n <=? 90) || (192 <=? n) && (n <=? 214)
      || (216 <=? n) && (n <=? 222))%nat
  then ascii_of_nat (n + 32)
  else c.

(** [s.lower()] *)
Definition py_lower (s : string) : string := text (map lower_char (chars s)).

(** Two characters that [re.I] takes for the same. *)
Definition same_letter (a b : ascii) : bool := Ascii.eqb (lower_char a) (lower_char b).

Inductive pattern : Type :=
| PLit (t : string)             (* literal text *)
| PLazy                         (* [.*?] *)
| PBound                        (* [\b] *)
| PCat (r1 r2 : pattern)
| PAlt (r1 r2 : pattern)        (* [r1|r2] *)
| POpt (r : pattern).           (* [(?:r)?] *)

Fixpoint istrip_prefix (t : list ascii) (prev : option ascii) (s : list ascii)
    : option (option ascii * list ascii) :=
  match t with
  | [] => Some (prev, s)
  | a :: t' =>
      match s with
      | b :: s' => if same_letter a b then istrip_prefix t' (Some b) s' else None
      | [] => None
      end
  end.

(** [.*?]: the shortest run first; the dot does not match a newline. *)
Fixpoint lazy_loop (prev : option ascii) (s : list ascii)
    (k : option ascii -> list ascii -> bool) : bool :=
  match s with
  | [] => k prev []
  | c :: s' => k prev s || (negb (is_newline c) && lazy_loop (Some c) s' k)
  end.

Definition word_before (prev : option ascii) : bool :=
  match prev with
  | Some c => is_word c
  | None => false
  end.

Definition word_after (s : list ascii) : bool :=
  match s with
  | c :: _ => is_word c
  | [] => false
  end.

Fixpoint pmatch (r : pattern) (prev : option ascii) (s : list ascii)
    (k : option ascii -> list ascii -> bool) : bool :=
  match r with
  | PLit t =>
      match istrip_prefix (chars t) prev s with
      | Some (prev', s') => k prev' s'
      | None => false
      end
  | PLazy => lazy_loop prev s k
  | PBound => if xorb (word_before prev) (word_after s) then k prev s else false
  | PCat r1 r2 => pmatch r1 prev s (fun prev' s' => pmatch r2 prev' s' k)
  | PAlt r1 r2 => pmatch r1 prev s k || pmatch r2 prev s k
  | POpt r' => pmatch r' prev s k || k prev s
  end.

(** A match that starts at the position or later. *)
Fixpoint psearch (r : pattern) (prev : option ascii) (s : list ascii) : bool :=
  pmatch r prev s (fun _ _ => true)
  || match s with
     | [] => false
     | c :: s' => psearch r (Some c) s'
     end.

(** [bool(re.search(r, s, re.I))] *)
Definition re_search_i (r : pattern) (s : string) : bool := psearch r None (chars s).

(** ** [detect_amendment] *)

(** [(?:Date|Pickup|Address|Time|Participants)] *)
Definition field_words : pattern :=
  PAlt (PLit "Date")
    (PAlt (PLit "Pickup")
       (PAlt (PLit "Address") (PAlt (PLit "Time") (PLit "Participants")))).

Definition amendment_patterns : list pattern :=
  [ PCat (PLit "~~") (PCat PLazy (PLit "~~"));
    PCat PBound (PCat (PLit "New") (PCat PBound (PCat PLazy field_words)));
    PCat field_words (PCat PLazy (PCat PBound (PCat (PLit "New") PBound)));
    PLit "amended";
    PLit "updated";
    PLit "changed";
    PLit "modification" ].

(** [for pattern in patterns: if re.search(pattern, combined, re.I): return True] *)
Fixpoint first_match (patterns : list pattern) (combined : string) : bool :=
  match patterns with
  | [] => false
  | pattern :: rest =>
      if re_search_i pattern combined then true else first_match rest combined
  end.

Definition detect_amendment (email_content subject : string) : bool :=
  let combined := py_lower (String.append (String.append subject " ") email_content) in
  first_match amendment_patterns combined.

(** ** [is_allowed_booking_email] *)

Definition allowed_patterns : list pattern :=
  [ PLit "new booking";
    PLit "booking";
    PLit "booking confirmation";
    PLit "booking details";
    PLit "booking detail change";
    PLit "change booking";
    PCat (PLit "amend") (POpt (PAlt (PLit "ment") (PLit "ed")));
    PCat (PLit "update") (PCat (POpt (PLit "d")) (PLit " booking"));
    PLit "urgent booking";
    PLit "Urgent: New booking received";
    PCat (PLit "cancel") (PCat (POpt (PAlt (PLit "lation") (PLit "led"))) (PLit " booking"));
    PLit "booking cancelled" ].

Definition is_allowed_booking_email (subject email_content : string) : bool :=
  let combined := py_lower (String.append (String.append subject " ") email_content) in
  existsb (fun pattern => re_search_i pattern combined) allowed_patterns.

(** ** The loop of [main]

    A message of the mailbox as the loop sees it: what fetching and
    cleaning it gave, an exception or the subject and the text, and what the
    two extraction services answer for it. *)

Record message : Type := mkMessage {
  msg_subject : string;
  msg_content : string;
  msg_g4f : result value;
  msg_hf : http_outcome
}.

Inductive fetched : Type :=
| FetchFailed (e : exn)
| Fetched (m : message).

(** What the loop did with a message. *)
Inductive handled : Type :=
| NotAllowed                    (* [SKIPPED] Not a booking ... email *)
| Answered (o : outcome).

(** One iteration of the loop. *)
Definition process_message (clock : nat -> Z) (USE_G4F : bool) (f : fetched)
    (st : state) : handled * state :=
  match f with
  | FetchFailed e => (Answered (Failed e), count_errors st)
  | Fetched m =>
      if negb (is_allowed_booking_email (msg_subject m) (msg_content m))
      then (NotAllowed, st)
      else
        let is_amendment := detect_amendment (msg_content m) (msg_subject m) in
        let (o, st') :=
          process_email clock USE_G4F (msg_content m) is_amendment
            (msg_g4f m) (msg_hf m) st in
        (Answered o, st')
  end.

(** [l[-5:]] *)
Definition last_five {A : Type} (l : list A) : list A :=
  skipn (List.length l - 5) l.

Fixpoint run_messages (clock : nat -> Z) (USE_G4F : bool) (msgs : list fetched)
    (st : state) : list handled * state :=
  match msgs with
  | [] => ([], st)
  | f :: rest =>
      let (a, st1) := process_message clock USE_G4F f st in
      let (answers, st2) := run_messages clock USE_G4F rest st1 in
      (a :: answers, st2)
  end.

(** [for idx, eid in enumerate(email_ids[-5:], 1): ...] *)
Definition main_loop (clock : nat -> Z) (USE_G4F : bool) (mailbox : list fetched)
    (st : state) : list handled * state :=
  run_messages clock USE_G4F (last_five mailbox) st.

(** ** The text handed to [json.loads]

    Both parsers cut the JSON object out of the text of the answer before
    they parse it.  A text is the list of its characters here. *)

(** [s.startswith(t)] *)
Definition starts_with (t s : list ascii) : bool :=
  match strip_prefix t s with
  | Some _ => true
  | None => false
  end.

(** The leftmost occurrence of [sep] in [s]: what stands before it and what
    follows it. *)
Fixpoint cut (sep s : list ascii) : option (list ascii * list ascii) :=
  match strip_prefix sep s with
  | Some rest => Some ([], rest)
  | None =>
      match s with
      | [] => None
      | c :: s' =>
          match cut sep s' with
          | Some (a, b) => Some (c :: a, b)
          | None => None
          end
      end
  end.

(** [sep in s] *)
Definition contains (sep s : list ascii) : bool :=
  match cut sep s with
  | Some _ => true
  | None => false
  end.

(** [s.split(sep)] for a separator that is not empty; every cut shortens
    the text, so that [length s] rounds are enough. *)
Fixpoint split_fuel (fuel : nat) (sep s : list ascii) : list (list ascii) :=
  match fuel with
  | O => [s]
  | S fuel' =>
      match cut sep s with
      | Some (a, b) => a :: split_fuel fuel' sep b
      | None => [s]
      end
  end.

Definition split_on (sep s : list ascii) : list (list ascii) :=
  split_fuel (List.length s) sep s.

(** [s.find(c)] and [s.rfind(c)] for one character, [-1] when it is missing *)
Fixpoint find_char (c : ascii) (s : list ascii) : Z :=
  match s with
  | [] => -1
  | x :: s' =>
      if Ascii.eqb x c then 0
      else let i := find_char c s' in if i <? 0 then -1 else i + 1
  end.

Fixpoint rfind_char (c : ascii) (s : list ascii) : Z :=
  match s with
  | [] => -1
  | x :: s' =>
      let i := rfind_char c s' in
      if 0 <=? i then i + 1 else if Ascii.eqb x c then 0 else -1
  end.

(** [s[start:end]] for [0 <= start <= end] *)
Definition slice (start end_ : Z) (s : list ascii) : list ascii :=
  firstn (Z.to_nat (end_ - start)) (skipn (Z.to_nat start) s).

Definition fence : list ascii := chars "```".

(** [parse_with_g4f], the loop over the parts between the fences *)
Fixpoint g4f_pick (parts : list (list ascii)) (response_text : list ascii)
    : list ascii :=
  match parts with
  | [] => response_text
  | part :: rest =>
      if starts_with (chars "json") (strip_chars part)
      then strip_chars (skipn 4 part)
      else if starts_with (chars "{") (strip_chars part)
      then strip_chars part
      else g4f_pick rest response_text
  end.

(** [parse_with_g4f], "Remove markdown code blocks if present";
    [response_text] is [str(response).strip()]. *)
Definition g4f_unfence (response_text : list ascii) : list ascii :=
  if contains fence response_text
  then g4f_pick (split_on fence response_text) response_text
  else response_text.

(** [parse_with_huggingface], the loop over the parts; [None] stands for
    the [IndexError] of [part.split("json")[1]]. *)
Fixpoint huggingface_pick (parts : list (list ascii)) (response_text : list ascii)
    : option (list ascii) :=
  match parts with
  | [] => Some response_text
  | part :: rest =>
      if contains (chars "json") (map lower_char part)
      then match split_on (chars "json") part with
           | _ :: piece :: _ => Some (strip_chars piece)
           | _ => None
           end
      else huggingface_pick rest response_text
  end.

(** [parse_with_huggingface], "Extract JSON from response" *)
Definition huggingface_unfence (response_text : list ascii)
    : option (list ascii) :=
  if contains fence response_text
  then huggingface_pick (split_on fence response_text) response_text
  else Some response_text.

(** [parse_with_huggingface], "Find JSON object" *)
Definition huggingface_braces (response_text : list ascii) : list ascii :=
  let start := find_char "{" response_text in
  let end_ := rfind_char "}" response_text + 1 in
  if (0 <=? start) && (start <? end_)
  then slice start end_ response_text
  else response_text.

(** The text that [parse_with_huggingface] parses. *)
Definition huggingface_json_text (response_text : list ascii)
    : option (list ascii) :=
  match huggingface_unfence response_text with
  | Some t => Some (huggingface_braces t)
  | None => None
  end.

(** * Definitions for the statements *)

(** ** The merge as a fold *)

(** What one iteration of the loop of [smart_merge] decides for an item,
    given the content [e] of [existing_booking]: [Ok true] when the item is
    written to [merged] and listed, [Ok false] when it is passed over. *)
Definition accepts (e : dict) (field : string) (new_value : value) : result bool :=
  if str_in field metadata_fields then Ok false
  else if is_none new_value || py_eq new_value (VStr "") then Ok false
  else if str_in field protected_fields
  then if truthy new_value && negb (py_eq new_value (dict_get e field))
       then let? single := single_word_name field new_value in Ok (negb single)
       else Ok false
  else Ok (negb (py_eq new_value (dict_get e field))).

(** The loop as a fold over the items, on the content of [merged]. *)
Fixpoint merge_fold (e : dict) (items m : dict) (upd : list string)
    : result (list string) * dict :=
  match items with
  | [] => (Ok upd, m)
  | (field, new_value) :: rest =>
      match accepts e field new_value with
      | Raise x => (Raise x, m)
      | Ok true => merge_fold e rest (dict_set field new_value m) (upd ++ [field])
      | Ok false => merge_fold e rest m upd
      end
  end.

(** [new_data] after the greeting filter of [smart_merge]. *)
Definition filter_greeting (n : dict) (greeting_name : value) : dict :=
  if py_eq (dict_get n "name") greeting_name then dict_set "name" VNone n else n.

(** [new_value is None or new_value == ""], the test of the loop of
    [smart_merge]. *)
Definition absent (v : value) : bool := is_none v || py_eq v (VStr "").

(** The fields [build_doc] reads from the candidate with [get]. *)
Definition copied_fields : list string :=
  ["name"; "address"; "phoneNumber"; "tour"; "tourDate"; "tourTime"; "totalPassengers"].

(** What [parse_with_g4f] leaves of a decoded answer. *)
Definition passed_through (d d' : dict) : Prop :=
  (forall f, f <> "booking_reference" -> f <> "totalPassengers" ->
             assoc_find f d' = assoc_find f d) /\
  (truthy (dict_get d "booking_reference") = false ->
   assoc_find "booking_reference" d' = assoc_find "booking_reference" d) /\
  (truthy (dict_get d "totalPassengers") = false ->
   assoc_find "totalPassengers" d' = assoc_find "totalPassengers" d).

(** ** The match relation of the patterns *)

(** [runs r s cap s' cap']: the pattern [r] matches a prefix of [s] and
    leaves [s']; the text of the group goes from [cap] to [cap']. *)
Inductive runs : regex -> list ascii -> option (list ascii) ->
                 list ascii -> option (list ascii) -> Prop :=
| runs_lit t s cap :
    runs (Lit t) (chars t ++ s) cap s cap
| runs_cls p c s cap :
    p c = true -> runs (Cls p) (c :: s) cap s cap
| runs_plus p w s cap :
    w <> [] -> forallb p w = true -> runs (Plus p) (w ++ s) cap s cap
| runs_cat r1 r2 s cap s1 cap1 s2 cap2 :
    runs r1 s cap s1 cap1 -> runs r2 s1 cap1 s2 cap2 ->
    runs (Cat r1 r2) s cap s2 cap2
| runs_alt_l r1 r2 s cap s' cap' :
    runs r1 s cap s' cap' -> runs (Alt r1 r2) s cap s' cap'
| runs_alt_r r1 r2 s cap s' cap' :
    runs r2 s cap s' cap' -> runs (Alt r1 r2) s cap s' cap'
| runs_opt_some r s cap s' cap' :
    runs r s cap s' cap' -> runs (Opt r) s cap s' cap'
| runs_opt_none r s cap :
    runs (Opt r) s cap s cap
| runs_grp r s cap s' cap' :
    runs r s cap s' cap' ->
    runs (Grp r) s cap s' (Some (firstn (List.length s - List.length s') s)).

(** ** The greeting, as the specification words it

    A salutation word, white space, then one or two capitalized words. *)

(** One or more characters of white space. *)
Definition spaces (ws : list ascii) : Prop :=
  ws <> [] /\ forallb is_space ws = true.

(** A capital letter followed by one or more small letters. *)
Definition capitalized (w : list ascii) : Prop :=
  exists c ls, w = c :: ls /\ is_upper c = true /\ ls <> [] /\
               forallb is_lower ls = true.

(** One capitalized word, or two with white space between them. *)
Definition name_shape (n : list ascii) : Prop :=
  capitalized n \/
  exists w1 ws w2, n = (w1 ++ ws ++ w2)%list /\
                   capitalized w1 /\ spaces ws /\ capitalized w2.

(** Hi, Hello, Dear, Hey, or Good morning, afternoon, evening. *)
Definition salutation (sal : list ascii) : Prop :=
  In sal (map chars ["Hi"; "Hello"; "Dear"; "Hey"]) \/
  exists ws part, sal = (chars "Good" ++ ws ++ part)%list /\ spaces ws /\
                  In part (map chars ["morning"; "afternoon"; "evening"]).

(** Somewhere in [s]: a salutation, white space, and the name [n]. *)
Definition greets (s n : list ascii) : Prop :=
  exists pre sal ws rest,
    s = (pre ++ sal ++ ws ++ n ++ rest)%list /\
    salutation sal /\ spaces ws /\ name_shape n.

(** The alternatives of the first pattern. *)
Definition short_salutations : regex :=
  Alt (Lit "Hi") (Alt (Lit "Hello") (Alt (Lit "Dear") (Lit "Hey"))).

(** The head of the second pattern. *)
Definition good_salutations : regex :=
  Cat (Lit "Good")
    (Cat (Plus is_space)
       (Alt (Lit "morning") (Alt (Lit "afternoon") (Lit "evening")))).

(** The words the two heads match. *)
Definition is_short_salutation (sal : list ascii) : Prop :=
  In sal (map chars ["Hi"; "Hello"; "Dear"; "Hey"]).

Definition is_good_salutation (sal : list ascii) : Prop :=
  exists ws part, sal = (chars "Good" ++ ws ++ part)%list /\ spaces ws /\
                  In part (map chars ["morning"; "afternoon"; "evening"]).

(** The two elements of [greeting_patterns]. *)
Definition first_pattern : regex :=
  Cat short_salutations (Cat (Plus is_space) name_group).

Definition second_pattern : regex :=
  Cat good_salutations (Cat (Plus is_space) name_group).

(** ** Records and messages of the scenarios *)

(** Scenario A of the specification: the stored booking and an amendment of
    its date. *)
Definition stored_gyg1 : dict :=
  [ ("_id", VOid 7); ("name", VStr "Maria Lopez"); ("phoneNumber", VStr "+1555");
    ("tourDate", VStr "March 1, 2026"); ("booking_reference", VStr "GYG1");
    ("updatedAt", VTime 100) ].

Definition amendment_gyg1 : dict :=
  [ ("booking_reference", VStr "GYG1"); ("name", VNone); ("phoneNumber", VNone);
    ("tourDate", VStr "March 5, 2026"); ("is_amendment", VBool true) ].

(** Two objects: the candidate at location 0, the stored record at 1. *)
Definition two_objects (candidate existing : dict) : heap :=
  <[1%nat := existing]> (<[0%nat := candidate]> ∅).

Definition heap_gyg1 : heap := two_objects amendment_gyg1 stored_gyg1.

(** Scenario C of the specification: a one-word name. *)
Definition stored_gyg3 : dict :=
  [ ("_id", VOid 9); ("name", VStr "Robert Hale"); ("phoneNumber", VStr "+4477");
    ("booking_reference", VStr "GYG3"); ("updatedAt", VTime 100) ].

Definition candidate_gyg3 : dict :=
  [ ("booking_reference", VStr "GYG3"); ("name", VStr "Bob"); ("phoneNumber", VNone) ].


(** Scenario D of the specification. *)
Definition cancellation_gyg4 : dict :=
  [ ("booking_reference", VStr "GYG4"); ("is_cancellation", VBool true) ].

(** A cancellation in which no booking reference was found. *)
Definition cancellation_no_reference : dict :=
  [ ("booking_reference", VNone); ("name", VStr "Ann Lee");
    ("is_cancellation", VBool true) ].

(** Whether a line of the console tells of the outcome: every outcome has
    its line ([ParseFailed] the one of [parse_with_ai]), except the
    cancellation that names no booking. *)
Definition reported (o : outcome) : bool :=
  match o with
  | CancelSilent => false
  | _ => true
  end.

(** The state of a first run: an empty store, all counters at zero. *)
Definition empty_state : state := mkState [] 0 0 0 0 0 0 0 0.

Definition stored_gyg4 : dict :=
  [ ("name", VStr "Ann Lee"); ("booking_reference", VStr "GYG4"); ("_id", VOid 3) ].

Definition state_gyg4 : state := mkState [stored_gyg1; stored_gyg4] 8 0 0 0 0 0 0 0.

(** A candidate for a new booking without a vehicle type. *)
Definition candidate_gyg5 : dict :=
  [ ("booking_reference", VStr "GYG5"); ("name", VStr "Ida Moe");
    ("phoneNumber", VStr "+4670"); ("tourDate", VStr "May 2, 2026") ].

(** An answer with an empty name: the clean-up keeps the empty string and
    the new record stores it. *)
Definition answer_gyg6 : dict :=
  [ ("booking_reference", VStr "gyg6"); ("name", VStr "");
    ("phoneNumber", VStr "+3161"); ("totalPassengers", VInt 2) ].

(** A complete answer for a new booking, as the extraction service gives
    it, and the text of its message. *)
Definition answer_gyg1 : dict :=
  [ ("booking_reference", VStr "gyg1"); ("name", VStr "Maria Lopez");
    ("phoneNumber", VStr "+1555"); ("tourDate", VStr "March 1, 2026");
    ("tourTime", VStr "6:00 AM"); ("totalPassengers", VInt 2);
    ("tour", VStr "City walk"); ("vehicleType", VNone); ("address", VNone);
    ("is_cancellation", VBool false); ("is_amendment", VBool false) ].

Definition body_gyg1 : string := "New booking received. Reference GYG1.".

Definition first_pass : outcome * state :=
  process_email Z.of_nat true body_gyg1 false
    (Ok (VDict answer_gyg1)) (HttpFailed ConnectionError) empty_state.

Definition second_pass : outcome * state :=
  process_email Z.of_nat true body_gyg1 false
    (Ok (VDict answer_gyg1)) (HttpFailed ConnectionError) first_pass.2.

(** Scenario B of the specification: the service took the name from the
    greeting. *)
Definition body_gyg2 : string := "Hi John, you have a new booking. Reference GYG2.".

Definition answer_gyg2 : dict :=
  [ ("booking_reference", VStr "GYG2"); ("name", VStr "John");
    ("phoneNumber", VStr "+4420"); ("tourDate", VStr "April 9, 2026") ].

(** An answer whose count is a word. *)
Definition answer_gyg7 : dict :=
  [ ("booking_reference", VStr "gyg7"); ("name", VStr "Lena Roth");
    ("phoneNumber", VStr "+4930"); ("totalPassengers", VStr "two") ].

(** Two long bodies that differ after the first 500 characters. *)
Fixpoint filler (n : nat) : string :=
  match n with
  | O => ""
  | S n' => String "."%char (filler n')
  end.

Definition long_body (tail : string) : string :=
  String.append "Hi John, " (String.append (filler 500) tail).

(** ** The change-set of a merge *)

(** The candidate's value of field [f] is one the merge takes: the field is
    not bookkeeping, the value is present and differs from the stored one;
    for a protected field it is true, and for [name] it is not the greeting
    name and is a string of at least two words. *)
Definition takes (e n : dict) (greeting_name : value) (f : string) : Prop :=
  str_in f metadata_fields = false /\
  absent (dict_get n f) = false /\
  py_eq (dict_get n f) (dict_get e f) = false /\
  (str_in f protected_fields = true -> truthy (dict_get n f) = true) /\
  (f = "name" ->
   py_eq (dict_get n f) greeting_name = false /\
   exists s, dict_get n f = VStr s /\ (2 <= List.length (py_split s))%nat).

(** The keys of the accepted items, in the order of the items. *)
Definition accepted_keys (e : dict) (items : dict) : list string :=
  map fst
    (List.filter
       (fun kv => match accepts e (fst kv) (snd kv) with
                  | Ok true => true
                  | _ => false
                  end)
       items).

(** An amendment that changes the date and brings a new field. *)
Definition amendment_pickup : dict :=
  [ ("booking_reference", VStr "GYG1"); ("name", VNone);
    ("tourDate", VStr "March 5, 2026"); ("platform", VStr "web");
    ("pickup", VStr "Hotel Lux"); ("_id", VInt 1) ].

Definition heap_pickup : heap := two_objects amendment_pickup stored_gyg1.

(** A candidate whose name is a number. *)
Definition candidate_number_name : dict :=
  [ ("booking_reference", VStr "GYG1"); ("name", VInt 5) ].

Definition heap_number_name : heap := two_objects candidate_number_name stored_gyg1.

(** ** What a message does to the store and the counters *)

(** The six counters of [main], in the order of their initialisation. *)
Definition counters (st : state) : nat * nat * nat * nat * nat * nat :=
  (processed st, saved st, updated st, cancelled st, duplicates st, errors st).

(** The effect that goes with each line printed for a message. *)
Definition outcome_effect (o : outcome) (st st' : state) : Prop :=
  match o with
  | NewBooking =>
      List.length (collection st') = S (List.length (collection st)) /\
      counters st' = (S (processed st), S (saved st), updated st, cancelled st,
                      duplicates st, errors st)
  | Amended fields =>
      fields <> [] /\
      List.length (collection st') = List.length (collection st) /\
      counters st' = (S (processed st), saved st, S (updated st), cancelled st,
                      duplicates st, errors st)
  | Duplicate =>
      collection st' = collection st /\
      counters st' = (S (processed st), saved st, updated st, cancelled st,
                      S (duplicates st), errors st)
  | Cancelled _ =>
      S (List.length (collection st')) = List.length (collection st) /\
      counters st' = (S (processed st), saved st, updated st, S (cancelled st),
                      duplicates st, errors st)
  | CancelNotFound _ | CancelSilent =>
      collection st' = collection st /\
      counters st' = (S (processed st), saved st, updated st, cancelled st,
                      duplicates st, errors st)
  | NoReference =>
      collection st' = collection st /\ counters st' = counters st
  | ParseFailed | Failed _ =>
      collection st' = collection st /\
      counters st' = (processed st, saved st, updated st, cancelled st,
                      duplicates st, S (errors st))
  end.

(** A store that holds the booking of scenario A. *)
Definition state_gyg1 : state := mkState [stored_gyg1] 8 0 0 0 0 0 0 0.

(** A candidate whose tour is a number. *)
Definition candidate_number_tour : dict :=
  [ ("booking_reference", VStr "GYG8"); ("name", VStr "Omar Said");
    ("phoneNumber", VStr "+2010"); ("tour", VInt 3) ].

(** ** The shape of a cleaned answer *)

(** A booking reference that is true is a string in upper case, one that
    [upper] leaves as it is; a count that is true is an integer. *)
Definition normalized (d : dict) : Prop :=
  (truthy (dict_get d "booking_reference") = true ->
   exists s, dict_get d "booking_reference" = VStr s /\ py_upper s = s) /\
  (truthy (dict_get d "totalPassengers") = true ->
   exists z, dict_get d "totalPassengers" = VInt z).

(** An answer whose booking reference is a number. *)
Definition answer_number_reference : dict :=
  [ ("booking_reference", VInt 83); ("name", VStr "Lena Roth") ].

(** ** The match relation of the patterns searched with [re.I] *)

(** The character before the position after [w] has been read. *)
Definition prev_after (prev : option ascii) (w : list ascii) : option ascii :=
  fold_left (fun _ c => Some c) w prev.

(** No newline in [mid]: what [.*?] can cross. *)
Definition same_line (mid : list ascii) : Prop :=
  forallb (fun c => negb (is_newline c)) mid = true.

(** [w] spells the lower-case text [t], in any case. *)
Definition reads (t : string) (w : list ascii) : Prop :=
  map lower_char w = chars t.

Inductive pruns : pattern -> option ascii -> list ascii ->
                  option ascii -> list ascii -> Prop :=
| pruns_lit t prev w s :
    map lower_char w = map lower_char (chars t) ->
    pruns (PLit t) prev (w ++ s) (prev_after prev w) s
| pruns_lazy prev w s :
    same_line w -> pruns PLazy prev (w ++ s) (prev_after prev w) s
| pruns_bound prev s :
    xorb (word_before prev) (word_after s) = true -> pruns PBound prev s prev s
| pruns_cat r1 r2 prev s prev1 s1 prev2 s2 :
    pruns r1 prev s prev1 s1 -> pruns r2 prev1 s1 prev2 s2 ->
    pruns (PCat r1 r2) prev s prev2 s2
| pruns_alt_l r1 r2 prev s prev' s' :
    pruns r1 prev s prev' s' -> pruns (PAlt r1 r2) prev s prev' s'
| pruns_alt_r r1 r2 prev s prev' s' :
    pruns r2 prev s prev' s' -> pruns (PAlt r1 r2) prev s prev' s'
| pruns_opt_some r prev s prev' s' :
    pruns r prev s prev' s' -> pruns (POpt r) prev s prev' s'
| pruns_opt_none r prev s :
    pruns (POpt r) prev s prev s.

(** The character before the position, in lower case. *)
Definition lower_prev (prev : option ascii) : option ascii := option_map lower_char prev.

(** The text holds [t] somewhere, in any case. *)
Definition mentions (t : string) (s : list ascii) : Prop :=
  exists pre w post, s = (pre ++ w ++ post)%list /\ reads t w.

(** Every match of the pattern reads a text that mentions [t]. *)
Definition covers (t : string) (r : pattern) : Prop :=
  forall prev s prev' s',
    pruns r prev s prev' s' -> exists w, s = (w ++ s')%list /\ mentions t w.

(** ** What [detect_amendment] takes for the sign of an amendment *)

(** Two pairs of tildes on one line. *)
Definition struck (s : list ascii) : Prop :=
  exists pre mid post,
    s = (pre ++ chars "~~" ++ mid ++ chars "~~" ++ post)%list /\ same_line mid.

(** One of the field names, in any case. *)
Definition is_field (f : list ascii) : Prop :=
  reads "date" f \/ reads "pickup" f \/ reads "address" f \/ reads "time" f \/
  reads "participants" f.

(** No word character right before (after [pre]) and none right after. *)
Definition stands_alone (pre post : list ascii) : Prop :=
  word_before (prev_after None pre) = false /\ word_after post = false.

(** The word new, then on the same line a field name. *)
Definition new_then_field (s : list ascii) : Prop :=
  exists pre w mid f post,
    s = (pre ++ w ++ mid ++ f ++ post)%list /\
    reads "new" w /\ stands_alone pre (mid ++ f ++ post) /\
    same_line mid /\ is_field f.

(** A field name, then on the same line the word new. *)
Definition field_then_new (s : list ascii) : Prop :=
  exists pre f mid w post,
    s = (pre ++ f ++ mid ++ w ++ post)%list /\
    is_field f /\ same_line mid /\
    reads "new" w /\ stands_alone (pre ++ f ++ mid) post.

Definition amendment_evidence (s : list ascii) : Prop :=
  struck s \/ new_then_field s \/ field_then_new s \/
  mentions "amended" s \/ mentions "updated" s \/ mentions "changed" s \/
  mentions "modification" s.

(** ** The totals of a run *)

(** How the store and the counters after [n] messages relate to the store
    and the counters before them. *)
Definition totals (n : nat) (st st' : state) : Prop :=
  (List.length (collection st') + cancelled st' + saved st
   = List.length (collection st) + saved st' + cancelled st)%nat /\
  (processed st' + errors st' <= processed st + errors st + n)%nat /\
  (saved st' + updated st' + duplicates st' + cancelled st' + processed st
   <= processed st' + saved st + updated st + duplicates st + cancelled st)%nat /\
  (processed st <= processed st' /\ saved st <= saved st' /\
   updated st <= updated st' /\ cancelled st <= cancelled st' /\
   duplicates st <= duplicates st' /\ errors st <= errors st')%nat.

(** A mailbox of seven messages: two that are no booking mail, a new
    booking, its amendment, a message that cannot be fetched, a
    cancellation and an answer without reference. *)
Definition mail_other : fetched :=
  Fetched (mkMessage "Your weekly summary" "Nothing to do."
             (Raise ConnectionError) (HttpFailed ConnectionError)).

Definition mail_new : fetched :=
  Fetched (mkMessage "Booking - GYG1" body_gyg1
             (Ok (VDict answer_gyg1)) (HttpFailed ConnectionError)).

Definition mail_amendment : fetched :=
  Fetched (mkMessage "Booking detail change - GYG1" "The date was changed."
             (Ok (VDict amendment_gyg1)) (HttpFailed ConnectionError)).

Definition mail_cancellation : fetched :=
  Fetched (mkMessage "Booking cancelled - GYG4" "The customer cancelled."
             (Ok (VDict cancellation_gyg4)) (HttpFailed ConnectionError)).

Definition mail_no_reference : fetched :=
  Fetched (mkMessage "Booking question" "Please call me."
             (Ok (VDict [("name", VStr "Ann Lee")])) (HttpFailed ConnectionError)).

Definition mailbox_seven : list fetched :=
  [ mail_other; mail_other; mail_new; mail_amendment; FetchFailed ConnectionError;
    mail_cancellation; mail_no_reference ].

(** ** The parts of a fenced text *)

(** no character of [s] is [c] *)
Definition free_of (c : ascii) (s : list ascii) : bool :=
  forallb (fun x => negb (Ascii.eqb x c)) s.

Definition all_space (s : list ascii) : bool := forallb is_space s.

(** [sep.join(parts)] *)
Fixpoint join (sep : list ascii) (parts : list (list ascii)) : list ascii :=
  match parts with
  | [] => []
  | [p] => p
  | p :: rest => p ++ sep ++ join sep rest
  end.

(** [s.rstrip()] *)
Definition rstrip (s : list ascii) : list ascii := rev (drop_space (rev s)).

(** a part that the loop of [parse_with_g4f] passes over *)
Definition g4f_passes (part : list ascii) : bool :=
  negb (starts_with (chars "json") (strip_chars part))
  && negb (starts_with (chars "{") (strip_chars part)).

(** a part that the loop of [parse_with_huggingface] passes over *)
Definition huggingface_passes (part : list ascii) : bool :=
  negb (contains (chars "json") (map lower_char part)).

(** ** The name that is captured *)

(** At the head of [s]: a salutation of the kind [P], white space and the
    name [n]. *)
Definition greets_here (P : list ascii -> Prop) (s n : list ascii) : Prop :=
  exists sal ws rest,
    s = (sal ++ ws ++ n ++ rest)%list /\ P sal /\ spaces ws /\ name_shape n.

(** No greeting of the kind [P] anywhere in [s]. *)
Definition no_greeting (P : list ascii -> Prop) (s : list ascii) : Prop :=
  forall pre s1 n, s = (pre ++ s1)%list -> ~ greets_here P s1 n.

(** What a search for the pattern of the kind [P] captures in [s]: the
    greeting that starts first, and there the longest name that can be
    read. *)
Definition captured (P : list ascii -> Prop) (s n : list ascii) : Prop :=
  exists pre s1,
    s = (pre ++ s1)%list /\ greets_here P s1 n /\
    (forall pre' s1' n',
       s = (pre' ++ s1')%list -> greets_here P s1' n' ->
       (List.length pre <= List.length pre')%nat) /\
    (forall n', greets_here P s1 n' -> (List.length n' <= List.length n)%nat).

(** The first pattern is searched first; the second one counts only when
    the first has no match at all. *)
Definition captured_name (s n : list ascii) : Prop :=
  captured is_short_salutation s n \/
  (no_greeting is_short_salutation s /\ captured is_good_salutation s n).

(** Of two salutations of the kind that stand at the same place, there is
    only one. *)
Definition one_reading (P : list ascii -> Prop) : Prop :=
  forall sal sal' x x',
    P sal -> P sal' -> (sal ++ x)%list = (sal' ++ x')%list -> sal = sal'.

(** [s] without its longest head of characters of the class [p]. *)
Fixpoint drop_run (p : ascii -> bool) (s : list ascii) : list ascii :=
  match s with
  | c :: s' => if p c then drop_run p s' else s
  | [] => []
  end.

(** What follows the longest capitalized word at the head of [s]. *)
Definition word_end (s : list ascii) : option (list ascii) :=
  match s with
  | c :: l :: s' =>
      if is_upper c && is_lower l then Some (drop_run is_lower s') else None
  | _ => None
  end.

(** What follows white space and a second capitalized word. *)
Definition second_end (r : list ascii) : option (list ascii) :=
  match r with
  | c :: r' => if is_space c then word_end (drop_run is_space r') else None
  | [] => None
  end.

(** What follows the longest name at the head of [s]. *)
Definition name_end (s : list ascii) : option (list ascii) :=
  match word_end s with
  | Some r1 =>
      match second_end r1 with
      | Some r2 => Some r2
      | None => Some r1
      end
  | None => None
  end.

(** A greeting with a name of two words, then more capitalized words. *)
Definition body_john_smith : string := "Hi John Smith Junior, welcome. Dear Ann".

(** * Properties *)

(** ** The primitives on examples *)

Example py_int_examples :
  py_int (VStr " 12 ") = Ok (VInt 12) /\
  py_int (VStr "-3") = Ok (VInt (-3)) /\
  py_int (VStr "1_000") = Ok (VInt 1000) /\
  py_int (VStr "two") = Raise ValueError /\
  py_int (VStr "3.5") = Raise ValueError /\
  py_int (VStr "+ 5") = Raise ValueError /\
  py_int (VStr "1__0") = Raise ValueError /\
  py_int (VList [VInt 1]) = Raise TypeError.
Proof. repeat split; reflexivity. Qed.

Example py_split_examples :
  py_split "Maria  Lopez" = ["Maria"; "Lopez"] /\
  py_split " Bob " = ["Bob"] /\
  py_split "   " = [].
Proof. repeat split; reflexivity. Qed.

Example greeting_examples :
  extract_greeting_name "Hi John, your booking" = Ok (VStr "John") /\
  extract_greeting_name "Dear Maria  Lopez, thank you" = Ok (VStr "Maria  Lopez") /\
  extract_greeting_name "Good  morning Ann Lee Wu" = Ok (VStr "Ann Lee") /\
  extract_greeting_name "Hello john, Hey Bo" = Ok (VStr "Bo") /\
  extract_greeting_name "hi John" = Ok VNone /\
  extract_greeting_name "Booking confirmed" = Ok VNone.
Proof. repeat split; reflexivity. Qed.

(** ** Dictionaries *)

Lemma assoc_find_set (k k' : string) (v : value) (d : dict) :
  assoc_find k' (dict_set k v d) =
  if String.eqb k' k then Some v else assoc_find k' d.
Proof.
  induction d as [|[k0 v0] d IH]; simpl.
  - destruct (String.eqb k' k); reflexivity.
  - destruct (String.eqb k k0) eqn:E; simpl.
    + apply String.eqb_eq in E. subst k0.
      destruct (String.eqb k' k); reflexivity.
    + destruct (String.eqb k' k0) eqn:E0.
      * apply String.eqb_eq in E0. subst k0.
        rewrite String.eqb_sym, E. reflexivity.
      * exact IH.
Qed.

Lemma dict_get_set (k k' : string) (v : value) (d : dict) :
  dict_get (dict_set k v d) k' = if String.eqb k' k then v else dict_get d k'.
Proof.
  unfold dict_get. rewrite assoc_find_set.
  destruct (String.eqb k' k); reflexivity.
Qed.

Lemma dict_get_set_eq (k : string) (v : value) (d : dict) :
  dict_get (dict_set k v d) k = v.
Proof. rewrite dict_get_set, String.eqb_refl. reflexivity. Qed.

Lemma dict_get_set_ne (k k' : string) (v : value) (d : dict) :
  k' <> k -> dict_get (dict_set k v d) k' = dict_get d k'.
Proof.
  intros H. rewrite dict_get_set.
  destruct (String.eqb k' k) eqn:E; [|reflexivity].
  apply String.eqb_eq in E. contradiction.
Qed.

Lemma dict_keys_set (k : string) (v : value) (d : dict) :
  dict_keys (dict_set k v d) =
  if str_in k (dict_keys d) then dict_keys d else (dict_keys d ++ [k])%list.
Proof.
  unfold dict_keys.
  induction d as [|[k0 v0] d IH]; simpl; [reflexivity|].
  destruct (String.eqb k k0) eqn:E; simpl.
  - apply String.eqb_eq in E. subst. reflexivity.
  - rewrite IH. destruct (str_in k (map fst d)); reflexivity.
Qed.

Lemma str_in_In (k : string) (l : list string) : str_in k l = true <-> In k l.
Proof.
  induction l as [|a l IH]; simpl.
  - split; [discriminate|tauto].
  - rewrite orb_true_iff, IH, String.eqb_eq. split; intros [H|H]; auto.
Qed.

Lemma dict_wf_set (k : string) (v : value) (d : dict) :
  dict_wf d -> dict_wf (dict_set k v d).
Proof.
  unfold dict_wf. intros H. rewrite dict_keys_set.
  destruct (str_in k (dict_keys d)) eqn:E; [exact H|].
  apply NoDup_app. split; [exact H|]. split; [|apply NoDup_singleton].
  intros x Hx Hx'. apply list_elem_of_In in Hx. apply list_elem_of_In in Hx'.
  destruct Hx' as [<-|[]]. apply str_in_In in Hx. congruence.
Qed.

(** With distinct keys, an item of the dictionary is what [get] answers. *)
Lemma assoc_find_In (k : string) (v : value) (d : dict) :
  dict_wf d -> In (k, v) d -> assoc_find k d = Some v.
Proof.
  unfold dict_wf, dict_keys.
  induction d as [|[k0 v0] d IH]; simpl; [tauto|].
  intros Hnd [H|H].
  - inversion H; subst. rewrite String.eqb_refl. reflexivity.
  - apply NoDup_cons in Hnd as [Hnotin Hnd].
    destruct (String.eqb k k0) eqn:E.
    + apply String.eqb_eq in E. subst k0. exfalso. apply Hnotin.
      apply list_elem_of_In. apply (in_map fst) in H. exact H.
    + apply IH; assumption.
Qed.

Lemma dict_get_In (k : string) (v : value) (d : dict) :
  dict_wf d -> In (k, v) d -> dict_get d k = v.
Proof. intros Hwf H. unfold dict_get. rewrite (assoc_find_In k v d Hwf H). reflexivity. Qed.

(** ** The loop of [smart_merge] computes the fold *)

(** The loop on the heap computes the fold, as long as [merged] is an
    object of its own. *)
Lemma merge_loop_fold (le lm : nat) (items : dict) :
  forall (upd : list string) (h : heap) (e m : dict),
    le <> lm -> h !! le = Some e -> h !! lm = Some m ->
    merge_loop le lm items upd h =
    (fst (merge_fold e items m upd), <[lm := snd (merge_fold e items m upd)]> h).
Proof.
  induction items as [|[field new_value] rest IH]; intros upd h e m Hne He Hm.
  - simpl. unfold ret. rewrite insert_id by exact Hm. reflexivity.
  - assert (Hupd : forall x,
      (let! m0 := read lm in
       let! _ := write lm (dict_set field x m0) in
       merge_loop le lm rest (upd ++ [field])) h =
      (fst (merge_fold e rest (dict_set field x m) (upd ++ [field])),
       <[lm := snd (merge_fold e rest (dict_set field x m) (upd ++ [field]))]> h)).
    { intros x. unfold bind, read, write. rewrite Hm.
      rewrite (IH _ _ e (dict_set field x m)); auto.
      - rewrite insert_insert_eq. reflexivity.
      - rewrite lookup_insert_ne by auto. exact He.
      - apply lookup_insert_eq. }
    cbn [merge_loop merge_fold]. unfold accepts.
    destruct (str_in field metadata_fields); [apply IH; assumption|].
    destruct (is_none new_value || py_eq new_value (VStr "")); [apply IH; assumption|].
    destruct (str_in field protected_fields).
    + unfold bind at 1. unfold read at 1. rewrite He.
      destruct (truthy new_value && negb (py_eq new_value (dict_get e field)));
        [|apply IH; assumption].
      unfold bind at 1. unfold lift.
      destruct (single_word_name field new_value) as [[|]|x]; cbn [rbind negb fst snd].
      * apply IH; assumption.
      * apply Hupd.
      * rewrite insert_id by exact Hm. reflexivity.
    + unfold bind at 1. unfold read at 1. rewrite He.
      destruct (py_eq new_value (dict_get e field)); cbn [negb].
      * apply IH; assumption.
      * apply Hupd.
Qed.

Lemma fresh_not_allocated (h : heap) (l : nat) (d : dict) :
  h !! l = Some d -> l <> fresh (dom h).
Proof.
  intros H E. apply (is_fresh (dom h)). rewrite <- E.
  apply elem_of_dom. eauto.
Qed.

(** [smart_merge] on two distinct objects, in terms of the fold. *)
Lemma smart_merge_fold (le ln : nat) (g : value) (now : Z) (h : heap) (e n : dict) :
  le <> ln -> h !! le = Some e -> h !! ln = Some n ->
  smart_merge le ln g now h =
  let lm := fresh (dom h) in
  let h2 := <[ln := filter_greeting n g]> (<[lm := e]> h) in
  match merge_fold e (filter_greeting n g) e [] with
  | (Ok upd, m) => (Ok (lm, upd), <[lm := dict_set "updatedAt" (VTime now) m]> h2)
  | (Raise x, m) => (Raise x, <[lm := m]> h2)
  end.
Proof.
  intros Hne He Hn.
  pose proof (fresh_not_allocated h le e He) as Hle.
  pose proof (fresh_not_allocated h ln n Hn) as Hln.
  set (lm := fresh (dom h)) in *.
  unfold smart_merge.
  unfold bind at 1. unfold read at 1. rewrite He.
  unfold bind at 1. unfold alloc. fold lm.
  unfold bind at 1. unfold read at 1.
  rewrite lookup_insert_ne by auto. rewrite Hn.
  assert (Hfilter :
    (if py_eq (dict_get n "name") g
     then write ln (dict_set "name" VNone n) else ret tt) (<[lm := e]> h) =
    (Ok tt, <[ln := filter_greeting n g]> (<[lm := e]> h))).
  { unfold filter_greeting. destruct (py_eq (dict_get n "name") g).
    - reflexivity.
    - unfold ret. rewrite (insert_id _ ln n); [reflexivity|].
      rewrite lookup_insert_ne by auto. exact Hn. }
  unfold bind at 1. rewrite Hfilter.
  unfold bind at 1. unfold read at 1. rewrite lookup_insert_eq.
  unfold bind at 1.
  rewrite (merge_loop_fold le lm _ _ _ e e); auto.
  - cbv zeta. destruct (merge_fold e (filter_greeting n g) e []) as [[upd|x] m];
      cbn [fst snd]; [|reflexivity].
    unfold bind, read, write, ret. rewrite lookup_insert_eq.
    rewrite insert_insert_eq. reflexivity.
  - rewrite lookup_insert_ne by auto. rewrite lookup_insert_ne by auto. exact He.
  - rewrite lookup_insert_ne by auto. apply lookup_insert_eq.
Qed.

Section MergeFold.

Variable e : dict.

(** The fields listed by the fold: those listed before and those of the
    accepted items. *)
Lemma merge_fold_listed (items : dict) :
  forall (m : dict) (upd upd' : list string) (m' : dict),
    merge_fold e items m upd = (Ok upd', m') ->
    forall f, In f upd' <->
              In f upd \/ exists v, In (f, v) items /\ accepts e f v = Ok true.
Proof.
  induction items as [|[f0 v0] rest IH]; intros m upd upd' m' H f.
  - cbn in H. inversion H; subst. split; [auto|].
    intros [Hin|[v [[] _]]]. exact Hin.
  - cbn [merge_fold] in H.
    destruct (accepts e f0 v0) as [[|]|x] eqn:Ha; [| |discriminate].
    + rewrite (IH _ _ _ _ H f). rewrite in_app_iff. cbn [In]. split.
      * intros [[Hin|[<-|[]]]|[v [Hin Hv]]].
        -- left. exact Hin.
        -- right. exists v0. split; [left; reflexivity|exact Ha].
        -- right. exists v. split; [right; exact Hin|exact Hv].
      * intros [Hin|[v [[Heq|Hin] Hv]]].
        -- left. left. exact Hin.
        -- inversion Heq; subst. left. right. left. reflexivity.
        -- right. exists v. split; assumption.
    + rewrite (IH _ _ _ _ H f). split.
      * intros [Hin|[v [Hin Hv]]].
        -- left. exact Hin.
        -- right. exists v. split; [right; exact Hin|exact Hv].
      * intros [Hin|[v [[Heq|Hin] Hv]]].
        -- left. exact Hin.
        -- inversion Heq; subst. congruence.
        -- right. exists v. split; assumption.
Qed.

(** A field without an accepted item keeps its entry. *)
Lemma merge_fold_untouched (items : dict) :
  forall (m : dict) (upd : list string) (r : result (list string)) (m' : dict),
    merge_fold e items m upd = (r, m') ->
    forall f, (forall v, In (f, v) items -> accepts e f v <> Ok true) ->
              assoc_find f m' = assoc_find f m.
Proof.
  induction items as [|[f0 v0] rest IH]; intros m upd r m' H f Hf.
  - cbn in H. inversion H; subst. reflexivity.
  - cbn [merge_fold] in H.
    assert (Hrest : forall v, In (f, v) rest -> accepts e f v <> Ok true).
    { intros v Hin. apply Hf. right. exact Hin. }
    destruct (accepts e f0 v0) as [[|]|x] eqn:Ha.
    + rewrite (IH _ _ _ _ H f Hrest). rewrite assoc_find_set.
      destruct (String.eqb f f0) eqn:E; [|reflexivity].
      apply String.eqb_eq in E. subst f0.
      exfalso. apply (Hf v0); [left; reflexivity|exact Ha].
    + apply (IH _ _ _ _ H f Hrest).
    + inversion H; subst. reflexivity.
Qed.

(** A field that is not listed keeps its entry. *)
Lemma merge_fold_frame (items m : dict) (upd upd' : list string) (m' : dict) (f : string) :
  merge_fold e items m upd = (Ok upd', m') ->
  ~ In f upd' -> assoc_find f m' = assoc_find f m.
Proof.
  intros H Hf. apply (merge_fold_untouched _ _ _ _ _ H).
  intros v Hin Ha. apply Hf. apply (merge_fold_listed _ _ _ _ _ H). eauto.
Qed.

(** With distinct keys, an accepted item is the entry of its field. *)
Lemma merge_fold_written (items : dict) :
  forall (m : dict) (upd : list string) (r : result (list string)) (m' : dict),
    dict_wf items ->
    merge_fold e items m upd = (r, m') ->
    (exists upd', r = Ok upd') ->
    forall f v, In (f, v) items -> accepts e f v = Ok true ->
                assoc_find f m' = Some v.
Proof.
  induction items as [|[f0 v0] rest IH]; intros m upd r m' Hwf H Hok f v Hin Ha.
  - destruct Hin.
  - unfold dict_wf, dict_keys in Hwf. cbn [map fst] in Hwf.
    apply NoDup_cons in Hwf as [Hnotin Hwf].
    cbn [merge_fold] in H. destruct Hin as [Heq|Hin].
    + inversion Heq; subst f0 v0. rewrite Ha in H.
      rewrite (merge_fold_untouched _ _ _ _ _ H f).
      * rewrite assoc_find_set, String.eqb_refl. reflexivity.
      * intros v' Hin'. exfalso. apply Hnotin. apply list_elem_of_In.
        apply (in_map fst) in Hin'. exact Hin'.
    + destruct (accepts e f0 v0) as [[|]|x] eqn:Ha0.
      * apply (IH _ _ _ _ Hwf H Hok f v Hin Ha).
      * apply (IH _ _ _ _ Hwf H Hok f v Hin Ha).
      * destruct Hok as [upd' Hok]. inversion H; subst. discriminate.
Qed.

End MergeFold.

(** ** What the loop accepts *)

Lemma accepts_true (e : dict) (f : string) (v : value) :
  accepts e f v = Ok true ->
  str_in f metadata_fields = false /\
  absent v = false /\
  py_eq v (dict_get e f) = false /\
  (str_in f protected_fields = true -> truthy v = true) /\
  (f = "name" -> exists s, v = VStr s /\ (2 <= List.length (py_split s))%nat).
Proof.
  unfold accepts, absent. intros H.
  destruct (str_in f metadata_fields); [discriminate|].
  destruct (is_none v || py_eq v (VStr "")); [discriminate|].
  destruct (str_in f protected_fields) eqn:Hp.
  - destruct (truthy v) eqn:Ht; [|discriminate].
    destruct (py_eq v (dict_get e f)) eqn:Hd; [discriminate|].
    cbn [andb negb] in H. repeat split; auto.
    intros ->. unfold single_word_name in H. cbn [String.eqb] in H.
    rewrite ?String.eqb_refl in H.
    destruct v; try discriminate. cbn [value_split rbind] in H.
    exists s. split; [reflexivity|].
    destruct (List.length (py_split s) <? 2)%nat eqn:L; [discriminate|].
    apply Nat.ltb_ge in L. exact L.
  - destruct (py_eq v (dict_get e f)) eqn:Hd; [discriminate|].
    repeat split; auto; [discriminate|].
    intros ->. discriminate.
Qed.

Lemma filter_greeting_other (n : dict) (g : value) (f : string) :
  f <> "name" -> dict_get (filter_greeting n g) f = dict_get n f.
Proof.
  intros Hf. unfold filter_greeting.
  destruct (py_eq (dict_get n "name") g); [|reflexivity].
  apply dict_get_set_ne. exact Hf.
Qed.

Lemma filter_greeting_wf (n : dict) (g : value) :
  dict_wf n -> dict_wf (filter_greeting n g).
Proof.
  intros H. unfold filter_greeting.
  destruct (py_eq (dict_get n "name") g); [apply dict_wf_set|]; exact H.
Qed.

(** An accepted item of the filtered candidate is an item of the candidate
    itself, and a name that equals the greeting name is never accepted. *)
Lemma accepted_after_filter (e n : dict) (g : value) (f : string) (v : value) :
  dict_wf n ->
  In (f, v) (filter_greeting n g) -> accepts e f v = Ok true ->
  v = dict_get n f /\ (f = "name" -> py_eq (dict_get n "name") g = false).
Proof.
  intros Hwf Hin Ha.
  pose proof (dict_get_In f v _ (filter_greeting_wf n g Hwf) Hin) as Hget.
  destruct (String.eqb f "name") eqn:E.
  - apply String.eqb_eq in E. subst f.
    unfold filter_greeting in *.
    destruct (py_eq (dict_get n "name") g) eqn:Hg.
    + rewrite dict_get_set_eq in Hget. subst v.
      apply accepts_true in Ha. destruct Ha as (_ & Habs & _). discriminate.
    + split; [symmetry; exact Hget|reflexivity].
  - assert (f <> "name") as Hne by (intros ->; rewrite String.eqb_refl in E; discriminate).
    rewrite filter_greeting_other in Hget by exact Hne.
    split; [symmetry; exact Hget|]. intros ->. contradiction.
Qed.

(** The heap after a merge that returned. *)
Lemma smart_merge_returns (le ln : nat) (g : value) (now : Z) (h h' : heap)
    (e n : dict) (lm : nat) (upd : list string) :
  le <> ln -> h !! le = Some e -> h !! ln = Some n ->
  smart_merge le ln g now h = (Ok (lm, upd), h') ->
  exists mf,
    merge_fold e (filter_greeting n g) e [] = (Ok upd, mf) /\
    h !! lm = None /\
    h' !! lm = Some (dict_set "updatedAt" (VTime now) mf) /\
    h' !! le = Some e /\
    h' !! ln = Some (filter_greeting n g).
Proof.
  intros Hne He Hn H.
  pose proof (fresh_not_allocated h le e He) as Hle.
  pose proof (fresh_not_allocated h ln n Hn) as Hln.
  rewrite (smart_merge_fold le ln g now h e n Hne He Hn) in H. cbv zeta in H.
  destruct (merge_fold e (filter_greeting n g) e []) as [[upd0|x] mf]; [|discriminate].
  inversion H; subst. exists mf. split; [reflexivity|]. split.
  - apply not_elem_of_dom. apply is_fresh.
  - split; [apply lookup_insert_eq|]. split.
    + rewrite !lookup_insert_ne by auto. exact He.
    + rewrite lookup_insert_ne by auto. apply lookup_insert_eq.
Qed.

Lemma smart_merge_keeps_existing (le ln : nat) (g : value) (now : Z) (h : heap)
    (e n : dict) :
  le <> ln -> h !! le = Some e -> h !! ln = Some n ->
  (smart_merge le ln g now h).2 !! le = Some e.
Proof.
  intros Hne He Hn.
  pose proof (fresh_not_allocated h le e He) as Hle.
  rewrite (smart_merge_fold le ln g now h e n Hne He Hn). cbv zeta.
  destruct (merge_fold e (filter_greeting n g) e []) as [[upd0|x] mf]; cbn [snd];
    rewrite !lookup_insert_ne by auto; exact He.
Qed.

(** ** The merge returns *)

(** The only statement of the loop that can raise is [new_value.split()],
    reached for a [name] that is not a string. *)
Lemma accepts_returns (e : dict) (f : string) (v : value) :
  (f = "name" -> v = VNone \/ exists s, v = VStr s) ->
  exists b, accepts e f v = Ok b.
Proof.
  intros Hname. unfold accepts.
  destruct (str_in f metadata_fields); [eauto|].
  destruct (is_none v || py_eq v (VStr "")) eqn:Habs; [eauto|].
  destruct (str_in f protected_fields); [|eauto].
  destruct (truthy v && negb (py_eq v (dict_get e f))); [|eauto].
  unfold single_word_name. destruct (String.eqb f "name") eqn:E; [|cbn; eauto].
  apply String.eqb_eq in E. destruct (Hname E) as [->|[s ->]].
  - discriminate.
  - cbn. eauto.
Qed.

Lemma merge_fold_returns (e : dict) (items : dict) :
  (forall v, In ("name", v) items -> v = VNone \/ exists s, v = VStr s) ->
  forall m upd, exists upd', (merge_fold e items m upd).1 = Ok upd'.
Proof.
  induction items as [|[f v] rest IH]; intros Hname m upd; cbn [merge_fold].
  - exists upd. reflexivity.
  - assert (Hrest : forall v0, In ("name", v0) rest ->
                               v0 = VNone \/ exists s, v0 = VStr s).
    { intros v0 Hin. apply Hname. right. exact Hin. }
    destruct (accepts_returns e f v) as [b Hb].
    { intros ->. apply Hname. left. reflexivity. }
    rewrite Hb. destruct b; apply IH; exact Hrest.
Qed.

Lemma dict_set_In (k : string) (v : value) (d : dict) (k' : string) (v' : value) :
  In (k', v') (dict_set k v d) -> (k' = k /\ v' = v) \/ In (k', v') d.
Proof.
  induction d as [|[k0 v0] d IH]; cbn [dict_set].
  - intros [H|[]]. inversion H. auto.
  - destruct (String.eqb k k0).
    + intros [H|H]; [inversion H; auto|right; right; exact H].
    + intros [H|H]; [right; left; exact H|].
      destruct (IH H) as [?|?]; [auto|right; right; assumption].
Qed.

(** [smart_merge] on two distinct objects returns whenever the candidate's
    name is [None] or a string. *)
Lemma smart_merge_total (le ln : nat) (g : value) (now : Z) (h : heap) (e n : dict) :
  le <> ln -> h !! le = Some e -> h !! ln = Some n ->
  (forall v, In ("name", v) n -> v = VNone \/ exists s, v = VStr s) ->
  exists upd, (smart_merge le ln g now h).1 = Ok (fresh (dom h), upd).
Proof.
  intros Hne He Hn Hname.
  rewrite (smart_merge_fold le ln g now h e n Hne He Hn). cbv zeta.
  destruct (merge_fold_returns e (filter_greeting n g)) with (m := e) (upd := @nil string)
    as [upd Hupd].
  { intros v Hin. unfold filter_greeting in Hin.
    destruct (py_eq (dict_get n "name") g); [|apply Hname; exact Hin].
    apply dict_set_In in Hin. destruct Hin as [[_ ->]|Hin]; [auto|].
    apply Hname. exact Hin. }
  destruct (merge_fold e (filter_greeting n g) e []) as [[upd0|x] m];
    cbn [fst] in Hupd; [|discriminate].
  exists upd0. reflexivity.
Qed.

(** A name that is not a string stops the merge, and with it the message:
    the store stays as it was and the error is counted. *)
Example name_not_a_string :
  (smart_merge 1 0 VNone 200
     (two_objects [("booking_reference", VStr "GYG1"); ("name", VInt 5)] stored_gyg1)).1
  = Raise AttributeError.
Proof. vm_compute; reflexivity. Qed.

(** When the two arguments are one object, the greeting filter changes the
    existing record. *)
Example smart_merge_one_object :
  (smart_merge 0 0 (VStr "Maria Lopez") 200 (<[0%nat := stored_gyg1]> ∅)).2 !! 0%nat
  = Some (dict_set "name" VNone stored_gyg1).
Proof. vm_compute; reflexivity. Qed.

(** ** The merge: frame, protected fields *)

Example scenario_A :
  (smart_merge 1 0 VNone 200 (two_objects amendment_gyg1 stored_gyg1)).1
  = Ok (2%nat, ["tourDate"]) /\
  (smart_merge 1 0 VNone 200 (two_objects amendment_gyg1 stored_gyg1)).2 !! 2%nat
  = Some [ ("_id", VOid 7); ("name", VStr "Maria Lopez"); ("phoneNumber", VStr "+1555");
           ("tourDate", VStr "March 5, 2026"); ("booking_reference", VStr "GYG1");
           ("updatedAt", VTime 200) ].
Proof. split; vm_compute; reflexivity. Qed.

(** C10. [smart_merge] leaves the object [existing_booking] as it was: it
    works on a copy, a new object.  It returns for every candidate whose
    name is [None] or a string.  The merged document it returns has, for
    every field that is not in the returned list of updated fields, the entry
    of the existing record, except [updatedAt], which is set to the instant
    of the merge even when that list is empty. *)
Theorem smart_merge_frame (le ln : nat) (g : value) (now : Z) (h : heap) (e n : dict) :
  le <> ln -> h !! le = Some e -> h !! ln = Some n ->
  (smart_merge le ln g now h).2 !! le = Some e /\
  ((forall v, In ("name", v) n -> v = VNone \/ exists s, v = VStr s) ->
   exists lm upd, (smart_merge le ln g now h).1 = Ok (lm, upd)) /\
  forall lm upd,
    (smart_merge le ln g now h).1 = Ok (lm, upd) ->
    h !! lm = None /\
    exists m,
      (smart_merge le ln g now h).2 !! lm = Some m /\
      (forall f, f <> "updatedAt" -> ~ In f upd -> assoc_find f m = assoc_find f e) /\
      assoc_find "updatedAt" m = Some (VTime now).
Proof.
  intros Hne He Hn. split; [|split].
  - apply (smart_merge_keeps_existing le ln g now h e n Hne He Hn).
  - intros Hname.
    destruct (merge_fold_returns e (filter_greeting n g)) with (m := e) (upd := @nil string)
      as [upd Hupd].
    { intros v Hin. unfold filter_greeting in Hin.
      destruct (py_eq (dict_get n "name") g); [|apply Hname; exact Hin].
      apply dict_set_In in Hin. destruct Hin as [[_ ->]|Hin]; [auto|].
      apply Hname. exact Hin. }
    rewrite (smart_merge_fold le ln g now h e n Hne He Hn). cbv zeta.
    destruct (merge_fold e (filter_greeting n g) e []) as [[upd0|x] mf];
      cbn [fst] in Hupd; [|discriminate].
    exists (fresh (dom h)), upd0. reflexivity.
  - intros lm upd H.
    destruct (smart_merge le ln g now h) as [r h'] eqn:Hrun. cbn [fst snd] in *.
    subst r.
    destruct (smart_merge_returns le ln g now h h' e n lm upd Hne He Hn Hrun)
      as (mf & Hfold & Hnew & Hlm & _ & _).
    split; [exact Hnew|].
    exists (dict_set "updatedAt" (VTime now) mf). split; [exact Hlm|]. split.
    + intros f Hf Hout. rewrite assoc_find_set.
      destruct (String.eqb f "updatedAt") eqn:E.
      * apply String.eqb_eq in E. contradiction.
      * apply (merge_fold_frame e _ _ _ _ _ f Hfold Hout).
    + rewrite assoc_find_set, String.eqb_refl. reflexivity.
Qed.

Lemma smart_merge_frame_witness :
  (smart_merge 1 0 VNone 200 heap_gyg1).2 !! 1%nat = Some stored_gyg1 /\
  exists lm upd m,
    (smart_merge 1 0 VNone 200 heap_gyg1).1 = Ok (lm, upd) /\
    heap_gyg1 !! lm = None /\
    (smart_merge 1 0 VNone 200 heap_gyg1).2 !! lm = Some m /\
    (forall f, f <> "updatedAt" -> ~ In f upd ->
               assoc_find f m = assoc_find f stored_gyg1) /\
    assoc_find "updatedAt" m = Some (VTime 200).
Proof.
  destruct (smart_merge_frame 1 0 VNone 200 heap_gyg1 stored_gyg1 amendment_gyg1)
    as (Hkeep & Hret & Hframe).
  - lia.
  - vm_compute; reflexivity.
  - vm_compute; reflexivity.
  - split; [exact Hkeep|].
    destruct Hret as (lm & upd & Hrun).
    { intros v Hin. simpl in Hin.
      destruct Hin as [H|[H|[H|[H|[H|[]]]]]]; try discriminate H.
      injection H as <-. left. reflexivity. }
    destruct (Hframe lm upd Hrun) as (Hnew & m & Hm & Hf & Hu).
    exists lm, upd, m. auto.
Defined.

(** A listed field was taken from the candidate: its value there was
    accepted, and it is the entry of the merged document. *)
Lemma listed_field (e n : dict) (g : value) (upd : list string) (mf : dict) (f : string) :
  dict_wf n ->
  merge_fold e (filter_greeting n g) e [] = (Ok upd, mf) ->
  In f upd ->
  accepts e f (dict_get n f) = Ok true /\
  (f = "name" -> py_eq (dict_get n "name") g = false) /\
  assoc_find f mf = Some (dict_get n f).
Proof.
  intros Hwf Hfold Hin.
  apply (merge_fold_listed e _ _ _ _ _ Hfold) in Hin.
  destruct Hin as [[]|[v [Hin Ha]]].
  destruct (accepted_after_filter e n g f v Hwf Hin Ha) as [-> Hname].
  split; [exact Ha|]. split; [exact Hname|].
  apply (merge_fold_written e _ _ _ _ _ (filter_greeting_wf n g Hwf) Hfold); eauto.
Qed.

Example scenario_C :
  (smart_merge 1 0 VNone 200 (two_objects candidate_gyg3 stored_gyg3)).1
  = Ok (2%nat, []).
Proof. vm_compute; reflexivity. Qed.




Lemma dict_wf_amendment_gyg1 : dict_wf amendment_gyg1.
Proof.
  unfold dict_wf. apply (bool_decide_unpack _). vm_compute. exact I.
Defined.

(** C6. When the stored [name] (or [phoneNumber]) is set, neither [None] nor
    empty, the merged document has it set too: it is the stored value, or it
    is the candidate's value, which is then present and differs from the
    stored one and, for [name], is a string of at least two words. *)
Theorem merge_keeps_protected (le ln : nat) (g : value) (now : Z) (h : heap)
    (e n : dict) (lm : nat) (upd : list string) (f : string) :
  le <> ln -> h !! le = Some e -> h !! ln = Some n -> dict_wf n ->
  (smart_merge le ln g now h).1 = Ok (lm, upd) ->
  In f protected_fields ->
  absent (dict_get e f) = false ->
  exists m,
    (smart_merge le ln g now h).2 !! lm = Some m /\
    absent (dict_get m f) = false /\
    (dict_get m f = dict_get e f \/
     (dict_get m f = dict_get n f /\
      absent (dict_get n f) = false /\
      py_eq (dict_get n f) (dict_get e f) = false /\
      (f = "name" ->
       exists s, dict_get n f = VStr s /\ (2 <= List.length (py_split s))%nat))).
Proof.
  intros Hne He Hn Hwf H Hf Hset.
  destruct (smart_merge le ln g now h) as [r h'] eqn:Hrun. cbn [fst snd] in *.
  subst r.
  destruct (smart_merge_returns le ln g now h h' e n lm upd Hne He Hn Hrun)
    as (mf & Hfold & _ & Hlm & _ & _).
  exists (dict_set "updatedAt" (VTime now) mf). split; [exact Hlm|].
  assert (Hts : f <> "updatedAt").
  { destruct Hf as [<-|[<-|[]]]; discriminate. }
  rewrite (dict_get_set_ne _ _ _ _ Hts).
  destruct (in_dec string_dec f upd) as [Hin|Hout].
  - destruct (listed_field e n g upd mf f Hwf Hfold Hin) as (Ha & _ & Hmf).
    assert (Hget : dict_get mf f = dict_get n f).
    { unfold dict_get at 1. rewrite Hmf. reflexivity. }
    apply accepts_true in Ha. destruct Ha as (_ & Habs & Hdiff & _ & Hs).
    rewrite Hget. split; [exact Habs|]. right. repeat split; auto.
  - assert (Hget : dict_get mf f = dict_get e f).
    { unfold dict_get. rewrite (merge_fold_frame e _ _ _ _ _ f Hfold Hout). reflexivity. }
    rewrite Hget. split; [exact Hset|]. left. reflexivity.
Qed.

Lemma merge_keeps_protected_witness :
  exists m,
    (smart_merge 1 0 VNone 200 heap_gyg1).2 !! 2%nat = Some m /\
    absent (dict_get m "name") = false /\
    (dict_get m "name" = dict_get stored_gyg1 "name" \/
     (dict_get m "name" = dict_get amendment_gyg1 "name" /\
      absent (dict_get amendment_gyg1 "name") = false /\
      py_eq (dict_get amendment_gyg1 "name") (dict_get stored_gyg1 "name") = false /\
      ("name" = "name" ->
       exists s, dict_get amendment_gyg1 "name" = VStr s /\
                 (2 <= List.length (py_split s))%nat))).
Proof.
  refine (merge_keeps_protected 1 0 VNone 200 heap_gyg1 stored_gyg1 amendment_gyg1
            2%nat ["tourDate"] "name" _ _ _ dict_wf_amendment_gyg1 _ _ _).
  - lia.
  - vm_compute; reflexivity.
  - vm_compute; reflexivity.
  - vm_compute; reflexivity.
  - left. reflexivity.
  - vm_compute; reflexivity.
Defined.

(** ** The record store *)

Lemma find_one_split (ref : value) (coll : list dict) (e : dict) :
  find_one ref coll = Some e ->
  exists l1 l2,
    coll = (l1 ++ e :: l2)%list /\ find_one ref l1 = None /\
    matches_reference ref e = true /\ delete_one ref coll = (l1 ++ l2)%list.
Proof.
  unfold find_one. induction coll as [|d coll IH]; cbn [find delete_one]; [discriminate|].
  destruct (matches_reference ref d) eqn:E.
  - intros H. inversion H; subst. exists [], coll. repeat split; auto.
  - intros H. destruct (IH H) as (l1 & l2 & -> & Hnone & Hm & Hdel).
    exists (d :: l1), l2. cbn [find app]. rewrite E, Hdel. repeat split; auto.
Qed.

Lemma delete_one_incl (ref : value) (coll : list dict) (d : dict) :
  In d (delete_one ref coll) -> In d coll.
Proof.
  induction coll as [|d0 coll IH]; cbn [delete_one]; [tauto|].
  destruct (matches_reference ref d0); cbn [In]; tauto.
Qed.

(** A document found under a true key is not the empty dictionary. *)
Lemma found_is_truthy (ref : value) (coll : list dict) (e : dict) :
  truthy ref = true -> find_one ref coll = Some e -> truthy (VDict e) = true.
Proof.
  intros Ht H. apply find_one_split in H. destruct H as (_ & _ & _ & _ & Hm & _).
  destruct e as [|kv e]; [|reflexivity].
  unfold matches_reference in Hm. cbn in Hm. destruct ref; discriminate.
Qed.

(** ** Cancellations *)

Example scenario_D :
  process_parsed (fun _ => 0) false VNone (VDict cancellation_gyg4) empty_state
  = (CancelNotFound (VStr "GYG4"), mkState [] 0 0 1 0 0 0 0 0).
Proof. reflexivity. Qed.

Lemma process_cancellation (clock : nat -> Z) (is_amendment : bool)
    (greeting_name : value) (p : dict) (st : state) :
  truthy (dict_get p "is_cancellation") = true ->
  process_parsed clock is_amendment greeting_name (VDict p) st = cancel_branch p st.
Proof.
  intros Hc.
  assert (Hp : truthy (VDict p) = true).
  { destruct p; [discriminate|reflexivity]. }
  unfold process_parsed, try_body. rewrite Hp. cbn [negb]. rewrite Hc.
  destruct (cancel_branch p st). reflexivity.
Qed.

(** C4, as the code has it.  A candidate marked as a cancellation: when it
    has a booking reference and the store has a record under it, that record
    is deleted and the deletion is shown; when it has a reference and the
    store has no record under it, nothing changes and the warning of an
    unmatched cancellation is shown; when it has no reference, nothing
    changes and nothing is shown.  In every case the message counts as
    processed, the error counter stays as it is, and no record is created:
    every document of the store afterwards was there before. *)
Theorem cancellation_decision (clock : nat -> Z) (is_amendment : bool)
    (greeting_name : value) (p : dict) (st : state) :
  truthy (dict_get p "is_cancellation") = true ->
  let ref := dict_get p "booking_reference" in
  let o := (process_parsed clock is_amendment greeting_name (VDict p) st).1 in
  let st' := (process_parsed clock is_amendment greeting_name (VDict p) st).2 in
  (forall e, truthy ref = true -> find_one ref (collection st) = Some e ->
     o = Cancelled ref /\ reported o = true /\
     cancelled st' = S (cancelled st) /\
     collection st' = delete_one ref (collection st) /\
     exists l1 l2, collection st = (l1 ++ e :: l2)%list /\
                   find_one ref l1 = None /\
                   collection st' = (l1 ++ l2)%list) /\
  (truthy ref = true -> find_one ref (collection st) = None ->
     o = CancelNotFound ref /\ reported o = true /\
     cancelled st' = cancelled st /\
     collection st' = collection st) /\
  (truthy ref = false ->
     o = CancelSilent /\ reported o = false /\
     cancelled st' = cancelled st /\
     collection st' = collection st) /\
  errors st' = errors st /\
  processed st' = S (processed st) /\
  saved st' = saved st /\
  updated st' = updated st /\
  (forall d, In d (collection st') -> In d (collection st)).
Proof.
  intros Hc ref o st'. subst o st'.
  rewrite (process_cancellation clock is_amendment greeting_name p st Hc).
  unfold cancel_branch. fold ref.
  destruct (truthy ref) eqn:Ht.
  - destruct (find_one ref (collection st)) as [e|] eqn:Hf.
    + rewrite (found_is_truthy ref _ e Ht Hf). cbn [fst snd].
      split; [|split; [|split; [|split; [|split; [|split; [|split]]]]]];
        try reflexivity.
      * intros e' _ He'. inversion He'; subst e'.
        destruct (find_one_split ref _ e Hf) as (l1 & l2 & Hc1 & Hn & _ & Hd).
        split; [reflexivity|]. split; [reflexivity|]. split; [reflexivity|].
        split; [reflexivity|].
        exists l1, l2. cbn. auto.
      * intros _ H. discriminate.
      * intros H. discriminate.
      * intros d. cbn. apply delete_one_incl.
    + cbn [fst snd].
      split; [|split; [|split; [|split; [|split; [|split; [|split]]]]]];
        try reflexivity.
      * intros e _ He. discriminate.
      * intros _ _. repeat split; reflexivity.
      * intros H. discriminate.
      * auto.
  - split; [|split; [|split; [|split; [|split; [|split; [|split]]]]]];
      try reflexivity.
    + intros e He. discriminate.
    + intros H. discriminate.
    + intros _. repeat split; reflexivity.
    + auto.
Qed.

Lemma cancellation_decision_witness :
  truthy (dict_get cancellation_gyg4 "is_cancellation") = true /\
  (process_parsed (fun _ => 0) false VNone (VDict cancellation_gyg4) state_gyg4).1
  = Cancelled (VStr "GYG4") /\
  collection
    (process_parsed (fun _ => 0) false VNone (VDict cancellation_gyg4) state_gyg4).2
  = [stored_gyg1] /\
  (process_parsed (fun _ => 0) false VNone (VDict cancellation_gyg4) empty_state).1
  = CancelNotFound (VStr "GYG4").
Proof.
  split; [reflexivity|].
  pose proof (cancellation_decision (fun _ => 0) false VNone
                cancellation_gyg4 state_gyg4 eq_refl) as (H & _).
  destruct (H stored_gyg4 eq_refl eq_refl) as (Ho & _ & _ & Hcoll & _).
  split; [exact Ho|]. split; [exact Hcoll|].
  pose proof (cancellation_decision (fun _ => 0) false VNone
                cancellation_gyg4 empty_state eq_refl) as (_ & H' & _).
  exact (proj1 (H' eq_refl eq_refl)).
Defined.

(** Not every cancellation without a record is reported: one without a
    booking reference, for which the store has no record, leaves no line on
    the console, because the warning stands under [if booking_ref:]. *)
Lemma cancellation_unreported :
  truthy (dict_get cancellation_no_reference "is_cancellation") = true /\
  find_one (dict_get cancellation_no_reference "booking_reference")
    (collection state_gyg4) = None /\
  process_parsed Z.of_nat false VNone (VDict cancellation_no_reference) state_gyg4
  = (CancelSilent, count_processed state_gyg4) /\
  reported CancelSilent = false.
Proof. repeat split; reflexivity. Qed.

(** ** New bookings *)

Lemma build_doc_fields (p : dict) (now : Z) (doc : dict) :
  build_doc p now = Ok doc ->
  (forall f, In f copied_fields -> dict_get doc f = dict_get p f) /\
  dict_item p "booking_reference" = Ok (dict_get doc "booking_reference") /\
  dict_get doc "vehicleType" =
    (if truthy (dict_get p "vehicleType") then dict_get p "vehicleType"
     else VStr "Unknown") /\
  dict_get doc "specialRequirements" = VStr "No" /\
  dict_get doc "platform" = VStr "GYG" /\
  dict_get doc "updatedAt" = VTime now /\
  assoc_find "createdAt" doc = None /\
  assoc_find "_id" doc = None.
Proof.
  unfold build_doc. destruct (dict_item p "booking_reference") as [r|x] eqn:Hr;
    cbn [rbind]; [|discriminate].
  intros H. inversion H; subst doc. clear H.
  split.
  - intros f Hf. cbn in Hf.
    destruct Hf as [<-|[<-|[<-|[<-|[<-|[<-|[<-|[]]]]]]]]; reflexivity.
  - repeat split; reflexivity.
Qed.

Lemma create_branch_new (clock : nat -> Z) (p : dict) (st st' : state) :
  create_branch clock p st = (Ok NewBooking, st') ->
  exists doc,
    build_doc p (clock (ticks st)) = Ok doc /\
    collection st' =
      (collection st ++
       [dict_set "_id" (VOid (next_oid st))
          (dict_set "createdAt" (VTime (clock (S (ticks st)))) doc)])%list /\
    saved st' = S (saved st) /\ processed st' = S (processed st) /\
    errors st' = errors st.
Proof.
  unfold create_branch.
  destruct (build_doc p (clock (ticks st))) as [doc|x]; [|discriminate].
  destruct (let? _ := display_field doc "tour" in display_field doc "address");
    [|discriminate].
  intros H. inversion H; subst st'. exists doc. cbn. auto.
Qed.

(** Only the branch of [insert_one] answers [NewBooking]. *)
Lemma new_booking_created (clock : nat -> Z) (is_amendment : bool)
    (greeting_name parsed : value) (st : state) :
  (process_parsed clock is_amendment greeting_name parsed st).1 = NewBooking ->
  exists p,
    parsed = VDict p /\
    create_branch clock p st =
      (Ok NewBooking, (process_parsed clock is_amendment greeting_name parsed st).2).
Proof.
  unfold process_parsed, try_body.
  destruct (truthy parsed); cbn [negb]; [|discriminate].
  destruct parsed as [| | | | |p| |]; try discriminate.
  assert (Hcreate :
    (match create_branch clock p st with
     | (Ok o, st') => (o, st')
     | (Raise e, st') => (Failed e, count_errors st')
     end).1 = NewBooking ->
    exists p0, VDict p = VDict p0 /\
      create_branch clock p0 st =
        (Ok NewBooking,
         (match create_branch clock p st with
          | (Ok o, st') => (o, st')
          | (Raise e, st') => (Failed e, count_errors st')
          end).2)).
  { destruct (create_branch clock p st) as [[o|x] st'] eqn:E; cbn [fst snd];
      [|discriminate].
    intros ->. exists p. auto. }
  destruct (truthy (dict_get p "is_cancellation")).
  { unfold cancel_branch.
    destruct (truthy (dict_get p "booking_reference")); [|discriminate].
    destruct (find_one _ _) as [found|]; [|discriminate].
    destruct (truthy (VDict found)); discriminate. }
  destruct (truthy (dict_get p "booking_reference")); cbn [negb]; [|discriminate].
  destruct (find_one _ _) as [existing|]; [|exact Hcreate].
  destruct (truthy (VDict existing) && _); [|exact Hcreate].
  unfold merge_branch.
  destruct (smart_merge _ _ _ _ _) as [[[lm upd]|x] h']; [|discriminate].
  destruct (h' !! lm); [|discriminate].
  destruct (dict_item _ _); [|discriminate].
  destruct upd; discriminate.
Qed.

(** [vehicleType] after [build_doc] is never [None]. *)
Lemma py_or_not_none (v : value) : py_or v (VStr "Unknown") <> VNone.
Proof.
  unfold py_or. destruct (truthy v) eqn:E; [|discriminate].
  intros ->. discriminate.
Qed.

(** C8, as the code has it.  For every candidate answered with a new
    booking, the store gains one record: [name], [address], [phoneNumber],
    [tour], [tourDate], [tourTime], [totalPassengers] and
    [booking_reference] are the candidate's; [vehicleType] is the
    candidate's when that is true and the literal ["Unknown"] otherwise,
    never [None]; [specialRequirements] is the literal ["No"] and [platform]
    the literal ["GYG"]; [updatedAt] is the reading of the clock taken when
    the document is built and [createdAt] the next reading, taken at the
    insertion. *)
Theorem create_record (clock : nat -> Z) (is_amendment : bool)
    (greeting_name parsed : value) (st : state) :
  (process_parsed clock is_amendment greeting_name parsed st).1 = NewBooking ->
  exists p doc,
    parsed = VDict p /\
    collection (process_parsed clock is_amendment greeting_name parsed st).2
      = (collection st ++ [doc])%list /\
    (forall f, In f copied_fields -> dict_get doc f = dict_get p f) /\
    dict_item p "booking_reference" = Ok (dict_get doc "booking_reference") /\
    dict_get doc "vehicleType" =
      (if truthy (dict_get p "vehicleType") then dict_get p "vehicleType"
       else VStr "Unknown") /\
    dict_get doc "vehicleType" <> VNone /\
    dict_get doc "specialRequirements" = VStr "No" /\
    dict_get doc "platform" = VStr "GYG" /\
    dict_get doc "updatedAt" = VTime (clock (ticks st)) /\
    dict_get doc "createdAt" = VTime (clock (S (ticks st))).
Proof.
  intros H.
  destruct (new_booking_created clock is_amendment greeting_name parsed st H)
    as (p & -> & Hc).
  destruct (create_branch_new clock p st _ Hc) as (doc & Hdoc & Hcoll & _).
  destruct (build_doc_fields p _ doc Hdoc)
    as (Hcopy & Href & Hveh & Hspec & Hplat & Hupd & _ & _).
  exists p. eexists. split; [reflexivity|]. split; [exact Hcoll|].
  assert (Hget : forall f, f <> "_id" -> f <> "createdAt" ->
    dict_get (dict_set "_id" (VOid (next_oid st))
                (dict_set "createdAt" (VTime (clock (S (ticks st)))) doc)) f
    = dict_get doc f).
  { intros f H1 H2. rewrite !dict_get_set_ne by assumption. reflexivity. }
  split.
  { intros f Hf. rewrite Hget.
    - apply Hcopy. exact Hf.
    - intros ->. cbn in Hf. intuition discriminate.
    - intros ->. cbn in Hf. intuition discriminate. }
  rewrite !Hget by discriminate.
  split; [exact Href|]. split; [exact Hveh|]. split.
  { rewrite Hveh. apply py_or_not_none. }
  split; [exact Hspec|]. split; [exact Hplat|]. split; [exact Hupd|].
  rewrite dict_get_set_ne by discriminate. apply dict_get_set_eq.
Qed.

Lemma create_record_witness :
  (process_parsed Z.of_nat false VNone (VDict candidate_gyg5) empty_state).1
  = NewBooking /\
  exists p doc,
    VDict candidate_gyg5 = VDict p /\
    collection (process_parsed Z.of_nat false VNone (VDict candidate_gyg5) empty_state).2
      = (collection empty_state ++ [doc])%list /\
    (forall f, In f copied_fields -> dict_get doc f = dict_get p f) /\
    dict_item p "booking_reference" = Ok (dict_get doc "booking_reference") /\
    dict_get doc "vehicleType" =
      (if truthy (dict_get p "vehicleType") then dict_get p "vehicleType"
       else VStr "Unknown") /\
    dict_get doc "vehicleType" <> VNone /\
    dict_get doc "specialRequirements" = VStr "No" /\
    dict_get doc "platform" = VStr "GYG" /\
    dict_get doc "updatedAt" = VTime (Z.of_nat (ticks empty_state)) /\
    dict_get doc "createdAt" = VTime (Z.of_nat (S (ticks empty_state))).
Proof.
  split; [reflexivity|].
  apply (create_record Z.of_nat false VNone (VDict candidate_gyg5) empty_state).
  reflexivity.
Defined.

(** The record a new booking without a vehicle type gives: the default is
    spelled ["Unknown"], and the two time stamps are two readings of the
    clock. *)
Lemma create_record_literal :
  process_parsed Z.of_nat false VNone (VDict candidate_gyg5) empty_state
  = (NewBooking,
     mkState
       [ [ ("name", VStr "Ida Moe"); ("vehicleType", VStr "Unknown");
           ("address", VNone); ("phoneNumber", VStr "+4670"); ("tour", VNone);
           ("tourDate", VStr "May 2, 2026"); ("tourTime", VNone);
           ("totalPassengers", VNone); ("specialRequirements", VStr "No");
           ("booking_reference", VStr "GYG5"); ("platform", VStr "GYG");
           ("updatedAt", VTime 0); ("createdAt", VTime 1); ("_id", VOid 0) ] ]
       1 2 1 1 0 0 0 0) /\
  VStr "Unknown" <> VStr "unknown" /\
  VTime 0 <> VTime 1.
Proof. split; [reflexivity|]. split; discriminate. Qed.

(** ** The clean-up of the parsed answer *)

Lemma upper_reference_dict (d : dict) :
  (exists x, upper_reference (VDict d) = Raise x) \/
  exists d1,
    upper_reference (VDict d) = Ok (VDict d1) /\
    (forall f, f <> "booking_reference" -> assoc_find f d1 = assoc_find f d) /\
    (truthy (dict_get d "booking_reference") = false -> d1 = d).
Proof.
  unfold upper_reference. cbn [value_get rbind].
  destruct (truthy (dict_get d "booking_reference")) eqn:Ht.
  - cbn [value_item]. destruct (dict_item d "booking_reference") as [r|x];
      cbn [rbind]; [|left; eauto].
    destruct (value_upper r) as [u|x]; cbn [rbind]; [|left; eauto].
    right. eexists. split; [reflexivity|]. split; [|discriminate].
    intros f Hf. rewrite assoc_find_set.
    destruct (String.eqb f "booking_reference") eqn:E; [|reflexivity].
    apply String.eqb_eq in E. contradiction.
  - right. exists d. auto.
Qed.

(** The total count: [int] of a true value, [None] when [int] raises. *)
Lemma g4f_count_dict (d1 : dict) :
  exists d2,
    (let? parsed :=
       (if truthy (dict_get d1 "totalPassengers")
        then try_except
               (let? t' := value_item (VDict d1) "totalPassengers" in
                let? n := py_int t' in
                value_set (VDict d1) "totalPassengers" n)
               (fun _ => value_set (VDict d1) "totalPassengers" VNone)
        else Ok (VDict d1)) in
     Ok parsed) = Ok (VDict d2) /\
    (forall f, f <> "totalPassengers" -> assoc_find f d2 = assoc_find f d1) /\
    (truthy (dict_get d1 "totalPassengers") = false -> d2 = d1) /\
    (truthy (dict_get d1 "totalPassengers") = true ->
     forall x, py_int (dict_get d1 "totalPassengers") = Raise x ->
     dict_get d2 "totalPassengers" = VNone).
Proof.
  assert (Hset : forall v f, f <> "totalPassengers" ->
            assoc_find f (dict_set "totalPassengers" v d1) = assoc_find f d1).
  { intros v f Hf. rewrite assoc_find_set.
    destruct (String.eqb f "totalPassengers") eqn:E; [|reflexivity].
    apply String.eqb_eq in E. contradiction. }
  destruct (truthy (dict_get d1 "totalPassengers")) eqn:Ht.
  - cbn [value_item value_set]. unfold dict_item, dict_get in *.
    destruct (assoc_find "totalPassengers" d1) as [t|]; [|discriminate].
    cbn [rbind]. destruct (py_int t) as [n|x] eqn:Hn; cbn [rbind try_except].
    + eexists. split; [reflexivity|]. split; [apply Hset|].
      split; [discriminate|]. intros _ x Hx. discriminate.
    + eexists. split; [reflexivity|]. split; [apply Hset|].
      split; [discriminate|]. intros _ x' _.
      rewrite assoc_find_set, String.eqb_refl. reflexivity.
  - exists d1. cbn [rbind]. split; [reflexivity|]. split; [auto|]. split; [auto|].
    discriminate.
Qed.

Lemma parse_with_g4f_cases (response : result value) :
  parse_with_g4f response = Ok VNone \/
  exists d d',
    response = Ok (VDict d) /\
    parse_with_g4f response = Ok (VDict d') /\
    passed_through d d'.
Proof.
  unfold parse_with_g4f, g4f_body.
  destruct response as [parsed|x]; cbn [rbind try_except]; [|left; reflexivity].
  destruct parsed as [| | | | |d| |]; try (left; reflexivity).
  destruct (upper_reference_dict d) as [[x Hx]|(d1 & H1 & Hother & Hsame)].
  - rewrite Hx. left. reflexivity.
  - rewrite H1. cbn [rbind value_get].
    destruct (g4f_count_dict d1) as (d2 & H2 & Hother2 & Hsame2 & _).
    rewrite H2. cbn [rbind try_except]. right. exists d, d2.
    split; [reflexivity|]. split; [reflexivity|]. repeat split.
    + intros f Hf1 Hf2. rewrite Hother2 by exact Hf2. apply Hother. exact Hf1.
    + intros Ht. rewrite (Hsame Ht) in *.
      rewrite Hother2 by discriminate. reflexivity.
    + intros Ht.
      assert (Hd1 : dict_get d1 "totalPassengers" = dict_get d "totalPassengers").
      { unfold dict_get. rewrite Hother by discriminate. reflexivity. }
      rewrite Hd1 in Hsame2. rewrite (Hsame2 Ht). apply Hother. discriminate.
Qed.

Lemma parse_with_huggingface_cases (response : http_outcome) :
  parse_with_huggingface response = Ok VNone \/
  exists d d',
    response = HttpStatus 200 (Ok (VDict d)) /\
    parse_with_huggingface response = Ok (VDict d') /\
    passed_through d d'.
Proof.
  unfold parse_with_huggingface.
  destruct response as [x|status_code answer]; cbn [try_except]; [left; reflexivity|].
  destruct (status_code =? 200) eqn:Hs; cbn [try_except]; [|left; reflexivity].
  apply Z.eqb_eq in Hs. subst status_code.
  unfold huggingface_body.
  destruct answer as [parsed|x]; cbn [rbind try_except]; [|left; reflexivity].
  destruct parsed as [| | | | |d| |]; try (left; reflexivity).
  destruct (upper_reference_dict d) as [[x Hx]|(d1 & H1 & Hother & Hsame)].
  - rewrite Hx. left. reflexivity.
  - rewrite H1. cbn [rbind value_get].
    assert (Hd1 : dict_get d1 "totalPassengers" = dict_get d "totalPassengers").
    { unfold dict_get. rewrite Hother by discriminate. reflexivity. }
    destruct (truthy (dict_get d1 "totalPassengers")) eqn:Ht.
    + cbn [value_item value_set].
      destruct (dict_item d1 "totalPassengers") as [t|x]; cbn [rbind try_except];
        [|left; reflexivity].
      destruct (py_int t) as [n|x]; cbn [rbind try_except]; [|left; reflexivity].
      right. exists d. eexists. split; [reflexivity|]. split; [reflexivity|].
      repeat split.
      * intros f Hf1 Hf2. rewrite assoc_find_set.
        destruct (String.eqb f "totalPassengers") eqn:E.
        -- apply String.eqb_eq in E. contradiction.
        -- apply Hother. exact Hf1.
      * intros Hr. rewrite assoc_find_set. cbn [String.eqb Ascii.eqb Bool.eqb].
        rewrite (Hsame Hr). reflexivity.
      * intros Hf. rewrite Hd1 in Ht. congruence.
    + cbn [rbind try_except]. right. exists d, d1.
      split; [reflexivity|]. split; [reflexivity|]. repeat split.
      * intros f Hf1 _. apply Hother. exact Hf1.
      * intros Hr. rewrite (Hsame Hr). reflexivity.
      * intros _. apply Hother. discriminate.
Qed.

Lemma parse_with_ai_returns (USE_G4F : bool) (g4f_response : result value)
    (hf_response : http_outcome) :
  exists parsed, parse_with_ai USE_G4F g4f_response hf_response = Ok parsed.
Proof.
  unfold parse_with_ai.
  assert (Hsecond : forall response, exists parsed,
    (let? parsed := parse_with_huggingface response in
     if truthy parsed then Ok parsed else Ok VNone) = Ok parsed).
  { intros response.
    destruct (parse_with_huggingface_cases response) as [H|(d & d' & _ & H & _)];
      rewrite H; cbn [rbind]; destruct (truthy _); eauto. }
  destruct USE_G4F; [|exact (Hsecond hf_response)].
  destruct (parse_with_g4f_cases g4f_response) as [H|(d & d' & _ & H & _)];
    rewrite H; cbn [rbind]; [exact (Hsecond _)|].
  destruct (truthy (VDict d')); [eauto|exact (Hsecond _)].
Qed.

Lemma absent_not_accepted (e : dict) (f : string) (v : value) :
  absent v = true -> accepts e f v = Ok false.
Proof.
  unfold accepts, absent. intros ->.
  destruct (str_in f metadata_fields); reflexivity.
Qed.

Lemma absent_false (v : value) : absent v = true -> truthy v = false.
Proof.
  unfold absent. destruct v as [|b|z|s|l|d|t|o]; try discriminate; [reflexivity|].
  destruct s; [reflexivity|discriminate].
Qed.

Lemma passed_through_absent (d d' : dict) (f : string) (v : value) :
  passed_through d d' -> assoc_find f d = Some v -> absent v = true ->
  assoc_find f d' = Some v.
Proof.
  intros (Hother & Href & Hcount) Hf Habs.
  assert (Hget : dict_get d f = v) by (unfold dict_get; rewrite Hf; reflexivity).
  apply absent_false in Habs. rewrite <- Hf.
  destruct (String.eqb f "booking_reference") eqn:E1.
  { apply String.eqb_eq in E1. subst f. apply Href. rewrite Hget. exact Habs. }
  destruct (String.eqb f "totalPassengers") eqn:E2.
  { apply String.eqb_eq in E2. subst f. apply Hcount. rewrite Hget. exact Habs. }
  apply String.eqb_neq in E1. apply String.eqb_neq in E2. apply Hother; assumption.
Qed.

(** C7, as the code has it.  The clean-up never raises: [parse_with_g4f],
    [parse_with_huggingface] and [parse_with_ai] always return.  A field
    that is [None] or the empty string in the decoded answer is passed on as
    it is: [None] stays [None] and an empty string stays an empty string.
    The merge passes over both: such a field of the candidate is not listed
    and the merged document keeps the stored entry.  The construction of a
    new record copies [name], [address], [phoneNumber], [tour], [tourDate],
    [tourTime] and [totalPassengers] as they are into the document that is
    stored. *)
Theorem normalization_total :
  (forall response, exists parsed, parse_with_g4f response = Ok parsed) /\
  (forall response, exists parsed, parse_with_huggingface response = Ok parsed) /\
  (forall USE_G4F g4f_response hf_response,
     exists parsed, parse_with_ai USE_G4F g4f_response hf_response = Ok parsed) /\
  (forall response d',
     parse_with_g4f response = Ok (VDict d') ->
     exists d, response = Ok (VDict d) /\
               forall f v, assoc_find f d = Some v -> absent v = true ->
                           assoc_find f d' = Some v) /\
  (forall response d',
     parse_with_huggingface response = Ok (VDict d') ->
     exists d, response = HttpStatus 200 (Ok (VDict d)) /\
               forall f v, assoc_find f d = Some v -> absent v = true ->
                           assoc_find f d' = Some v) /\
  (forall le ln g now h e n lm upd f,
     le <> ln -> h !! le = Some e -> h !! ln = Some n -> dict_wf n ->
     (smart_merge le ln g now h).1 = Ok (lm, upd) ->
     absent (dict_get n f) = true ->
     ~ In f upd /\
     (f <> "updatedAt" ->
      exists m, (smart_merge le ln g now h).2 !! lm = Some m /\
                assoc_find f m = assoc_find f e)) /\
  (forall clock is_amendment greeting_name p st,
     (process_parsed clock is_amendment greeting_name (VDict p) st).1 = NewBooking ->
     exists doc,
       collection (process_parsed clock is_amendment greeting_name (VDict p) st).2
         = (collection st ++ [doc])%list /\
       forall f, In f copied_fields -> dict_get doc f = dict_get p f).
Proof.
  split; [|split; [|split; [|split; [|split; [|split]]]]].
  - intros response.
    destruct (parse_with_g4f_cases response) as [H|(d & d' & _ & H & _)]; eauto.
  - intros response.
    destruct (parse_with_huggingface_cases response) as [H|(d & d' & _ & H & _)]; eauto.
  - exact parse_with_ai_returns.
  - intros response d' H.
    destruct (parse_with_g4f_cases response) as [H0|(d & d0 & Hr & H0 & Hp)];
      rewrite H0 in H; [discriminate|].
    injection H as ->. exists d. split; [exact Hr|].
    intros f v. apply (passed_through_absent d d' f v Hp).
  - intros response d' H.
    destruct (parse_with_huggingface_cases response) as [H0|(d & d0 & Hr & H0 & Hp)];
      rewrite H0 in H; [discriminate|].
    injection H as ->. exists d. split; [exact Hr|].
    intros f v. apply (passed_through_absent d d' f v Hp).
  - intros le ln g now h e n lm upd f Hne He Hn Hwf Hrun Habs.
    destruct (smart_merge le ln g now h) as [r h'] eqn:Hsm. cbn [fst snd] in *.
    subst r.
    destruct (smart_merge_returns le ln g now h h' e n lm upd Hne He Hn Hsm)
      as (mf & Hfold & _ & Hlm & _ & _).
    assert (Hout : ~ In f upd).
    { intros Hin.
      destruct (listed_field e n g upd mf f Hwf Hfold Hin) as (Hacc & _).
      rewrite (absent_not_accepted e f _ Habs) in Hacc. discriminate. }
    split; [exact Hout|].
    intros Hf. exists (dict_set "updatedAt" (VTime now) mf). split; [exact Hlm|].
    rewrite assoc_find_set.
    destruct (String.eqb f "updatedAt") eqn:E.
    + apply String.eqb_eq in E. contradiction.
    + apply (merge_fold_frame e _ _ _ _ _ f Hfold Hout).
  - intros clock is_amendment greeting_name p st Hnew.
    destruct (new_booking_created clock is_amendment greeting_name (VDict p) st Hnew)
      as (p' & Hp & Hcreate).
    injection Hp as <-.
    destruct (create_branch_new clock p st _ Hcreate) as (doc & Hdoc & Hcoll & _).
    eexists. split; [exact Hcoll|].
    intros f Hf. destruct (build_doc_fields p _ doc Hdoc) as (Hcopy & _).
    rewrite <- (Hcopy f Hf).
    cbn in Hf.
    destruct Hf as [<-|[<-|[<-|[<-|[<-|[<-|[<-|[]]]]]]]];
      rewrite !dict_get_set_ne by discriminate; reflexivity.
Qed.

Lemma empty_name_persisted :
  parse_with_g4f (Ok (VDict answer_gyg6))
  = Ok (VDict [ ("booking_reference", VStr "GYG6"); ("name", VStr "");
                ("phoneNumber", VStr "+3161"); ("totalPassengers", VInt 2) ]) /\
  (process_email Z.of_nat true "Booking details" false
     (Ok (VDict answer_gyg6)) (HttpFailed ConnectionError) empty_state).1
  = NewBooking /\
  map (fun doc => dict_get doc "name")
    (collection
       (process_email Z.of_nat true "Booking details" false
          (Ok (VDict answer_gyg6)) (HttpFailed ConnectionError) empty_state).2)
  = [VStr ""].
Proof. repeat split; vm_compute; reflexivity. Qed.

Lemma normalization_total_witness :
  (exists d, Ok (VDict answer_gyg6) = Ok (VDict d) /\
             forall f v, assoc_find f d = Some v -> absent v = true ->
                         assoc_find f [ ("booking_reference", VStr "GYG6");
                                        ("name", VStr "");
                                        ("phoneNumber", VStr "+3161");
                                        ("totalPassengers", VInt 2) ] = Some v) /\
  exists doc,
    collection
      (process_parsed Z.of_nat false VNone (VDict answer_gyg6) empty_state).2
      = (collection empty_state ++ [doc])%list /\
    forall f, In f copied_fields -> dict_get doc f = dict_get answer_gyg6 f.
Proof.
  destruct normalization_total as (_ & _ & _ & Hkeep & _ & _ & Hnew).
  split.
  - apply (Hkeep (Ok (VDict answer_gyg6))). vm_compute. reflexivity.
  - apply (Hnew Z.of_nat false VNone answer_gyg6 empty_state). vm_compute. reflexivity.
Defined.

(** ** Replaying a message *)

(** Which branch a candidate with a reference takes when the store has a
    record under it: the merge when the message is flagged as an amendment
    or the candidate lacks a name or a phone number, the insertion of a new
    document otherwise. *)
Lemma existing_record_branch (clock : nat -> Z) (is_amendment : bool)
    (greeting_name : value) (p existing : dict) (st : state) :
  truthy (dict_get p "is_cancellation") = false ->
  truthy (dict_get p "booking_reference") = true ->
  find_one (dict_get p "booking_reference") (collection st) = Some existing ->
  try_body clock is_amendment greeting_name (VDict p) st =
  if is_amendment || (is_none (dict_get p "name") || is_none (dict_get p "phoneNumber"))
  then merge_branch clock greeting_name (dict_get p "booking_reference") p existing st
  else create_branch clock p st.
Proof.
  intros Hc Hr Hf. unfold try_body.
  assert (Hp : truthy (VDict p) = true).
  { destruct p; [discriminate|reflexivity]. }
  rewrite Hp, Hc, Hr, Hf. cbn [negb].
  rewrite (found_is_truthy _ _ existing Hr Hf). reflexivity.
Qed.

(** C1 at a complete candidate.  The message of a new booking with a name
    and a phone number, which [detect_amendment] does not flag, processed
    twice: the second pass finds the stored record, does not merge, and
    inserts a second record under the same booking reference. *)
Theorem replay_inserts_again :
  first_pass.1 = NewBooking /\
  find_one (VStr "GYG1") (collection first_pass.2) <> None /\
  second_pass.1 = NewBooking /\
  map (fun doc => dict_get doc "booking_reference") (collection second_pass.2)
  = [VStr "GYG1"; VStr "GYG1"] /\
  saved second_pass.2 = 2%nat /\
  duplicates second_pass.2 = 0%nat.
Proof. repeat split; try (vm_compute; reflexivity). vm_compute. discriminate. Qed.

(** The same message when it is flagged as an amendment goes through the
    merge and changes nothing. *)
Example replay_with_amendment_flag :
  (process_email Z.of_nat true body_gyg1 true
     (Ok (VDict answer_gyg1)) (HttpFailed ConnectionError) first_pass.2).1
  = Duplicate.
Proof. vm_compute; reflexivity. Qed.

(** ** The greeting name *)

(** In a merge a name that equals the greeting name is set to [None] in the
    candidate and the merged document keeps the stored entry. *)
Lemma merge_drops_greeting (le ln : nat) (g : value) (now : Z) (h : heap)
    (e n : dict) (lm : nat) (upd : list string) :
  le <> ln -> h !! le = Some e -> h !! ln = Some n -> dict_wf n ->
  (smart_merge le ln g now h).1 = Ok (lm, upd) ->
  py_eq (dict_get n "name") g = true ->
  ~ In "name" upd /\
  (exists n', (smart_merge le ln g now h).2 !! ln = Some n' /\
              dict_get n' "name" = VNone) /\
  exists m, (smart_merge le ln g now h).2 !! lm = Some m /\
            assoc_find "name" m = assoc_find "name" e.
Proof.
  intros Hne He Hn Hwf H Hg.
  destruct (smart_merge le ln g now h) as [r h'] eqn:Hrun. cbn [fst snd] in *.
  subst r.
  destruct (smart_merge_returns le ln g now h h' e n lm upd Hne He Hn Hrun)
    as (mf & Hfold & _ & Hlm & _ & Hln).
  assert (Hout : ~ In "name" upd).
  { intros Hin.
    destruct (listed_field e n g upd mf "name" Hwf Hfold Hin) as (_ & Hg' & _).
    rewrite (Hg' eq_refl) in Hg. discriminate. }
  split; [exact Hout|]. split.
  - eexists. split; [exact Hln|]. unfold filter_greeting. rewrite Hg.
    apply dict_get_set_eq.
  - eexists. split; [exact Hlm|]. rewrite assoc_find_set.
    cbn [String.eqb Ascii.eqb Bool.eqb].
    apply (merge_fold_frame e _ _ _ _ _ "name" Hfold Hout).
Qed.

(** C2 at a new booking.  The greeting name is found, the candidate's name
    equals it, no record is stored under the reference: the new record is
    inserted with the greeting name as its [name]. *)
Theorem greeting_name_reaches_new_record :
  extract_greeting_name body_gyg2 = Ok (VStr "John") /\
  dict_get answer_gyg2 "name" = VStr "John" /\
  (process_email Z.of_nat true body_gyg2 false
     (Ok (VDict answer_gyg2)) (HttpFailed ConnectionError) empty_state).1
  = NewBooking /\
  map (fun doc => dict_get doc "name")
    (collection
       (process_email Z.of_nat true body_gyg2 false
          (Ok (VDict answer_gyg2)) (HttpFailed ConnectionError) empty_state).2)
  = [VStr "John"].
Proof. repeat split; vm_compute; reflexivity. Qed.

(** ** A count that is not a number *)

(** C3 at a count that [int] rejects.  [parse_with_g4f] sets the count to
    [None] and returns the other fields; [parse_with_huggingface] returns
    [None] for the whole answer, and with it as the only service the message
    ends as a failed extraction: nothing is stored. *)
Theorem malformed_count_huggingface :
  py_int (VStr "two") = Raise ValueError /\
  parse_with_g4f (Ok (VDict answer_gyg7))
  = Ok (VDict [ ("booking_reference", VStr "GYG7"); ("name", VStr "Lena Roth");
                ("phoneNumber", VStr "+4930"); ("totalPassengers", VNone) ]) /\
  parse_with_huggingface (HttpStatus 200 (Ok (VDict answer_gyg7))) = Ok VNone /\
  process_email Z.of_nat false "Booking details" false
    (Raise ConnectionError) (HttpStatus 200 (Ok (VDict answer_gyg7))) empty_state
  = (ParseFailed, mkState [] 0 0 0 0 0 0 0 1).
Proof. repeat split; vm_compute; reflexivity. Qed.

(** With [parse_with_huggingface], every count that [int] rejects costs
    the whole answer. *)
Lemma malformed_count_loses_answer (d : dict) (x : exn) :
  truthy (dict_get d "totalPassengers") = true ->
  py_int (dict_get d "totalPassengers") = Raise x ->
  parse_with_huggingface (HttpStatus 200 (Ok (VDict d))) = Ok VNone.
Proof.
  intros Ht Hx. unfold parse_with_huggingface. cbn [Z.eqb Pos.eqb].
  unfold huggingface_body. cbn [rbind].
  destruct (upper_reference_dict d) as [[y Hy]|(d1 & H1 & Hother & _)].
  - rewrite Hy. reflexivity.
  - rewrite H1. cbn [rbind value_get].
    assert (Hd1 : assoc_find "totalPassengers" d1 = assoc_find "totalPassengers" d).
    { apply Hother. discriminate. }
    unfold dict_get in *. cbn [value_item]. unfold dict_item. rewrite Hd1.
    rewrite Ht.
    destruct (assoc_find "totalPassengers" d) as [t|]; [|discriminate].
    cbn [rbind]. rewrite Hx. reflexivity.
Qed.

(** With [parse_with_g4f], a count that [int] rejects never costs the
    answer: the result is an object whose count is [None], as long as the
    booking reference is a string or false. *)
Lemma malformed_count_g4f (d : dict) (x : exn) :
  truthy (dict_get d "totalPassengers") = true ->
  py_int (dict_get d "totalPassengers") = Raise x ->
  (exists s, dict_get d "booking_reference" = VStr s) \/
  truthy (dict_get d "booking_reference") = false ->
  exists d',
    parse_with_g4f (Ok (VDict d)) = Ok (VDict d') /\
    dict_get d' "totalPassengers" = VNone /\
    forall f, f <> "booking_reference" -> f <> "totalPassengers" ->
              assoc_find f d' = assoc_find f d.
Proof.
  intros Ht Hx Href.
  assert (H1 : exists d1, upper_reference (VDict d) = Ok (VDict d1) /\
            forall f, f <> "booking_reference" -> assoc_find f d1 = assoc_find f d).
  { destruct (truthy (dict_get d "booking_reference")) eqn:Hr.
    - destruct Href as [[s Hs]|Hf]; [|discriminate].
      unfold upper_reference. cbn [value_get rbind]. rewrite Hr.
      cbn [value_item]. unfold dict_item. unfold dict_get in Hs.
      destruct (assoc_find "booking_reference" d) as [r|]; [|discriminate].
      subst r. cbn [rbind value_upper value_set]. eexists. split; [reflexivity|].
      intros f Hf. rewrite assoc_find_set.
      destruct (String.eqb f "booking_reference") eqn:E; [|reflexivity].
      apply String.eqb_eq in E. contradiction.
    - exists d. unfold upper_reference. cbn [value_get rbind]. rewrite Hr. auto. }
  destruct H1 as (d1 & H1 & Hother).
  assert (Hd1 : dict_get d1 "totalPassengers" = dict_get d "totalPassengers").
  { unfold dict_get. rewrite Hother by discriminate. reflexivity. }
  destruct (g4f_count_dict d1) as (d2 & H2 & Hother2 & _ & Hnone).
  exists d2. unfold parse_with_g4f, g4f_body. cbn [rbind]. rewrite H1.
  cbn [rbind value_get]. rewrite H2. cbn [try_except].
  split; [reflexivity|]. split.
  - rewrite Hd1 in Hnone. apply (Hnone Ht x Hx).
  - intros f Hf1 Hf2. rewrite Hother2 by exact Hf2. apply Hother. exact Hf1.
Qed.

(** ** The matcher and what a pattern matches *)

Lemma strip_prefix_app (t s s' : list ascii) :
  strip_prefix t s = Some s' <-> s = (t ++ s')%list.
Proof.
  revert s. induction t as [|a t IH]; intros s; cbn [strip_prefix app].
  - split; intros H; [inversion H; reflexivity|subst; reflexivity].
  - destruct s as [|b s]; [split; discriminate|].
    destruct (Ascii.eqb a b) eqn:E.
    + apply Ascii.eqb_eq in E. subst b. rewrite IH. split; intros H.
      * subst. reflexivity.
      * inversion H. reflexivity.
    + split; [discriminate|]. intros H. inversion H; subst.
      rewrite Ascii.eqb_refl in E. discriminate.
Qed.

Section StarLoop.

Context {R : Type} (p : ascii -> bool).

Lemma star_loop_sound (s : list ascii) (k : list ascii -> option R) (x : R) :
  star_loop p s k = Some x ->
  exists w s', s = (w ++ s')%list /\ forallb p w = true /\ k s' = Some x.
Proof.
  induction s as [|c s IH]; cbn [star_loop].
  - intros H. exists [], []. auto.
  - destruct (p c) eqn:Hc.
    + destruct (star_loop p s k) as [y|] eqn:Hs.
      * intros H. inversion H; subst y.
        destruct (IH eq_refl) as (w & s' & -> & Hw & Hk).
        exists (c :: w), s'. cbn [forallb app]. rewrite Hc, Hw. auto.
      * intros H. exists [], (c :: s). auto.
    + intros H. exists [], (c :: s). auto.
Qed.

Lemma star_loop_complete (s : list ascii) (k : list ascii -> option R) :
  star_loop p s k = None ->
  forall w s', s = (w ++ s')%list -> forallb p w = true -> k s' = None.
Proof.
  induction s as [|c s IH]; cbn [star_loop]; intros H w s' Hs Hw.
  - destruct w; [|discriminate]. cbn in Hs. subst s'. exact H.
  - destruct w as [|a w].
    + cbn in Hs. subst s'.
      destruct (p c); [|exact H].
      destruct (star_loop p s k); [discriminate|exact H].
    + cbn [app] in Hs. inversion Hs; subst a s. cbn [forallb] in Hw.
      apply andb_true_iff in Hw as [Hc Hw]. rewrite Hc in H.
      destruct (star_loop p (w ++ s') k) eqn:Hstar; [discriminate|].
      apply (IH eq_refl w s'); auto.
Qed.

End StarLoop.

Section Matcher.

Context {R : Type}.

(** What the matcher finds is a match. *)
Lemma rmatch_sound (r : regex) :
  forall (s : list ascii) (cap : option (list ascii))
         (k : list ascii -> option (list ascii) -> option R) (x : R),
    rmatch r s cap k = Some x ->
    exists s' cap', runs r s cap s' cap' /\ k s' cap' = Some x.
Proof.
  induction r as [t|p|p|r1 IH1 r2 IH2|r1 IH1 r2 IH2|r IH|r IH];
    intros s cap k x H; cbn [rmatch] in H.
  - destruct (strip_prefix (chars t) s) as [s'|] eqn:E; [|discriminate].
    apply strip_prefix_app in E. subst s.
    exists s', cap. split; [constructor|exact H].
  - destruct s as [|c s]; [discriminate|].
    destruct (p c) eqn:Hc; [|discriminate].
    exists s, cap. split; [constructor; exact Hc|exact H].
  - destruct s as [|c s]; [discriminate|].
    destruct (p c) eqn:Hc; [|discriminate].
    apply star_loop_sound in H. destruct H as (w & s' & -> & Hw & Hk).
    exists s', cap. split; [|exact Hk].
    apply (runs_plus p (c :: w) s' cap); [discriminate|].
    cbn [forallb]. rewrite Hc, Hw. reflexivity.
  - apply IH1 in H. destruct H as (s1 & cap1 & H1 & H).
    apply IH2 in H. destruct H as (s2 & cap2 & H2 & H).
    exists s2, cap2. split; [econstructor; eassumption|exact H].
  - destruct (rmatch r1 s cap k) as [y|] eqn:E.
    + inversion H; subst y. apply IH1 in E.
      destruct E as (s' & cap' & H1 & Hk).
      exists s', cap'. split; [apply runs_alt_l; exact H1|exact Hk].
    + apply IH2 in H. destruct H as (s' & cap' & H2 & Hk).
      exists s', cap'. split; [apply runs_alt_r; exact H2|exact Hk].
  - destruct (rmatch r s cap k) as [y|] eqn:E.
    + inversion H; subst y. apply IH in E.
      destruct E as (s' & cap' & H1 & Hk).
      exists s', cap'. split; [apply runs_opt_some; exact H1|exact Hk].
    + exists s, cap. split; [apply runs_opt_none|exact H].
  - apply IH in H. destruct H as (s' & cap' & H1 & Hk).
    exists s', (Some (firstn (List.length s - List.length s') s)).
    split; [apply (runs_grp r s cap s' cap'); exact H1|exact Hk].
Qed.

(** When the matcher gives up, no match lets the continuation succeed. *)
Lemma rmatch_complete (r : regex) (s : list ascii) (cap : option (list ascii))
    (s' : list ascii) (cap' : option (list ascii)) :
  runs r s cap s' cap' ->
  forall k : list ascii -> option (list ascii) -> option R,
    rmatch r s cap k = None -> k s' cap' = None.
Proof.
  induction 1 as [t s cap|p c s cap Hc|p w s cap Hw Hall
                 |r1 r2 s cap s1 cap1 s2 cap2 _ IH1 _ IH2
                 |r1 r2 s cap s' cap' _ IH|r1 r2 s cap s' cap' _ IH
                 |r s cap s' cap' _ IH|r s cap|r s cap s' cap' _ IH];
    intros k H; cbn [rmatch] in H.
  - assert (E : strip_prefix (chars t) (chars t ++ s) = Some s)
      by (apply strip_prefix_app; reflexivity).
    rewrite E in H. exact H.
  - rewrite Hc in H. exact H.
  - destruct w as [|c w]; [contradiction|].
    cbn [app forallb] in *. apply andb_true_iff in Hall as [Hc Hall].
    rewrite Hc in H.
    apply (star_loop_complete p _ _ H w s eq_refl Hall).
  - apply IH2. apply (IH1 _ H).
  - destruct (rmatch r1 s cap k) eqn:E; [discriminate|]. apply (IH _ E).
  - destruct (rmatch r1 s cap k) eqn:E; [discriminate|]. apply (IH _ H).
  - destruct (rmatch r s cap k) eqn:E; [discriminate|]. apply (IH _ E).
  - destruct (rmatch r s cap k) eqn:E; [discriminate|]. exact H.
  - apply (IH _ H).
Qed.

End Matcher.

Lemma re_search_sound (r : regex) (s : list ascii) (cap : option (list ascii)) :
  re_search r s = Some cap ->
  exists pre s1 s', s = (pre ++ s1)%list /\ runs r s1 None s' cap.
Proof.
  induction s as [|c s IH]; cbn [re_search].
  - destruct (rmatch r [] None _) as [cap0|] eqn:E; [|discriminate].
    intros H. inversion H; subst cap0. apply rmatch_sound in E.
    destruct E as (s' & cap' & Hrun & Hk). inversion Hk; subst cap'.
    exists [], [], s'. auto.
  - destruct (rmatch r (c :: s) None _) as [cap0|] eqn:E.
    + intros H. inversion H; subst cap0. apply rmatch_sound in E.
      destruct E as (s' & cap' & Hrun & Hk). inversion Hk; subst cap'.
      exists [], (c :: s), s'. auto.
    + intros H. destruct (IH H) as (pre & s1 & s' & -> & Hrun).
      exists (c :: pre), s1, s'. auto.
Qed.

Lemma re_search_complete (r : regex) (s : list ascii) :
  re_search r s = None ->
  forall pre s1 s' cap, s = (pre ++ s1)%list -> ~ runs r s1 None s' cap.
Proof.
  induction s as [|c s IH]; cbn [re_search]; intros H pre s1 s' cap Hs Hrun.
  - destruct (rmatch r [] None _) eqn:E; [discriminate|].
    destruct pre; [|discriminate]. cbn in Hs. subst s1.
    pose proof (rmatch_complete r _ _ _ _ Hrun _ E) as Hk. discriminate.
  - destruct (rmatch r (c :: s) None _) eqn:E; [discriminate|].
    destruct pre as [|a pre].
    + cbn in Hs. subst s1.
      pose proof (rmatch_complete r _ _ _ _ Hrun _ E) as Hk. discriminate.
    + cbn [app] in Hs. inversion Hs; subst a s.
      apply (IH H pre s1 s' cap eq_refl Hrun).
Qed.

(** ** The matches of the two patterns *)

(** Inversion of a match of a pattern whose head constructor is known. *)
Ltac invert_runs :=
  repeat match goal with
         | H : runs (Lit _) _ _ _ _ |- _ => inversion H; subst; clear H
         | H : runs (Cls _) _ _ _ _ |- _ => inversion H; subst; clear H
         | H : runs (Plus _) _ _ _ _ |- _ => inversion H; subst; clear H
         | H : runs (Cat _ _) _ _ _ _ |- _ => inversion H; subst; clear H
         | H : runs (Alt _ _) _ _ _ _ |- _ => inversion H; subst; clear H
         | H : runs (Opt _) _ _ _ _ |- _ => inversion H; subst; clear H
         | H : runs (Grp _) _ _ _ _ |- _ => inversion H; subst; clear H
         end.

Lemma runs_spaces (s : list ascii) (cap : option (list ascii)) (s' : list ascii)
    (cap' : option (list ascii)) :
  runs (Plus is_space) s cap s' cap' <->
  cap' = cap /\ exists ws, spaces ws /\ s = (ws ++ s')%list.
Proof.
  split.
  - intros H. invert_runs. split; [reflexivity|].
    eexists. unfold spaces. eauto.
  - intros (-> & ws & [Hne Hall] & ->). constructor; assumption.
Qed.

Lemma runs_cap_word (s : list ascii) (cap : option (list ascii)) (s' : list ascii)
    (cap' : option (list ascii)) :
  runs cap_word s cap s' cap' <->
  cap' = cap /\ exists w, capitalized w /\ s = (w ++ s')%list.
Proof.
  unfold cap_word. split.
  - intros H. invert_runs. split; [reflexivity|].
    eexists (_ :: _). split; [|reflexivity].
    eexists _, _. eauto.
  - intros (-> & w & (c & ls & -> & Hc & Hne & Hall) & ->).
    apply (runs_cat _ _ _ _ (ls ++ s') cap).
    + cbn [app]. constructor. exact Hc.
    + constructor; assumption.
Qed.

Lemma firstn_app_length (n s' : list ascii) :
  firstn (List.length (n ++ s') - List.length s') (n ++ s') = n.
Proof.
  rewrite length_app. replace (List.length n + List.length s' - List.length s')%nat
    with (List.length n) by lia.
  rewrite firstn_app, Nat.sub_diag, firstn_all. cbn [firstn]. apply app_nil_r.
Qed.

(** The optional second word. *)
Lemma runs_second_word (s : list ascii) (cap : option (list ascii)) (s' : list ascii)
    (cap' : option (list ascii)) :
  runs (Opt (Cat (Plus is_space) cap_word)) s cap s' cap' <->
  cap' = cap /\
  (s = s' \/ exists ws w2, spaces ws /\ capitalized w2 /\ s = (ws ++ w2 ++ s')%list).
Proof.
  split.
  - intros H. inversion H; subst; clear H.
    + match goal with H : runs (Cat _ _) _ _ _ _ |- _ =>
        inversion H; subst; clear H end.
      repeat match goal with
             | H : runs (Plus is_space) _ _ _ _ |- _ =>
                 apply runs_spaces in H; destruct H as (-> & ? & ? & ->)
             | H : runs cap_word _ _ _ _ |- _ =>
                 apply runs_cap_word in H; destruct H as (-> & ? & ? & ->)
             end.
      split; [reflexivity|]. right. eauto 6.
    + split; [reflexivity|]. left. reflexivity.
  - intros (-> & [->|(ws & w2 & Hws & Hw2 & ->)]).
    + apply runs_opt_none.
    + apply runs_opt_some. apply (runs_cat _ _ _ _ (w2 ++ s') cap).
      * apply runs_spaces. split; [reflexivity|]. exists ws. auto.
      * apply runs_cap_word. split; [reflexivity|]. exists w2. auto.
Qed.

Lemma runs_name_group (s : list ascii) (cap : option (list ascii)) (s' : list ascii)
    (cap' : option (list ascii)) :
  runs name_group s cap s' cap' <->
  exists n, name_shape n /\ s = (n ++ s')%list /\ cap' = Some n.
Proof.
  unfold name_group. split.
  - intros H. inversion H; subst; clear H.
    match goal with H : runs (Cat _ _) _ _ _ _ |- _ =>
      inversion H; subst; clear H end.
    match goal with H : runs cap_word _ _ _ _ |- _ =>
      apply runs_cap_word in H; destruct H as (-> & w1 & Hw1 & ->) end.
    match goal with H : runs (Opt _) _ _ _ _ |- _ =>
      apply runs_second_word in H;
      destruct H as (-> & [->|(ws & w2 & Hws & Hw2 & ->)]) end.
    + exists w1. split; [left; exact Hw1|]. split; [reflexivity|].
      f_equal. apply firstn_app_length.
    + exists (w1 ++ ws ++ w2)%list. split.
      * right. exists w1, ws, w2. auto.
      * split; [rewrite <- !app_assoc; reflexivity|].
        f_equal.
        replace (w1 ++ ws ++ w2 ++ s')%list with ((w1 ++ ws ++ w2) ++ s')%list
          by (rewrite <- !app_assoc; reflexivity).
        apply firstn_app_length.
  - intros (n & Hn & -> & ->).
    assert (Hinner : runs (Cat cap_word (Opt (Cat (Plus is_space) cap_word)))
                       (n ++ s') cap s' cap).
    { destruct Hn as [Hw|(w1 & ws & w2 & -> & Hw1 & Hws & Hw2)].
      - apply (runs_cat _ _ _ _ s' cap).
        + apply runs_cap_word. split; [reflexivity|]. exists n. auto.
        + apply runs_opt_none.
      - rewrite <- !app_assoc.
        apply (runs_cat _ _ _ _ (ws ++ w2 ++ s') cap).
        + apply runs_cap_word. split; [reflexivity|]. exists w1. auto.
        + apply runs_second_word. split; [reflexivity|]. right.
          exists ws, w2. auto. }
    pose proof (runs_grp _ _ _ _ _ Hinner) as H.
    rewrite firstn_app_length in H. exact H.
Qed.

Lemma runs_short_salutations (s : list ascii) (cap : option (list ascii))
    (s' : list ascii) (cap' : option (list ascii)) :
  runs short_salutations s cap s' cap' <->
  cap' = cap /\ exists sal, is_short_salutation sal /\ s = (sal ++ s')%list.
Proof.
  unfold short_salutations, is_short_salutation. split.
  - intros H. invert_runs; (split; [reflexivity|]);
      eexists; (split; [|reflexivity]); cbn; auto.
  - intros (-> & sal & Hin & ->). cbn in Hin.
    destruct Hin as [<-|[<-|[<-|[<-|[]]]]].
    + apply runs_alt_l. apply (runs_lit "Hi").
    + apply runs_alt_r, runs_alt_l. apply (runs_lit "Hello").
    + apply runs_alt_r, runs_alt_r, runs_alt_l. apply (runs_lit "Dear").
    + apply runs_alt_r, runs_alt_r, runs_alt_r. apply (runs_lit "Hey").
Qed.

Lemma runs_good_salutations (s : list ascii) (cap : option (list ascii))
    (s' : list ascii) (cap' : option (list ascii)) :
  runs good_salutations s cap s' cap' <->
  cap' = cap /\ exists sal, is_good_salutation sal /\ s = (sal ++ s')%list.
Proof.
  unfold good_salutations, is_good_salutation. split.
  - intros H. invert_runs; (split; [reflexivity|]);
      match goal with
      | |- exists sal, _ /\ (_ ++ ?w ++ chars ?part ++ _)%list = _ =>
          exists (chars "Good" ++ w ++ chars part)%list;
          split; [exists w, (chars part); unfold spaces; cbn [map In]; auto 10
                 |rewrite <- !app_assoc; reflexivity]
      end.
  - intros (-> & sal & (ws & part & -> & [Hne Hall] & Hin) & ->).
    rewrite <- !app_assoc.
    apply (runs_cat _ _ _ _ (ws ++ part ++ s') cap); [apply (runs_lit "Good")|].
    apply (runs_cat _ _ _ _ (part ++ s') cap); [constructor; assumption|].
    cbn in Hin. destruct Hin as [<-|[<-|[<-|[]]]].
    + apply runs_alt_l. apply (runs_lit "morning").
    + apply runs_alt_r, runs_alt_l. apply (runs_lit "afternoon").
    + apply runs_alt_r, runs_alt_r. apply (runs_lit "evening").
Qed.

(** A salutation pattern followed by [\s+] and the name group. *)
Lemma runs_greeting (head : regex) (P : list ascii -> Prop) :
  (forall s cap s' cap',
     runs head s cap s' cap' <->
     cap' = cap /\ exists sal, P sal /\ s = (sal ++ s')%list) ->
  forall s cap s' cap',
    runs (Cat head (Cat (Plus is_space) name_group)) s cap s' cap' <->
    exists sal ws n,
      P sal /\ spaces ws /\ name_shape n /\
      s = (sal ++ ws ++ n ++ s')%list /\ cap' = Some n.
Proof.
  intros Hhead s cap s' cap'. split.
  - intros H. inversion H; subst; clear H.
    match goal with H : runs head _ _ _ _ |- _ =>
      apply Hhead in H; destruct H as (-> & sal & Hsal & ->) end.
    match goal with H : runs (Cat _ _) _ _ _ _ |- _ =>
      inversion H; subst; clear H end.
    match goal with H : runs (Plus _) _ _ _ _ |- _ =>
      apply runs_spaces in H; destruct H as (-> & ws & Hws & ->) end.
    match goal with H : runs name_group _ _ _ _ |- _ =>
      apply runs_name_group in H; destruct H as (n & Hn & -> & ->) end.
    exists sal, ws, n. auto.
  - intros (sal & ws & n & Hsal & Hws & Hn & -> & ->).
    apply (runs_cat _ _ _ _ (ws ++ n ++ s') cap).
    + apply Hhead. split; [reflexivity|]. exists sal. auto.
    + apply (runs_cat _ _ _ _ (n ++ s') cap).
      * apply runs_spaces. split; [reflexivity|]. exists ws. auto.
      * apply runs_name_group. exists n. auto.
Qed.

Lemma greeting_patterns_eq : greeting_patterns = [first_pattern; second_pattern].
Proof. reflexivity. Qed.

(** A greeting is a match of one of the two patterns somewhere in the text. *)
Lemma greets_runs (s n : list ascii) :
  greets s n <->
  exists pre s1 s',
    s = (pre ++ s1)%list /\
    (runs first_pattern s1 None s' (Some n) \/
     runs second_pattern s1 None s' (Some n)).
Proof.
  unfold greets, salutation. split.
  - intros (pre & sal & ws & rest & -> & Hsal & Hws & Hn).
    exists pre, (sal ++ ws ++ n ++ rest)%list, rest. split; [reflexivity|].
    destruct Hsal as [Hs|Hg].
    + left. apply (runs_greeting _ _ runs_short_salutations).
      exists sal, ws, n. auto.
    + right. apply (runs_greeting _ _ runs_good_salutations).
      exists sal, ws, n. auto.
  - intros (pre & s1 & s' & -> & [H|H]).
    + apply (runs_greeting _ _ runs_short_salutations) in H.
      destruct H as (sal & ws & n' & Hsal & Hws & Hn & -> & E).
      inversion E; subst n'. exists pre, sal, ws, s'. auto.
    + apply (runs_greeting _ _ runs_good_salutations) in H.
      destruct H as (sal & ws & n' & Hsal & Hws & Hn & -> & E).
      inversion E; subst n'. exists pre, sal, ws, s'. auto.
Qed.

(** ** Letters are not white space *)

Ltac class_bounds :=
  repeat match goal with
         | H : (_ && _)%bool = true |- _ => apply andb_true_iff in H; destruct H
         | H : (_ <=? _)%nat = true |- _ => apply Nat.leb_le in H
         end.

Lemma space_bounds (c : ascii) :
  is_space c = true ->
  (9 <= code c <= 13 \/ 28 <= code c <= 32 \/ code c = 133 \/ code c = 160)%nat.
Proof.
  unfold is_space. cbv zeta. intros H.
  repeat (apply orb_true_iff in H; destruct H as [H|H]).
  - class_bounds. lia.
  - class_bounds. lia.
  - apply Nat.eqb_eq in H. lia.
  - apply Nat.eqb_eq in H. lia.
Qed.

Lemma upper_not_space (c : ascii) : is_upper c = true -> is_space c = false.
Proof.
  unfold is_upper. intros H. class_bounds.
  destruct (is_space c) eqn:E; [|reflexivity].
  apply space_bounds in E. lia.
Qed.

Lemma lower_not_space (c : ascii) : is_lower c = true -> is_space c = false.
Proof.
  unfold is_lower. intros H. class_bounds.
  destruct (is_space c) eqn:E; [|reflexivity].
  apply space_bounds in E. lia.
Qed.

Lemma strip_chars_id (l l0 l1 : list ascii) (c d : ascii) :
  l = c :: l0 -> l = (l1 ++ [d])%list ->
  is_space c = false -> is_space d = false ->
  strip_chars l = l.
Proof.
  intros Hhead Hlast Hc Hd. unfold strip_chars.
  assert (H1 : drop_space l = l).
  { rewrite Hhead. cbn [drop_space]. rewrite Hc. reflexivity. }
  rewrite H1. rewrite Hlast at 1. rewrite rev_app_distr. cbn [rev app drop_space].
  rewrite Hd. change (d :: rev l1) with ([d] ++ rev l1)%list.
  rewrite rev_app_distr, rev_involutive. cbn [rev app]. symmetry. exact Hlast.
Qed.

Lemma capitalized_ends (w : list ascii) :
  capitalized w ->
  exists c l0 l1 d, w = c :: l0 /\ w = (l1 ++ [d])%list /\
                    is_space c = false /\ is_space d = false.
Proof.
  intros (c & ls & -> & Hc & Hne & Hall).
  destruct (exists_last Hne) as (l1 & d & ->).
  exists c, (l1 ++ [d])%list, (c :: l1), d.
  split; [reflexivity|]. split; [reflexivity|].
  split; [apply upper_not_space; exact Hc|].
  apply lower_not_space. rewrite forallb_app in Hall.
  apply andb_true_iff in Hall as [_ Hd]. cbn in Hd.
  rewrite andb_true_r in Hd. exact Hd.
Qed.

(** [strip] has nothing to remove from a captured name. *)
Lemma name_shape_strip (n : list ascii) : name_shape n -> strip_chars n = n.
Proof.
  intros [Hw|(w1 & ws & w2 & -> & Hw1 & _ & Hw2)].
  - destruct (capitalized_ends n Hw) as (c & l0 & l1 & d & H1 & H2 & Hc & Hd).
    apply (strip_chars_id n l0 l1 c d); assumption.
  - destruct (capitalized_ends w1 Hw1) as (c & l0 & _ & _ & -> & _ & Hc & _).
    destruct (capitalized_ends w2 Hw2) as (_ & _ & l1 & d & _ & -> & _ & Hd).
    apply (strip_chars_id _ (l0 ++ ws ++ l1 ++ [d]) ((c :: l0) ++ ws ++ l1) c d);
      auto.
    rewrite <- !app_assoc. reflexivity.
Qed.

(** ** Which name is captured *)

Lemma rmatch_cat {R : Type} (r1 r2 : regex) (s : list ascii)
    (cap : option (list ascii)) (k : list ascii -> option (list ascii) -> option R) :
  rmatch (Cat r1 r2) s cap k = rmatch r1 s cap (fun s' cap' => rmatch r2 s' cap' k).
Proof. reflexivity. Qed.

Lemma rmatch_opt {R : Type} (r : regex) (s : list ascii)
    (cap : option (list ascii)) (k : list ascii -> option (list ascii) -> option R) :
  rmatch (Opt r) s cap k =
  match rmatch r s cap k with
  | Some x => Some x
  | None => k s cap
  end.
Proof. reflexivity. Qed.

Lemma rmatch_grp {R : Type} (r : regex) (s : list ascii)
    (cap : option (list ascii)) (k : list ascii -> option (list ascii) -> option R) :
  rmatch (Grp r) s cap k =
  rmatch r s cap
    (fun s' _ => k s' (Some (firstn (List.length s - List.length s') s))).
Proof. reflexivity. Qed.

(** A repetition tries its longest run first. *)
Lemma star_loop_first {R : Type} (p : ascii -> bool) (s : list ascii)
    (k : list ascii -> option R) (y : R) :
  k (drop_run p s) = Some y -> star_loop p s k = Some y.
Proof.
  induction s as [|c s IH]; cbn [star_loop drop_run]; [auto|].
  destruct (p c); [|auto].
  intros H. rewrite (IH H). reflexivity.
Qed.

Lemma space_not_upper (c : ascii) : is_space c = true -> is_upper c = false.
Proof.
  intros H. destruct (is_upper c) eqn:E; [|reflexivity].
  apply upper_not_space in E. congruence.
Qed.

Lemma space_not_lower (c : ascii) : is_space c = true -> is_lower c = false.
Proof.
  intros H. destruct (is_lower c) eqn:E; [|reflexivity].
  apply lower_not_space in E. congruence.
Qed.

(** With a continuation that accepts whatever is left, the capitalized
    word is read to the end of its small letters. *)
Lemma rmatch_cap_word {R : Type} (s : list ascii) (cap : option (list ascii))
    (k : list ascii -> option (list ascii) -> option R) :
  (forall r, k r cap <> None) ->
  rmatch cap_word s cap k =
  match word_end s with
  | Some r => k r cap
  | None => None
  end.
Proof.
  intros Hk. unfold cap_word, word_end. rewrite rmatch_cat.
  destruct s as [|c [|l s']]; cbn [rmatch].
  - reflexivity.
  - destruct (is_upper c); reflexivity.
  - destruct (is_upper c); cbn [andb]; [|reflexivity].
    destruct (is_lower l); [|reflexivity].
    destruct (k (drop_run is_lower s') cap) as [y|] eqn:E; [|elim (Hk _ E)].
    apply star_loop_first. exact E.
Qed.

(** White space before a capitalized word is read to its end: a shorter
    run leaves white space where the capital letter must stand. *)
Lemma star_loop_spaces {R : Type} (s : list ascii) (cap : option (list ascii))
    (k : list ascii -> option (list ascii) -> option R) :
  star_loop is_space s (fun s'' => rmatch cap_word s'' cap k)
  = rmatch cap_word (drop_run is_space s) cap k.
Proof.
  induction s as [|c s IH]; cbn [star_loop drop_run]; [reflexivity|].
  destruct (is_space c) eqn:Hc; [|reflexivity].
  rewrite IH. destruct (rmatch cap_word (drop_run is_space s) cap k); [reflexivity|].
  unfold cap_word. cbn [rmatch]. rewrite (space_not_upper c Hc). reflexivity.
Qed.

Lemma rmatch_second_word {R : Type} (r : list ascii) (cap : option (list ascii))
    (k : list ascii -> option (list ascii) -> option R) :
  (forall r', k r' cap <> None) ->
  rmatch (Cat (Plus is_space) cap_word) r cap k =
  match second_end r with
  | Some r2 => k r2 cap
  | None => None
  end.
Proof.
  intros Hk. rewrite rmatch_cat. unfold second_end.
  destruct r as [|c r']; cbn [rmatch]; [reflexivity|].
  destruct (is_space c); [|reflexivity].
  rewrite star_loop_spaces. apply rmatch_cap_word. exact Hk.
Qed.

(** The group of the name, matched with nothing required after it. *)
Lemma rmatch_name_group (s : list ascii) (cap : option (list ascii)) :
  rmatch name_group s cap (fun _ c => Some c)
  = match name_end s with
    | Some r => Some (Some (firstn (List.length s - List.length r) s))
    | None => None
    end.
Proof.
  unfold name_group, name_end. rewrite rmatch_grp, rmatch_cat.
  rewrite rmatch_cap_word.
  - destruct (word_end s) as [r1|]; [|reflexivity].
    rewrite rmatch_opt, rmatch_second_word by discriminate.
    destruct (second_end r1); reflexivity.
  - intros r. rewrite rmatch_opt, rmatch_second_word by discriminate.
    destruct (second_end r); discriminate.
Qed.

(** *** The longest name *)

Lemma drop_run_app (p : ascii -> bool) (w x : list ascii) :
  forallb p w = true -> drop_run p (w ++ x) = drop_run p x.
Proof.
  induction w as [|c w IH]; intros H; [reflexivity|].
  cbn [forallb] in H. apply andb_true_iff in H. destruct H as [Hc Hw].
  cbn [app drop_run]. rewrite Hc. exact (IH Hw).
Qed.

Lemma drop_run_length (p : ascii -> bool) (x : list ascii) :
  (List.length (drop_run p x) <= List.length x)%nat.
Proof.
  induction x as [|c x IH]; cbn [drop_run]; [lia|].
  destruct (p c); cbn [List.length]; lia.
Qed.

Lemma drop_run_stop (p : ascii -> bool) (x : list ascii) :
  (forall c t, x = c :: t -> p c = false) -> drop_run p x = x.
Proof.
  destruct x as [|c t]; [reflexivity|].
  intros H. cbn [drop_run]. rewrite (H c t eq_refl). reflexivity.
Qed.

Lemma word_end_capitalized (w rest : list ascii) :
  capitalized w -> word_end (w ++ rest) = Some (drop_run is_lower rest).
Proof.
  intros (c & ls & -> & Hc & Hne & Hall).
  destruct ls as [|l ls]; [congruence|].
  cbn [forallb] in Hall. apply andb_true_iff in Hall. destruct Hall as [Hl Hls].
  cbn [app word_end]. rewrite Hc, Hl. cbn [andb].
  rewrite (drop_run_app _ _ _ Hls). reflexivity.
Qed.

Lemma word_end_shorter (s r : list ascii) :
  word_end s = Some r -> (List.length r <= List.length s)%nat.
Proof.
  unfold word_end. destruct s as [|c [|l s']]; try discriminate.
  destruct (is_upper c && is_lower l); [|discriminate].
  intros H. injection H as <-.
  pose proof (drop_run_length is_lower s'). cbn [List.length]. lia.
Qed.

Lemma second_end_shorter (s r : list ascii) :
  second_end s = Some r -> (List.length r <= List.length s)%nat.
Proof.
  unfold second_end. destruct s as [|c s']; [discriminate|].
  destruct (is_space c); [|discriminate].
  intros H. apply word_end_shorter in H.
  pose proof (drop_run_length is_space s'). cbn [List.length]. lia.
Qed.

Lemma capitalized_head (w : list ascii) :
  capitalized w -> exists c t, w = c :: t /\ is_upper c = true.
Proof. intros (c & ls & -> & Hc & _). eauto. Qed.

Lemma name_shape_head (n : list ascii) :
  name_shape n -> exists c t, n = c :: t /\ is_upper c = true.
Proof.
  intros [Hw|(w1 & ws & w2 & -> & Hw1 & _)].
  - apply capitalized_head. exact Hw.
  - destruct (capitalized_head w1 Hw1) as (c & t & -> & Hc).
    exists c, (t ++ ws ++ w2)%list. auto.
Qed.

(** No name at the head of [s] reaches further than [name_end]. *)
Lemma name_end_longest (s r : list ascii) :
  name_end s = Some r ->
  forall n' rest', name_shape n' -> s = (n' ++ rest')%list ->
                   (List.length r <= List.length rest')%nat.
Proof.
  unfold name_end. intros H n' rest' Hn ->.
  destruct Hn as [Hw|(w1 & ws & w2 & -> & Hw1 & [Hne Hws] & Hw2)].
  - rewrite (word_end_capitalized n' rest' Hw) in H.
    pose proof (drop_run_length is_lower rest') as Hlen.
    destruct (second_end (drop_run is_lower rest')) as [r2|] eqn:E2.
    + injection H as <-. apply second_end_shorter in E2. lia.
    + injection H as <-. exact Hlen.
  - rewrite <- !app_assoc in H.
    rewrite (word_end_capitalized w1 _ Hw1) in H.
    destruct ws as [|sp ws]; [congruence|].
    cbn [forallb] in Hws. apply andb_true_iff in Hws. destruct Hws as [Hsp Hws].
    rewrite drop_run_stop in H.
    2:{ intros c t E. cbn [app] in E. injection E as <- _.
        apply space_not_lower. exact Hsp. }
    cbn [app second_end] in H. rewrite Hsp in H.
    rewrite (drop_run_app _ _ _ Hws) in H.
    rewrite drop_run_stop in H.
    2:{ intros c t E. destruct (capitalized_head w2 Hw2) as (c2 & t2 & -> & Hc2).
        cbn [app] in E. injection E as <- _. apply upper_not_space. exact Hc2. }
    rewrite (word_end_capitalized w2 rest' Hw2) in H.
    injection H as <-. apply drop_run_length.
Qed.

(** *** One reading of the salutation and of the white space *)

Lemma run_unique (p : ascii -> bool) (w : list ascii) :
  forall (w' : list ascii) (c : ascii) (x : list ascii) (c' : ascii) (x' : list ascii),
    forallb p w = true -> forallb p w' = true -> p c = false -> p c' = false ->
    (w ++ c :: x)%list = (w' ++ c' :: x')%list -> w = w'.
Proof.
  induction w as [|a w IH]; intros w' c x c' x' Hw Hw' Hc Hc' E.
  - destruct w' as [|a' w']; [reflexivity|].
    cbn [app] in E. injection E as -> _.
    cbn [forallb] in Hw'. apply andb_true_iff in Hw'. destruct Hw' as [Ha _].
    congruence.
  - cbn [forallb] in Hw. apply andb_true_iff in Hw. destruct Hw as [Ha Hw].
    destruct w' as [|a' w'].
    + cbn [app] in E. injection E as -> _. congruence.
    + cbn [app] in E. injection E as -> E.
      cbn [forallb] in Hw'. apply andb_true_iff in Hw'. destruct Hw' as [_ Hw'].
      f_equal. exact (IH w' c x c' x' Hw Hw' Hc Hc' E).
Qed.

Lemma short_one_reading : one_reading is_short_salutation.
Proof.
  intros sal sal' x x' H H' E. unfold is_short_salutation in H, H'.
  cbn [map In] in H, H'.
  destruct H as [<-|[<-|[<-|[<-|[]]]]]; destruct H' as [<-|[<-|[<-|[<-|[]]]]];
    try reflexivity; cbn in E; discriminate E.
Qed.

Lemma good_one_reading : one_reading is_good_salutation.
Proof.
  intros sal sal' x x' (ws & part & -> & [_ Hws] & Hpart)
         (ws' & part' & -> & [_ Hws'] & Hpart') E.
  rewrite <- !app_assoc in E. apply app_inv_head in E.
  cbn [map In] in Hpart, Hpart'.
  assert (Hrun : ws = ws').
  { destruct Hpart as [<-|[<-|[<-|[]]]]; destruct Hpart' as [<-|[<-|[<-|[]]]];
      cbn [chars list_ascii_of_string app] in E;
      refine (run_unique is_space ws ws' _ _ _ _ Hws Hws' _ _ E); reflexivity. }
  subst ws'. apply app_inv_head in E. f_equal. f_equal.
  destruct Hpart as [<-|[<-|[<-|[]]]]; destruct Hpart' as [<-|[<-|[<-|[]]]];
    try reflexivity; cbn in E; discriminate E.
Qed.

(** Two greetings of one kind at one place have their names at one place. *)
Lemma name_start_unique (P : list ascii -> Prop) (sal ws n rest sal' ws' n' rest' : list ascii) :
  one_reading P -> P sal -> P sal' -> spaces ws -> spaces ws' ->
  name_shape n -> name_shape n' ->
  (sal ++ ws ++ n ++ rest)%list = (sal' ++ ws' ++ n' ++ rest')%list ->
  (n ++ rest)%list = (n' ++ rest')%list.
Proof.
  intros Hone Hsal Hsal' [_ Hws] [_ Hws'] Hn Hn' E.
  pose proof (Hone _ _ _ _ Hsal Hsal' E) as <-.
  apply app_inv_head in E.
  destruct (name_shape_head n Hn) as (c & t & -> & Hc).
  destruct (name_shape_head n' Hn') as (c' & t' & -> & Hc').
  cbn [app] in *.
  pose proof (run_unique is_space ws ws' _ _ _ _ Hws Hws'
                (upper_not_space c Hc) (upper_not_space c' Hc') E) as <-.
  apply app_inv_head in E. exact E.
Qed.

(** *** The first match *)

Lemma re_search_leftmost (r : regex) (s : list ascii) (cap : option (list ascii)) :
  re_search r s = Some cap ->
  exists pre s1,
    s = (pre ++ s1)%list /\
    rmatch r s1 None (fun _ c => Some c) = Some cap /\
    forall pre' s1',
      s = (pre' ++ s1')%list -> (List.length pre' < List.length pre)%nat ->
      rmatch r s1' None (fun _ c => Some c) = None.
Proof.
  induction s as [|a s IH]; cbn [re_search].
  - destruct (rmatch r [] None _) as [cap0|] eqn:E; [|discriminate].
    intros H. injection H as ->. exists [], []. split; [reflexivity|].
    split; [exact E|]. intros pre' s1' _ Hlen. cbn in Hlen. lia.
  - destruct (rmatch r (a :: s) None _) as [cap0|] eqn:E.
    + intros H. injection H as ->. exists [], (a :: s). split; [reflexivity|].
      split; [exact E|]. intros pre' s1' _ Hlen. cbn in Hlen. lia.
    + intros H. destruct (IH H) as (pre & s1 & -> & Hm & Hleft).
      exists (a :: pre), s1. split; [reflexivity|]. split; [exact Hm|].
      intros pre' s1' Hs Hlen. destruct pre' as [|a' pre'].
      * cbn [app] in Hs. subst s1'. exact E.
      * cbn [app] in Hs. injection Hs as <- Hs.
        apply (Hleft pre' s1' Hs). cbn [List.length] in Hlen. lia.
Qed.

Lemma greets_here_runs (head : regex) (P : list ascii -> Prop) :
  (forall s cap s' cap',
     runs head s cap s' cap' <->
     cap' = cap /\ exists sal, P sal /\ s = (sal ++ s')%list) ->
  forall s n,
    greets_here P s n <->
    exists s', runs (Cat head (Cat (Plus is_space) name_group)) s None s' (Some n).
Proof.
  intros Hhead s n. split.
  - intros (sal & ws & rest & -> & Hsal & Hws & Hn). exists rest.
    apply (runs_greeting head P Hhead). exists sal, ws, n. auto.
  - intros (s' & H). apply (runs_greeting head P Hhead) in H.
    destruct H as (sal & ws & n' & Hsal & Hws & Hn & -> & E).
    injection E as <-. exists sal, ws, s'. auto.
Qed.

(** The search for a greeting pattern captures the first greeting and its
    longest name. *)
Lemma search_captured (head : regex) (P : list ascii -> Prop) (s : list ascii) :
  (forall s cap s' cap',
     runs head s cap s' cap' <->
     cap' = cap /\ exists sal, P sal /\ s = (sal ++ s')%list) ->
  one_reading P ->
  match re_search (Cat head (Cat (Plus is_space) name_group)) s with
  | Some (Some g) => name_shape g /\ captured P s g
  | Some None => False
  | None => no_greeting P s
  end.
Proof.
  intros Hhead Hone.
  destruct (re_search _ s) as [cap|] eqn:E.
  - apply re_search_leftmost in E. destruct E as (pre & s1 & -> & Hm & Hleft).
    rewrite rmatch_cat in Hm.
    apply rmatch_sound in Hm. destruct Hm as (s2 & cap2 & Hrun1 & Hm).
    apply Hhead in Hrun1. destruct Hrun1 as (-> & sal & Hsal & ->).
    rewrite rmatch_cat in Hm.
    apply rmatch_sound in Hm. destruct Hm as (s3 & cap3 & Hrun2 & Hm).
    apply runs_spaces in Hrun2. destruct Hrun2 as (-> & ws & Hws & ->).
    pose proof Hm as Hm'. apply rmatch_sound in Hm'.
    destruct Hm' as (s4 & cap4 & Hrun3 & Hk). injection Hk as <-.
    apply runs_name_group in Hrun3. destruct Hrun3 as (n & Hn & -> & ->).
    rewrite rmatch_name_group in Hm.
    destruct (name_end (n ++ s4)) as [r|] eqn:En; [|discriminate].
    injection Hm as Hfirst.
    assert (Hlen : List.length n = (List.length (n ++ s4) - List.length r)%nat).
    { rewrite <- Hfirst at 1. rewrite length_firstn. lia. }
    split; [exact Hn|].
    exists pre, (sal ++ ws ++ n ++ s4)%list. split; [reflexivity|]. split.
    { exists sal, ws, s4. auto. }
    split.
    + intros pre' s1' n' Hs Hg.
      destruct (Nat.lt_ge_cases (List.length pre') (List.length pre)) as [Hlt|Hge];
        [|exact Hge].
      exfalso. specialize (Hleft pre' s1' Hs Hlt).
      apply (greets_here_runs head P Hhead) in Hg. destruct Hg as (s' & Hrun).
      pose proof (rmatch_complete _ _ _ _ _ Hrun _ Hleft) as Hk. discriminate.
    + intros n' (sal' & ws' & rest' & Hs & Hsal' & Hws' & Hn').
      pose proof (name_start_unique P sal ws n s4 sal' ws' n' rest'
                    Hone Hsal Hsal' Hws Hws' Hn Hn' Hs) as Hsame.
      pose proof (name_end_longest _ r En n' rest' Hn' Hsame) as Hr.
      apply (f_equal (@List.length ascii)) in Hsame.
      rewrite !length_app in Hsame. rewrite length_app in Hlen. lia.
  - intros pre s1 n Hs Hg.
    apply (greets_here_runs head P Hhead) in Hg. destruct Hg as (s' & Hrun).
    apply (re_search_complete _ _ E pre s1 s' (Some n) Hs Hrun).
Qed.

Lemma captured_greets_here (P : list ascii -> Prop) (s n : list ascii) :
  captured P s n -> exists pre s1, s = (pre ++ s1)%list /\ greets_here P s1 n.
Proof. intros (pre & s1 & Hs & Hg & _). eauto. Qed.

(** Leftmost and longest: there is one such name. *)
Lemma captured_unique (P : list ascii -> Prop) (s n n' : list ascii) :
  one_reading P -> captured P s n -> captured P s n' -> n = n'.
Proof.
  intros Hone (pre & s1 & Hs & Hg & Hleft & Hlong)
              (pre' & s1' & Hs' & Hg' & Hleft' & Hlong').
  pose proof (Hleft pre' s1' n' Hs' Hg') as H1.
  pose proof (Hleft' pre s1 n Hs Hg) as H2.
  assert (Hpre : List.length pre = List.length pre') by lia.
  rewrite Hs in Hs'. destruct (app_inj_1 _ _ _ _ Hpre Hs') as [<- <-].
  pose proof (Hlong n' Hg') as H3. pose proof (Hlong' n Hg) as H4.
  destruct Hg as (sal & ws & rest & E & Hsal & Hws & Hn).
  destruct Hg' as (sal' & ws' & rest' & E' & Hsal' & Hws' & Hn').
  rewrite E in E'.
  pose proof (name_start_unique P sal ws n rest sal' ws' n' rest'
                Hone Hsal Hsal' Hws Hws' Hn Hn' E') as Hsame.
  assert (Hnn : List.length n = List.length n') by lia.
  destruct (app_inj_1 _ _ _ _ Hnn Hsame) as [Heq _]. exact Heq.
Qed.

Lemma captured_name_unique (s n n' : list ascii) :
  captured_name s n -> captured_name s n' -> n = n'.
Proof.
  intros [H|[Hno H]] [H'|[Hno' H']].
  - exact (captured_unique _ s n n' short_one_reading H H').
  - destruct (captured_greets_here _ _ _ H) as (pre & s1 & Hs & Hg).
    elim (Hno' pre s1 n Hs Hg).
  - destruct (captured_greets_here _ _ _ H') as (pre & s1 & Hs & Hg).
    elim (Hno pre s1 n' Hs Hg).
  - exact (captured_unique _ s n n' good_one_reading H H').
Qed.

Lemma greets_kinds (s n : list ascii) :
  greets s n <->
  exists pre s1,
    s = (pre ++ s1)%list /\
    (greets_here is_short_salutation s1 n \/ greets_here is_good_salutation s1 n).
Proof.
  unfold greets, salutation, greets_here. split.
  - intros (pre & sal & ws & rest & -> & [Hs|Hg] & Hws & Hn);
      exists pre, (sal ++ ws ++ n ++ rest)%list; (split; [reflexivity|]).
    + left. exists sal, ws, rest. auto.
    + right. exists sal, ws, rest. auto.
  - intros (pre & s1 & -> & [H|H]);
      destruct H as (sal & ws & rest & -> & Hsal & Hws & Hn);
      exists pre, sal, ws, rest; auto.
Qed.

Lemma captured_name_greets (s n : list ascii) : captured_name s n -> greets s n.
Proof.
  intros [H|[_ H]]; apply captured_greets_here in H;
    destruct H as (pre & s1 & Hs & Hg); apply greets_kinds; exists pre, s1; auto.
Qed.

(** The loop over the two patterns. *)
Lemma greeting_loop_captured (s : list ascii) :
  (exists n, greeting_loop greeting_patterns s = Ok (VStr (text n)) /\
             captured_name s n) \/
  (greeting_loop greeting_patterns s = Ok VNone /\
   no_greeting is_short_salutation s /\ no_greeting is_good_salutation s).
Proof.
  rewrite greeting_patterns_eq. cbn [greeting_loop].
  pose proof (search_captured short_salutations _ s runs_short_salutations
                short_one_reading) as H1.
  fold first_pattern in H1.
  destruct (re_search first_pattern s) as [[g|]|]; [| destruct H1 |].
  { destruct H1 as (Hn & Hc). left. exists g.
    rewrite (name_shape_strip g Hn). split; [reflexivity|]. left. exact Hc. }
  pose proof (search_captured good_salutations _ s runs_good_salutations
                good_one_reading) as H2.
  fold second_pattern in H2.
  destruct (re_search second_pattern s) as [[g|]|]; [| destruct H2 |].
  { destruct H2 as (Hn & Hc). left. exists g.
    rewrite (name_shape_strip g Hn). split; [reflexivity|]. right. auto. }
  right. auto.
Qed.

Lemma text_inj (a b : list ascii) : text a = text b -> a = b.
Proof.
  intros H. apply (f_equal chars) in H. unfold chars, text in H.
  rewrite !list_ascii_of_string_of_list_ascii in H. exact H.
Qed.

(** C9. The greeting name depends on the first 500 characters of the body
    only: two bodies with the same first 500 characters give the same
    result.  The result is the name captured within these characters: the
    first pattern (Hi, Hello, Dear, Hey) is searched first and the second
    (Good morning, Good afternoon, Good evening) only when the first has no
    match; the match is the one that starts first, and the name, one
    capitalized word or two, is the longest that can be read after the
    salutation and the white space.  The result is [None] exactly when the
    500 characters hold no salutation followed by such a name. *)
Theorem greeting_name_extraction :
  (forall body1 body2,
     firstn 500 (chars body1) = firstn 500 (chars body2) ->
     extract_greeting_name body1 = extract_greeting_name body2) /\
  (forall body n,
     extract_greeting_name body = Ok (VStr (text n)) <->
     captured_name (firstn 500 (chars body)) n) /\
  (forall body,
     extract_greeting_name body = Ok VNone <->
     forall n, ~ greets (firstn 500 (chars body)) n) /\
  (forall body,
     extract_greeting_name body = Ok VNone \/
     exists n, extract_greeting_name body = Ok (VStr (text n)) /\
               greets (firstn 500 (chars body)) n).
Proof.
  split; [|split; [|split]].
  - intros body1 body2 H. unfold extract_greeting_name. rewrite H. reflexivity.
  - intros body n. unfold extract_greeting_name.
    destruct (greeting_loop_captured (firstn 500 (chars body)))
      as [(n0 & Hrun & Hcap)|(Hrun & Hno1 & Hno2)]; rewrite Hrun; split.
    + intros H. injection H as H. apply text_inj in H. subst n0. exact Hcap.
    + intros H. rewrite (captured_name_unique _ n n0 H Hcap). reflexivity.
    + discriminate.
    + intros [H|[_ H]]; apply captured_greets_here in H;
        destruct H as (pre & s1 & Hs & Hg); exfalso.
      * exact (Hno1 pre s1 n Hs Hg).
      * exact (Hno2 pre s1 n Hs Hg).
  - intros body. unfold extract_greeting_name.
    destruct (greeting_loop_captured (firstn 500 (chars body)))
      as [(n0 & Hrun & Hcap)|(Hrun & Hno1 & Hno2)]; rewrite Hrun; split.
    + discriminate.
    + intros H. elim (H n0). apply captured_name_greets. exact Hcap.
    + intros _ n Hg. apply greets_kinds in Hg.
      destruct Hg as (pre & s1 & Hs & [Hg|Hg]).
      * exact (Hno1 pre s1 n Hs Hg).
      * exact (Hno2 pre s1 n Hs Hg).
    + reflexivity.
  - intros body. unfold extract_greeting_name.
    destruct (greeting_loop_captured (firstn 500 (chars body)))
      as [(n0 & Hrun & Hcap)|(Hrun & _)]; rewrite Hrun.
    + right. exists n0. split; [reflexivity|].
      apply captured_name_greets. exact Hcap.
    + left. reflexivity.
Qed.

Lemma greeting_name_extraction_witness :
  firstn 500 (chars (long_body " Dear Ann")) = firstn 500 (chars (long_body " Hello Bob")) /\
  extract_greeting_name (long_body " Dear Ann") = extract_greeting_name (long_body " Hello Bob") /\
  captured_name (firstn 500 (chars body_john_smith)) (chars "John Smith").
Proof.
  assert (H : firstn 500 (chars (long_body " Dear Ann"))
              = firstn 500 (chars (long_body " Hello Bob")))
    by (vm_compute; reflexivity).
  split; [exact H|]. split.
  - apply (proj1 greeting_name_extraction (long_body " Dear Ann") (long_body " Hello Bob")).
    exact H.
  - apply (proj1 (proj2 greeting_name_extraction) body_john_smith (chars "John Smith")).
    vm_compute. reflexivity.
Defined.

(** * Further properties *)

(** ** The change-set of a merge *)

Lemma accepts_takes (e : dict) (f : string) (v : value) :
  str_in f metadata_fields = false ->
  absent v = false ->
  py_eq v (dict_get e f) = false ->
  (str_in f protected_fields = true -> truthy v = true) ->
  (f = "name" -> exists s, v = VStr s /\ (2 <= List.length (py_split s))%nat) ->
  accepts e f v = Ok true.
Proof.
  intros Hm Habs Hd Ht Hn. unfold accepts. unfold absent in Habs.
  rewrite Hm, Habs, Hd. cbn [negb andb].
  destruct (str_in f protected_fields) eqn:Hp; [|reflexivity].
  rewrite (Ht eq_refl). cbn [andb]. unfold single_word_name.
  destruct (String.eqb f "name") eqn:E; [|reflexivity].
  apply String.eqb_eq in E. destruct (Hn E) as (s & -> & Hlen).
  cbn [value_split rbind].
  destruct (List.length (py_split s) <? 2)%nat eqn:L; [|reflexivity].
  apply Nat.ltb_lt in L. lia.
Qed.

Lemma present_In (n : dict) (f : string) :
  absent (dict_get n f) = false -> In (f, dict_get n f) n.
Proof.
  unfold dict_get. induction n as [|[k v] n IH]; cbn [assoc_find].
  - discriminate.
  - destruct (String.eqb f k) eqn:E.
    + apply String.eqb_eq in E. subst k. intros _. left. reflexivity.
    + intros H. right. apply IH. exact H.
Qed.

Lemma dict_set_keeps (k : string) (v : value) (d : dict) (k' : string) (v' : value) :
  k' <> k -> In (k', v') d -> In (k', v') (dict_set k v d).
Proof.
  intros Hne. induction d as [|[k0 v0] d IH]; cbn [dict_set]; [intros []|].
  intros [H|H].
  - inversion H; subst k0 v0.
    destruct (String.eqb k k') eqn:E.
    + apply String.eqb_eq in E. congruence.
    + left. reflexivity.
  - destruct (String.eqb k k0); right; [exact H|apply IH; exact H].
Qed.

(** X1. The list of updated fields of a merge that returned holds exactly
    the fields whose candidate value the merge takes, and for each of them
    the merged document has the candidate's value. *)
Theorem merge_change_set (le ln : nat) (g : value) (now : Z) (h : heap)
    (e n : dict) (lm : nat) (upd : list string) :
  le <> ln -> h !! le = Some e -> h !! ln = Some n -> dict_wf n ->
  (smart_merge le ln g now h).1 = Ok (lm, upd) ->
  forall f,
    (In f upd <-> takes e n g f) /\
    (In f upd ->
     exists m, (smart_merge le ln g now h).2 !! lm = Some m /\
               assoc_find f m = Some (dict_get n f)).
Proof.
  intros Hne He Hn Hwf H f.
  destruct (smart_merge le ln g now h) as [r h'] eqn:Hrun. cbn [fst snd] in *.
  subst r.
  destruct (smart_merge_returns le ln g now h h' e n lm upd Hne He Hn Hrun)
    as (mf & Hfold & _ & Hlm & _ & _).
  split; [split|].
  - intros Hin.
    destruct (listed_field e n g upd mf f Hwf Hfold Hin) as (Ha & Hg & _).
    apply accepts_true in Ha. destruct Ha as (Hm & Habs & Hd & Ht & Hs).
    unfold takes. split; [exact Hm|]. split; [exact Habs|]. split; [exact Hd|].
    split; [exact Ht|]. intros ->.
    split; [apply Hg; reflexivity|apply Hs; reflexivity].
  - intros (Hm & Habs & Hd & Ht & Hname).
    apply (merge_fold_listed e _ _ _ _ _ Hfold). right.
    exists (dict_get n f). split.
    + pose proof (present_In n f Habs) as Hin. unfold filter_greeting.
      destruct (py_eq (dict_get n "name") g) eqn:Hg; [|exact Hin].
      apply dict_set_keeps; [|exact Hin].
      intros ->. destruct (Hname eq_refl) as [Hg' _]. congruence.
    + apply accepts_takes; auto.
      intros Hf. destruct (Hname Hf) as [_ Hs]. exact Hs.
  - intros Hin.
    destruct (listed_field e n g upd mf f Hwf Hfold Hin) as (Ha & _ & Hmf).
    apply accepts_true in Ha. destruct Ha as (Hm & _).
    exists (dict_set "updatedAt" (VTime now) mf). split; [exact Hlm|].
    rewrite assoc_find_set.
    destruct (String.eqb f "updatedAt") eqn:E; [|exact Hmf].
    apply String.eqb_eq in E. subst f. discriminate.
Qed.

Lemma dict_wf_amendment_pickup : dict_wf amendment_pickup.
Proof.
  unfold dict_wf. apply (bool_decide_unpack _). vm_compute. exact I.
Defined.

Lemma merge_change_set_witness :
  (In "pickup" ["tourDate"; "pickup"] <-> takes stored_gyg1 amendment_pickup VNone "pickup") /\
  (In "pickup" ["tourDate"; "pickup"] ->
   exists m, (smart_merge 1 0 VNone 200 heap_pickup).2 !! 2%nat = Some m /\
             assoc_find "pickup" m = Some (dict_get amendment_pickup "pickup")).
Proof.
  refine (merge_change_set 1 0 VNone 200 heap_pickup stored_gyg1 amendment_pickup
            2%nat ["tourDate"; "pickup"] _ _ _ dict_wf_amendment_pickup _ "pickup").
  - lia.
  - vm_compute; reflexivity.
  - vm_compute; reflexivity.
  - vm_compute; reflexivity.
Defined.

(** X2. A merge never takes a bookkeeping field from the candidate: [_id],
    [createdAt], [platform], [specialRequirements], [is_cancellation] and
    [is_amendment] are never listed and keep the entry of the stored record
    (none, when it has none); [updatedAt] is never listed either. *)
Theorem merge_ignores_bookkeeping (le ln : nat) (g : value) (now : Z) (h : heap)
    (e n : dict) (lm : nat) (upd : list string) (f : string) :
  le <> ln -> h !! le = Some e -> h !! ln = Some n ->
  (smart_merge le ln g now h).1 = Ok (lm, upd) ->
  In f metadata_fields ->
  ~ In f upd /\
  (f <> "updatedAt" ->
   exists m, (smart_merge le ln g now h).2 !! lm = Some m /\
             assoc_find f m = assoc_find f e).
Proof.
  intros Hne He Hn H Hf.
  destruct (smart_merge le ln g now h) as [r h'] eqn:Hrun. cbn [fst snd] in *.
  subst r.
  destruct (smart_merge_returns le ln g now h h' e n lm upd Hne He Hn Hrun)
    as (mf & Hfold & _ & Hlm & _ & _).
  assert (Hout : ~ In f upd).
  { intros Hin. apply (merge_fold_listed e _ _ _ _ _ Hfold) in Hin.
    destruct Hin as [[]|(v & _ & Ha)].
    apply accepts_true in Ha. destruct Ha as (Hm & _).
    apply str_in_In in Hf. congruence. }
  split; [exact Hout|]. intros Hts.
  exists (dict_set "updatedAt" (VTime now) mf). split; [exact Hlm|].
  rewrite assoc_find_set.
  destruct (String.eqb f "updatedAt") eqn:E.
  - apply String.eqb_eq in E. contradiction.
  - apply (merge_fold_frame e _ _ _ _ _ f Hfold Hout).
Qed.

Lemma merge_ignores_bookkeeping_witness :
  ~ In "platform" ["tourDate"; "pickup"] /\
  ("platform" <> "updatedAt" ->
   exists m, (smart_merge 1 0 VNone 200 heap_pickup).2 !! 2%nat = Some m /\
             assoc_find "platform" m = assoc_find "platform" stored_gyg1).
Proof.
  refine (merge_ignores_bookkeeping 1 0 VNone 200 heap_pickup stored_gyg1
            amendment_pickup 2%nat ["tourDate"; "pickup"] "platform" _ _ _ _ _).
  - lia.
  - vm_compute; reflexivity.
  - vm_compute; reflexivity.
  - vm_compute; reflexivity.
  - cbn. auto.
Defined.

(** ** The order of the updated fields and the keys of the merged document *)

Lemma merge_fold_accepted (e : dict) (items : dict) :
  forall (m : dict) (upd upd' : list string) (m' : dict),
    merge_fold e items m upd = (Ok upd', m') ->
    upd' = (upd ++ accepted_keys e items)%list.
Proof.
  unfold accepted_keys.
  induction items as [|[f v] rest IH]; intros m upd upd' m' H; cbn [merge_fold] in H.
  - inversion H; subst. cbn. rewrite app_nil_r. reflexivity.
  - cbn [List.filter fst snd]. destruct (accepts e f v) as [[|]|x]; [| |discriminate].
    + rewrite (IH _ _ _ _ H). cbn [map fst]. rewrite <- app_assoc. reflexivity.
    + apply (IH _ _ _ _ H).
Qed.

Lemma accepted_keys_sublist (e : dict) (items : dict) :
  sublist (accepted_keys e items) (dict_keys items).
Proof.
  unfold accepted_keys, dict_keys.
  induction items as [|[f v] rest IH]; cbn [List.filter map fst snd].
  - constructor.
  - destruct (accepts e f v) as [[|]|x]; cbn [map fst].
    + apply sublist_skip. exact IH.
    + apply sublist_cons. exact IH.
    + apply sublist_cons. exact IH.
Qed.

(** Setting a key to a value the loop passes over leaves the accepted keys
    among the keys of the dictionary. *)
Lemma accepted_keys_set_none (e : dict) (k : string) (d : dict) :
  sublist (accepted_keys e (dict_set k VNone d)) (dict_keys d).
Proof.
  assert (Hnone : accepts e k VNone = Ok false).
  { apply absent_not_accepted. reflexivity. }
  unfold accepted_keys, dict_keys.
  induction d as [|[k0 v0] d IH]; cbn [dict_set].
  - cbn [List.filter fst snd]. rewrite Hnone. constructor.
  - destruct (String.eqb k k0) eqn:E.
    + cbn [List.filter map fst snd]. rewrite Hnone.
      apply sublist_cons. apply (accepted_keys_sublist e d).
    + cbn [List.filter map fst snd]. destruct (accepts e k0 v0) as [[|]|x]; cbn [map fst].
      * apply sublist_skip. exact IH.
      * apply sublist_cons. exact IH.
      * apply sublist_cons. exact IH.
Qed.

(** X3. The updated fields of a merge come in the order of the candidate's
    keys, each at most once: the list is a sublist of the candidate's keys. *)
Theorem updated_fields_in_order (le ln : nat) (g : value) (now : Z) (h : heap)
    (e n : dict) (lm : nat) (upd : list string) :
  le <> ln -> h !! le = Some e -> h !! ln = Some n -> dict_wf n ->
  (smart_merge le ln g now h).1 = Ok (lm, upd) ->
  sublist upd (dict_keys n) /\ NoDup upd.
Proof.
  intros Hne He Hn Hwf H.
  destruct (smart_merge le ln g now h) as [r h'] eqn:Hrun. cbn [fst snd] in *.
  subst r.
  destruct (smart_merge_returns le ln g now h h' e n lm upd Hne He Hn Hrun)
    as (mf & Hfold & _).
  apply merge_fold_accepted in Hfold. cbn [app] in Hfold. subst upd.
  assert (Hsub : sublist (accepted_keys e (filter_greeting n g)) (dict_keys n)).
  { unfold filter_greeting. destruct (py_eq (dict_get n "name") g).
    - apply accepted_keys_set_none.
    - apply accepted_keys_sublist. }
  split; [exact Hsub|]. unfold dict_wf in Hwf. eapply sublist_NoDup; eassumption.
Qed.

Lemma updated_fields_in_order_witness :
  sublist ["tourDate"; "pickup"] (dict_keys amendment_pickup) /\
  NoDup ["tourDate"; "pickup"].
Proof.
  refine (updated_fields_in_order 1 0 VNone 200 heap_pickup stored_gyg1
            amendment_pickup 2%nat ["tourDate"; "pickup"] _ _ _
            dict_wf_amendment_pickup _).
  - lia.
  - vm_compute; reflexivity.
  - vm_compute; reflexivity.
  - vm_compute; reflexivity.
Defined.

Lemma dict_keys_set_prefix (k : string) (v : value) (d : dict) :
  exists extra, dict_keys (dict_set k v d) = (dict_keys d ++ extra)%list.
Proof.
  rewrite dict_keys_set. destruct (str_in k (dict_keys d)).
  - exists []. rewrite app_nil_r. reflexivity.
  - exists [k]. reflexivity.
Qed.

Lemma merge_fold_keys (e : dict) (items : dict) :
  forall (m : dict) (upd : list string) (r : result (list string)) (m' : dict),
    merge_fold e items m upd = (r, m') ->
    (exists extra, dict_keys m' = (dict_keys m ++ extra)%list) /\
    (dict_wf m -> dict_wf m').
Proof.
  induction items as [|[f v] rest IH]; intros m upd r m' H; cbn [merge_fold] in H.
  - inversion H; subst. split; [|auto]. exists []. rewrite app_nil_r. reflexivity.
  - destruct (accepts e f v) as [[|]|x].
    + destruct (IH _ _ _ _ H) as [[extra Hk] Hwf].
      destruct (dict_keys_set_prefix f v m) as [extra0 Hk0].
      split.
      * exists (extra0 ++ extra)%list. rewrite Hk, Hk0, app_assoc. reflexivity.
      * intros Hm. apply Hwf. apply dict_wf_set. exact Hm.
    + apply (IH _ _ _ _ H).
    + inversion H; subst. split; [|auto]. exists []. rewrite app_nil_r. reflexivity.
Qed.

(** X4. The merged document keeps every key of the stored record, in the
    stored order; keys the record did not have come after them, and no key
    occurs twice. *)
Theorem merge_keeps_keys (le ln : nat) (g : value) (now : Z) (h : heap)
    (e n : dict) (lm : nat) (upd : list string) :
  le <> ln -> h !! le = Some e -> h !! ln = Some n ->
  (smart_merge le ln g now h).1 = Ok (lm, upd) ->
  exists m extra,
    (smart_merge le ln g now h).2 !! lm = Some m /\
    dict_keys m = (dict_keys e ++ extra)%list /\
    (dict_wf e -> dict_wf m).
Proof.
  intros Hne He Hn H.
  destruct (smart_merge le ln g now h) as [r h'] eqn:Hrun. cbn [fst snd] in *.
  subst r.
  destruct (smart_merge_returns le ln g now h h' e n lm upd Hne He Hn Hrun)
    as (mf & Hfold & _ & Hlm & _ & _).
  destruct (merge_fold_keys e _ _ _ _ _ Hfold) as [[extra Hk] Hwf].
  destruct (dict_keys_set_prefix "updatedAt" (VTime now) mf) as [extra0 Hk0].
  exists (dict_set "updatedAt" (VTime now) mf), (extra ++ extra0)%list.
  split; [exact Hlm|]. split.
  - rewrite Hk0, Hk, app_assoc. reflexivity.
  - intros He'. apply dict_wf_set. apply Hwf. exact He'.
Qed.

Lemma merge_keeps_keys_witness :
  exists m extra,
    (smart_merge 1 0 VNone 200 heap_pickup).2 !! 2%nat = Some m /\
    dict_keys m = (dict_keys stored_gyg1 ++ extra)%list /\
    (dict_wf stored_gyg1 -> dict_wf m).
Proof.
  refine (merge_keeps_keys 1 0 VNone 200 heap_pickup stored_gyg1
            amendment_pickup 2%nat ["tourDate"; "pickup"] _ _ _ _).
  - lia.
  - vm_compute; reflexivity.
  - vm_compute; reflexivity.
  - vm_compute; reflexivity.
Defined.

(** ** When the merge raises *)

Lemma accepts_raises (e : dict) (f : string) (v : value) (x : exn) :
  accepts e f v = Raise x ->
  x = AttributeError /\ f = "name" /\ v <> VNone /\ (forall s, v <> VStr s) /\
  truthy v = true /\ py_eq v (dict_get e f) = false.
Proof.
  unfold accepts.
  destruct (str_in f metadata_fields); [discriminate|].
  destruct (is_none v || py_eq v (VStr "")) eqn:Habs; [discriminate|].
  destruct (str_in f protected_fields); [|discriminate].
  destruct (truthy v) eqn:Ht; [|discriminate].
  destruct (py_eq v (dict_get e f)) eqn:Hd; [discriminate|].
  cbn [andb negb]. unfold single_word_name.
  destruct (String.eqb f "name") eqn:E; [|discriminate].
  apply String.eqb_eq in E. subst f.
  destruct v; cbn [value_split rbind]; intros H; inversion H; subst;
    repeat split; try discriminate; auto.
Qed.

Lemma merge_fold_raises (e : dict) (items : dict) :
  forall (m : dict) (upd : list string) (x : exn) (m' : dict),
    merge_fold e items m upd = (Raise x, m') ->
    exists f v, In (f, v) items /\ accepts e f v = Raise x.
Proof.
  induction items as [|[f v] rest IH]; intros m upd x m' H; cbn [merge_fold] in H.
  - discriminate.
  - destruct (accepts e f v) as [[|]|y] eqn:Ha.
    + destruct (IH _ _ _ _ H) as (f' & v' & Hin & Ha').
      exists f', v'. split; [right; exact Hin|exact Ha'].
    + destruct (IH _ _ _ _ H) as (f' & v' & Hin & Ha').
      exists f', v'. split; [right; exact Hin|exact Ha'].
    + inversion H; subst. exists f, v. split; [left; reflexivity|exact Ha].
Qed.

(** X5. The only way [smart_merge] fails on two distinct objects is the
    [AttributeError] of [new_value.split()]: the candidate then has a name
    that is neither [None] nor a string, is true and differs from the stored
    name.  For a candidate whose name is [None] or a string it returns. *)
Theorem merge_failure (le ln : nat) (g : value) (now : Z) (h : heap) (e n : dict) :
  le <> ln -> h !! le = Some e -> h !! ln = Some n ->
  (forall x,
     (smart_merge le ln g now h).1 = Raise x ->
     x = AttributeError /\
     exists v, In ("name", v) n /\ v <> VNone /\ (forall s, v <> VStr s) /\
               truthy v = true /\ py_eq v (dict_get e "name") = false) /\
  ((forall v, In ("name", v) n -> v = VNone \/ exists s, v = VStr s) ->
   exists upd, (smart_merge le ln g now h).1 = Ok (fresh (dom h), upd)).
Proof.
  intros Hne He Hn. split; [|apply (smart_merge_total le ln g now h e n Hne He Hn)].
  intros x H.
  rewrite (smart_merge_fold le ln g now h e n Hne He Hn) in H. cbv zeta in H.
  destruct (merge_fold e (filter_greeting n g) e []) as [[upd|y] m] eqn:Hfold;
    cbn [fst] in H; [discriminate|].
  inversion H; subst y.
  destruct (merge_fold_raises e _ _ _ _ _ Hfold) as (f & v & Hin & Ha).
  apply accepts_raises in Ha. destruct Ha as (-> & -> & Hnone & Hstr & Ht & Hd).
  split; [reflexivity|]. exists v.
  assert (Hin' : In ("name", v) n).
  { unfold filter_greeting in Hin.
    destruct (py_eq (dict_get n "name") g); [|exact Hin].
    apply dict_set_In in Hin. destruct Hin as [[_ ->]|Hin]; [contradiction|exact Hin]. }
  auto.
Qed.

Lemma merge_failure_witness :
  AttributeError = AttributeError /\
  exists v, In ("name", v) candidate_number_name /\ v <> VNone /\
            (forall s, v <> VStr s) /\ truthy v = true /\
            py_eq v (dict_get stored_gyg1 "name") = false.
Proof.
  refine (proj1 (merge_failure 1 0 VNone 200 heap_number_name stored_gyg1
                   candidate_number_name _ _ _) AttributeError _).
  - lia.
  - vm_compute; reflexivity.
  - vm_compute; reflexivity.
  - vm_compute; reflexivity.
Defined.

(** ** What a message does to the store and the counters *)

Lemma update_one_length (ref : value) (fields : dict) (coll : list dict) :
  List.length (update_one ref fields coll) = List.length coll.
Proof.
  induction coll as [|d coll IH]; cbn [update_one]; [reflexivity|].
  destruct (matches_reference ref d); cbn [List.length]; [reflexivity|].
  rewrite IH. reflexivity.
Qed.

Lemma delete_one_length (ref : value) (coll : list dict) (e : dict) :
  find_one ref coll = Some e ->
  S (List.length (delete_one ref coll)) = List.length coll.
Proof.
  intros H. destruct (find_one_split ref coll e H) as (l1 & l2 & -> & _ & _ & ->).
  rewrite !length_app. cbn [List.length]. lia.
Qed.

Lemma cancel_branch_effect (p : dict) (st : state) :
  outcome_effect (cancel_branch p st).1 st (cancel_branch p st).2.
Proof.
  unfold cancel_branch.
  destruct (truthy (dict_get p "booking_reference")); [|cbn; auto].
  destruct (find_one _ _) as [existing|] eqn:Hf; [|cbn; auto].
  destruct (truthy (VDict existing)); [|cbn; auto].
  cbn [fst snd outcome_effect]. split; [|reflexivity].
  cbn. apply (delete_one_length _ _ existing Hf).
Qed.

Lemma merge_branch_effect (clock : nat -> Z) (g ref : value) (p existing : dict)
    (st : state) :
  match merge_branch clock g ref p existing st with
  | (Ok o, st') => outcome_effect o st st'
  | (Raise x, st') => collection st' = collection st /\ counters st' = counters st
  end.
Proof.
  unfold merge_branch.
  destruct (smart_merge _ _ _ _ _) as [[[lm upd]|x] h']; [|auto].
  destruct (h' !! lm) as [merged_doc|]; [|cbn; auto].
  destruct (dict_item merged_doc "booking_reference"); [|cbn; auto].
  destruct upd as [|f upd]; cbn [outcome_effect].
  - cbn. auto.
  - split; [discriminate|]. split; [|reflexivity].
    cbn. apply update_one_length.
Qed.

Lemma create_branch_effect (clock : nat -> Z) (p : dict) (st : state) :
  match create_branch clock p st with
  | (Ok o, st') => outcome_effect o st st'
  | (Raise x, st') => collection st' = collection st /\ counters st' = counters st
  end.
Proof.
  unfold create_branch.
  destruct (build_doc _ _) as [doc|x]; [|cbn; auto].
  destruct (let? _ := display_field doc "tour" in display_field doc "address");
    [|cbn; auto].
  cbn [outcome_effect]. split; [|reflexivity].
  cbn. unfold insert_one. rewrite length_app. cbn [List.length]. lia.
Qed.

(** The effect of the statements of the [try], branch by branch. *)
Lemma try_body_effect (clock : nat -> Z) (is_amendment : bool)
    (greeting_name parsed : value) (st : state) :
  match try_body clock is_amendment greeting_name parsed st with
  | (Ok o, st') => outcome_effect o st st'
  | (Raise x, st') => collection st' = collection st /\ counters st' = counters st
  end.
Proof.
  unfold try_body.
  destruct (truthy parsed); cbn [negb]; [|cbn; auto].
  destruct parsed as [| | | | |p| |]; try (cbn; auto; fail).
  destruct (truthy (dict_get p "is_cancellation")).
  { pose proof (cancel_branch_effect p st) as H.
    destruct (cancel_branch p st) as [o st']. exact H. }
  destruct (truthy (dict_get p "booking_reference")); cbn [negb]; [|cbn; auto].
  destruct (find_one _ _) as [existing|].
  - destruct (truthy (VDict existing) && _).
    + apply merge_branch_effect.
    + apply create_branch_effect.
  - apply create_branch_effect.
Qed.

(** X6. Every message is accounted for in one way.  A new booking adds one
    record, a cancellation that is matched removes one, an amendment keeps
    the number of records; every other outcome, the failures among them,
    leaves the store as it was.  With each outcome goes its counter: a
    failure counts in [errors] only, a message without a booking reference
    counts nowhere, every other message counts in [processed] and in the
    counter of its outcome. *)
Theorem message_accounting (clock : nat -> Z) (is_amendment : bool)
    (greeting_name parsed : value) (st : state) :
  outcome_effect (process_parsed clock is_amendment greeting_name parsed st).1 st
                 (process_parsed clock is_amendment greeting_name parsed st).2.
Proof.
  unfold process_parsed.
  pose proof (try_body_effect clock is_amendment greeting_name parsed st) as H.
  destruct (try_body clock is_amendment greeting_name parsed st) as [[o|x] st'];
    cbn [fst snd]; [exact H|].
  destruct H as [Hc Hn]. cbn [outcome_effect]. split; [exact Hc|].
  unfold counters in *. cbn. inversion Hn. reflexivity.
Qed.

(** ** An amendment replaces the record by the merged document *)

Lemma dict_set_fresh (k : string) (v : value) (d : dict) :
  ~ In k (dict_keys d) -> dict_set k v d = (d ++ [(k, v)])%list.
Proof.
  unfold dict_keys. induction d as [|[k0 v0] d IH]; cbn [dict_set map fst app In].
  - reflexivity.
  - intros H. destruct (String.eqb k k0) eqn:E.
    + apply String.eqb_eq in E. subst k0. tauto.
    + rewrite IH by tauto. reflexivity.
Qed.

Lemma dict_set_inside (k : string) (v v0 : value) (done rest : dict) :
  ~ In k (dict_keys done) ->
  dict_set k v (done ++ (k, v0) :: rest) = (done ++ (k, v) :: rest)%list.
Proof.
  unfold dict_keys. induction done as [|[k1 v1] done IH]; cbn [dict_set map fst app In].
  - intros _. rewrite String.eqb_refl. reflexivity.
  - intros H. destruct (String.eqb k k1) eqn:E.
    + apply String.eqb_eq in E. subst k1. tauto.
    + rewrite IH by tauto. reflexivity.
Qed.

Lemma NoDup_app_In (l1 l2 : list string) (k : string) :
  NoDup (l1 ++ k :: l2) -> ~ In k l1.
Proof.
  intros H Hin. apply NoDup_app in H. destruct H as (_ & H & _).
  apply (H k); [apply list_elem_of_In; exact Hin|]. left.
Qed.

(** Assigning the entries of [done ++ todo] over a dictionary that has the
    same keys in the same order gives [done ++ todo]. *)
Lemma set_fields_same_keys (todo_m : dict) :
  forall (todo_e done : dict),
    dict_keys todo_m = dict_keys todo_e ->
    NoDup (dict_keys (done ++ todo_m)) ->
    set_fields todo_m (done ++ todo_e) = (done ++ todo_m)%list.
Proof.
  unfold set_fields, dict_keys.
  induction todo_m as [|[k v] tm IH]; intros todo_e done Hk Hnd.
  - destruct todo_e; [reflexivity|discriminate].
  - destruct todo_e as [|[k0 v0] te]; [discriminate|].
    cbn [map fst] in Hk. inversion Hk; subst k0.
    cbn [fold_left fst snd]. rewrite map_app in Hnd. cbn [map fst] in Hnd.
    rewrite dict_set_inside by (apply (NoDup_app_In _ _ _ Hnd)).
    change (done ++ (k, v) :: te)%list with (done ++ [(k, v)] ++ te)%list.
    rewrite app_assoc. rewrite IH.
    + rewrite <- app_assoc. reflexivity.
    + assumption.
    + rewrite map_app, map_app. cbn [map fst]. rewrite <- app_assoc. exact Hnd.
Qed.

(** Assigning entries with new keys appends them. *)
Lemma set_fields_new_keys (m2 : dict) :
  forall acc : dict,
    NoDup (dict_keys (acc ++ m2)) -> set_fields m2 acc = (acc ++ m2)%list.
Proof.
  unfold set_fields, dict_keys.
  induction m2 as [|[k v] m2 IH]; intros acc Hnd; cbn [fold_left fst snd].
  - rewrite app_nil_r. reflexivity.
  - rewrite map_app in Hnd. cbn [map fst] in Hnd.
    rewrite dict_set_fresh by (apply (NoDup_app_In _ _ _ Hnd)).
    rewrite IH.
    + rewrite <- app_assoc. reflexivity.
    + rewrite map_app, map_app. cbn [map fst]. rewrite <- app_assoc. exact Hnd.
Qed.

Lemma set_fields_app (m1 m2 d : dict) :
  set_fields (m1 ++ m2) d = set_fields m2 (set_fields m1 d).
Proof. unfold set_fields. apply fold_left_app. Qed.

(** [$set] with a document that extends the stored one gives that document. *)
Lemma set_fields_extension (m e : dict) (extra : list string) :
  dict_wf m -> dict_keys m = (dict_keys e ++ extra)%list -> set_fields m e = m.
Proof.
  unfold dict_wf, dict_keys. intros Hwf Hk.
  apply map_eq_app in Hk. destruct Hk as (m1 & m2 & -> & Hk1 & Hk2).
  rewrite set_fields_app.
  pose proof (set_fields_same_keys m1 e [] Hk1) as H1. cbn [app] in H1.
  rewrite H1.
  - apply set_fields_new_keys. exact Hwf.
  - rewrite map_app in Hwf. apply NoDup_app in Hwf. tauto.
Qed.

Lemma update_one_split (ref : value) (fields : dict) (l1 l2 : list dict) (e : dict) :
  find_one ref l1 = None -> matches_reference ref e = true ->
  update_one ref fields (l1 ++ e :: l2) = (l1 ++ set_fields fields e :: l2)%list.
Proof.
  unfold find_one. induction l1 as [|d l1 IH]; cbn [find update_one app]; intros Hn Hm.
  - rewrite Hm. reflexivity.
  - destruct (matches_reference ref d); [discriminate|].
    rewrite IH by assumption. reflexivity.
Qed.

(** Only the branch of [update_one] answers [Amended]. *)
Lemma amended_merged (clock : nat -> Z) (is_amendment : bool)
    (greeting_name parsed : value) (st : state) (upd : list string) :
  (process_parsed clock is_amendment greeting_name parsed st).1 = Amended upd ->
  exists p existing lm merged h',
    parsed = VDict p /\
    find_one (dict_get p "booking_reference") (collection st) = Some existing /\
    smart_merge 1 0 greeting_name (clock (ticks st)) (two_objects p existing)
      = (Ok (lm, upd), h') /\
    h' !! lm = Some merged /\
    collection (process_parsed clock is_amendment greeting_name parsed st).2
      = update_one (dict_get p "booking_reference") merged (collection st).
Proof.
  unfold process_parsed, try_body.
  destruct (truthy parsed); cbn [negb]; [|discriminate].
  destruct parsed as [| | | | |p| |]; try discriminate.
  assert (Hcreate :
    (match create_branch clock p st with
     | (Ok o, st') => (o, st')
     | (Raise e, st') => (Failed e, count_errors st')
     end).1 <> Amended upd).
  { unfold create_branch. destruct (build_doc _ _) as [doc|x]; [|discriminate].
    destruct (let? _ := display_field doc "tour" in display_field doc "address");
      discriminate. }
  destruct (truthy (dict_get p "is_cancellation")).
  { unfold cancel_branch.
    destruct (truthy (dict_get p "booking_reference")); [|discriminate].
    destruct (find_one _ _) as [found|]; [|discriminate].
    destruct (truthy (VDict found)); discriminate. }
  destruct (truthy (dict_get p "booking_reference")); cbn [negb]; [|discriminate].
  destruct (find_one _ _) as [existing|] eqn:Hf; [|intros H; contradiction].
  destruct (truthy (VDict existing) && _); [|intros H; contradiction].
  unfold merge_branch. fold (two_objects p existing).
  destruct (smart_merge _ _ _ _ _) as [[[lm upd0]|x] h'] eqn:Hrun; [|discriminate].
  destruct (h' !! lm) as [merged|] eqn:Hlm; [|discriminate].
  destruct (dict_item merged "booking_reference"); [|discriminate].
  destruct upd0 as [|f upd0]; [discriminate|].
  cbn [fst snd]. intros H. inversion H; subst upd.
  exists p, existing, lm, merged, h'. repeat split; auto.
Qed.

(** X7. An amendment replaces the first record stored under the reference
    by the merged document of [smart_merge] and leaves every other record
    where and as it was (the stored records having distinct keys). *)
Theorem amended_replaces_record (clock : nat -> Z) (is_amendment : bool)
    (greeting_name : value) (p : dict) (st : state) (upd : list string) :
  (process_parsed clock is_amendment greeting_name (VDict p) st).1 = Amended upd ->
  (forall d, In d (collection st) -> dict_wf d) ->
  exists l1 existing l2 lm merged,
    collection st = (l1 ++ existing :: l2)%list /\
    find_one (dict_get p "booking_reference") l1 = None /\
    matches_reference (dict_get p "booking_reference") existing = true /\
    (smart_merge 1 0 greeting_name (clock (ticks st)) (two_objects p existing)).1
      = Ok (lm, upd) /\
    (smart_merge 1 0 greeting_name (clock (ticks st)) (two_objects p existing)).2 !! lm
      = Some merged /\
    collection (process_parsed clock is_amendment greeting_name (VDict p) st).2
      = (l1 ++ merged :: l2)%list.
Proof.
  intros H Hwf.
  destruct (amended_merged clock is_amendment greeting_name (VDict p) st upd H)
    as (p0 & existing & lm & merged & h' & Hp & Hf & Hrun & Hlm & Hcoll).
  inversion Hp; subst p0. clear Hp.
  destruct (find_one_split _ _ existing Hf) as (l1 & l2 & Hsplit & Hnone & Hm & _).
  exists l1, existing, l2, lm, merged.
  rewrite Hrun. cbn [fst snd].
  split; [exact Hsplit|]. split; [exact Hnone|]. split; [exact Hm|].
  split; [reflexivity|]. split; [exact Hlm|].
  rewrite Hcoll, Hsplit. rewrite (update_one_split _ _ _ _ _ Hnone Hm).
  assert (He : dict_wf existing).
  { apply Hwf. rewrite Hsplit. apply in_or_app. right. left. reflexivity. }
  assert (H1 : (1 : nat) <> 0%nat) by lia.
  assert (H2 : two_objects p existing !! 1%nat = Some existing).
  { unfold two_objects. apply lookup_insert_eq. }
  assert (H3 : two_objects p existing !! 0%nat = Some p).
  { unfold two_objects. rewrite lookup_insert_ne by lia. apply lookup_insert_eq. }
  destruct (smart_merge_returns 1 0 greeting_name (clock (ticks st))
              (two_objects p existing) h' existing p lm upd H1 H2 H3 Hrun)
    as (mf & Hfold & _ & Hlm' & _ & _).
  rewrite Hlm in Hlm'. inversion Hlm'; subst merged. clear Hlm'.
  destruct (merge_fold_keys existing _ _ _ _ _ Hfold) as [[extra1 Hk1] Hwf1].
  destruct (dict_keys_set_prefix "updatedAt" (VTime (clock (ticks st))) mf)
    as [extra2 Hk2].
  assert (Hkeys : dict_keys (dict_set "updatedAt" (VTime (clock (ticks st))) mf)
                  = (dict_keys existing ++ (extra1 ++ extra2))%list).
  { rewrite Hk2, Hk1, app_assoc. reflexivity. }
  assert (Hwfm : dict_wf (dict_set "updatedAt" (VTime (clock (ticks st))) mf)).
  { apply dict_wf_set. apply Hwf1. exact He. }
  rewrite (set_fields_extension _ existing _ Hwfm Hkeys).
  reflexivity.
Qed.

Lemma dict_wf_stored_gyg1 : dict_wf stored_gyg1.
Proof.
  unfold dict_wf. apply (bool_decide_unpack _). vm_compute. exact I.
Defined.

Lemma amended_replaces_record_witness :
  exists l1 existing l2 lm merged,
    collection state_gyg1 = (l1 ++ existing :: l2)%list /\
    find_one (dict_get amendment_gyg1 "booking_reference") l1 = None /\
    matches_reference (dict_get amendment_gyg1 "booking_reference") existing = true /\
    (smart_merge 1 0 VNone (Z.of_nat (ticks state_gyg1))
       (two_objects amendment_gyg1 existing)).1 = Ok (lm, ["tourDate"]) /\
    (smart_merge 1 0 VNone (Z.of_nat (ticks state_gyg1))
       (two_objects amendment_gyg1 existing)).2 !! lm = Some merged /\
    collection (process_parsed Z.of_nat true VNone (VDict amendment_gyg1) state_gyg1).2
      = (l1 ++ merged :: l2)%list.
Proof.
  apply (amended_replaces_record Z.of_nat true VNone amendment_gyg1 state_gyg1
           ["tourDate"]).
  - vm_compute; reflexivity.
  - intros d [<-|[]]. exact dict_wf_stored_gyg1.
Defined.

(** ** Looking up a new booking *)

Lemma find_one_app (ref : value) (coll : list dict) (doc : dict) :
  find_one ref (coll ++ [doc]) =
  match find_one ref coll with
  | Some e => Some e
  | None => if matches_reference ref doc then Some doc else None
  end.
Proof.
  unfold find_one. induction coll as [|d coll IH]; cbn [find app].
  - destruct (matches_reference ref doc); reflexivity.
  - destruct (matches_reference ref d); [reflexivity|exact IH].
Qed.

(** X8. After a new booking with a string reference, a lookup of the
    reference finds a record: the record that was already stored under it
    when there was one, so that the new record stays behind it, and the new
    record otherwise. *)
Theorem new_booking_lookup (clock : nat -> Z) (is_amendment : bool)
    (greeting_name : value) (p : dict) (st : state) (s : string) :
  (process_parsed clock is_amendment greeting_name (VDict p) st).1 = NewBooking ->
  dict_get p "booking_reference" = VStr s ->
  exists doc,
    collection (process_parsed clock is_amendment greeting_name (VDict p) st).2
      = (collection st ++ [doc])%list /\
    dict_get doc "booking_reference" = VStr s /\
    find_one (VStr s)
      (collection (process_parsed clock is_amendment greeting_name (VDict p) st).2)
    = match find_one (VStr s) (collection st) with
      | Some older => Some older
      | None => Some doc
      end.
Proof.
  intros H Hs.
  destruct (new_booking_created clock is_amendment greeting_name (VDict p) st H)
    as (p0 & Hp & Hc).
  inversion Hp; subst p0. clear Hp.
  destruct (create_branch_new clock p st _ Hc) as (doc & Hdoc & Hcoll & _).
  destruct (build_doc_fields p _ doc Hdoc) as (_ & Href & _).
  eexists. split; [exact Hcoll|].
  assert (Hget : dict_get
            (dict_set "_id" (VOid (next_oid st))
               (dict_set "createdAt" (VTime (clock (S (ticks st)))) doc))
            "booking_reference" = VStr s).
  { rewrite !dict_get_set_ne by discriminate.
    unfold dict_item, dict_get in *.
    destruct (assoc_find "booking_reference" p) as [r|]; [|discriminate].
    inversion Href. congruence. }
  split; [exact Hget|].
  rewrite Hcoll, find_one_app. unfold matches_reference. rewrite Hget.
  cbn [value_eqb]. rewrite String.eqb_refl. reflexivity.
Qed.

Lemma new_booking_lookup_witness :
  exists doc,
    collection (process_parsed Z.of_nat false VNone (VDict candidate_gyg5) empty_state).2
      = (collection empty_state ++ [doc])%list /\
    dict_get doc "booking_reference" = VStr "GYG5" /\
    find_one (VStr "GYG5")
      (collection (process_parsed Z.of_nat false VNone (VDict candidate_gyg5) empty_state).2)
    = match find_one (VStr "GYG5") (collection empty_state) with
      | Some older => Some older
      | None => Some doc
      end.
Proof.
  apply (new_booking_lookup Z.of_nat false VNone candidate_gyg5 empty_state "GYG5").
  - reflexivity.
  - reflexivity.
Defined.

(** ** A field the console cannot show *)

Lemma display_field_build_doc (p : dict) (now : Z) (doc : dict) (k : string) :
  build_doc p now = Ok doc -> In k ["tour"; "address"] ->
  display_field doc k = display_field p k.
Proof.
  intros Hdoc Hk. destruct (build_doc_fields p now doc Hdoc) as (Hcopy & _).
  unfold display_field. rewrite Hcopy; [reflexivity|].
  cbn in *. intuition.
Qed.

(** X9. A new booking whose [tour] or [address] is true and cannot be
    clipped for the console (a number, a boolean, a list or an object of
    more than 45 entries) is not inserted: the exception of the display
    code ends the message before [insert_one], the store is as it was and
    the message counts as an error. *)
Theorem console_failure_blocks_insert (clock : nat -> Z) (is_amendment : bool)
    (greeting_name : value) (p : dict) (st : state) (x : exn) :
  truthy (dict_get p "is_cancellation") = false ->
  truthy (dict_get p "booking_reference") = true ->
  find_one (dict_get p "booking_reference") (collection st) = None ->
  (let? _ := display_field p "tour" in display_field p "address") = Raise x ->
  (process_parsed clock is_amendment greeting_name (VDict p) st).1 = Failed x /\
  collection (process_parsed clock is_amendment greeting_name (VDict p) st).2
    = collection st /\
  errors (process_parsed clock is_amendment greeting_name (VDict p) st).2
    = S (errors st) /\
  saved (process_parsed clock is_amendment greeting_name (VDict p) st).2 = saved st.
Proof.
  intros Hc Hr Hf Hd.
  assert (Hp : truthy (VDict p) = true).
  { destruct p; [discriminate|reflexivity]. }
  unfold process_parsed, try_body. rewrite Hp, Hc, Hr, Hf. cbn [negb].
  unfold create_branch.
  destruct (build_doc p (clock (ticks st))) as [doc|y] eqn:Hdoc.
  - rewrite (display_field_build_doc p _ doc "tour" Hdoc) by (cbn; auto).
    rewrite (display_field_build_doc p _ doc "address" Hdoc) by (cbn; auto).
    rewrite Hd. cbn. auto.
  - unfold build_doc, dict_item in Hdoc. unfold dict_get in Hr.
    destruct (assoc_find "booking_reference" p); [discriminate|discriminate].
Qed.

Lemma console_failure_blocks_insert_witness :
  (process_parsed Z.of_nat false VNone (VDict candidate_number_tour) empty_state).1
  = Failed TypeError /\
  collection (process_parsed Z.of_nat false VNone (VDict candidate_number_tour) empty_state).2
    = collection empty_state /\
  errors (process_parsed Z.of_nat false VNone (VDict candidate_number_tour) empty_state).2
    = S (errors empty_state) /\
  saved (process_parsed Z.of_nat false VNone (VDict candidate_number_tour) empty_state).2
    = saved empty_state.
Proof.
  apply (console_failure_blocks_insert Z.of_nat false VNone candidate_number_tour
           empty_state TypeError); reflexivity.
Defined.

Lemma upper_chars_idempotent (c : ascii) :
  flat_map upper_chars (upper_chars c) = upper_chars c.
Proof. destruct c as [[] [] [] [] [] [] [] []]; vm_compute; reflexivity. Qed.

Lemma upper_idempotent (l : list ascii) :
  flat_map upper_chars (flat_map upper_chars l) = flat_map upper_chars l.
Proof.
  induction l as [|c l IH]; [reflexivity|].
  cbn [flat_map]. rewrite flat_map_app, IH, upper_chars_idempotent. reflexivity.
Qed.

Lemma chars_text (l : list ascii) : chars (text l) = l.
Proof. apply list_ascii_of_string_of_list_ascii. Qed.

Lemma text_chars (s : string) : text (chars s) = s.
Proof. apply string_of_list_ascii_of_string. Qed.

Lemma py_upper_idempotent (s : string) : py_upper (py_upper s) = py_upper s.
Proof.
  unfold py_upper. rewrite chars_text, upper_idempotent. reflexivity.
Qed.

Lemma py_int_integer (v w : value) : py_int v = Ok w -> exists z, w = VInt z.
Proof.
  destruct v; cbn [py_int]; try discriminate.
  - intros H. inversion H. eauto.
  - intros H. inversion H. eauto.
  - destruct (parse_int (chars s)); [|discriminate]. intros H. inversion H. eauto.
Qed.

Lemma dict_get_other (d d' : dict) (f : string) :
  assoc_find f d' = assoc_find f d -> dict_get d' f = dict_get d f.
Proof. intros H. unfold dict_get. rewrite H. reflexivity. Qed.

(** After the reference step a true reference is an upper-case string. *)
Lemma upper_reference_shape (d : dict) (v : value) :
  upper_reference (VDict d) = Ok v ->
  exists d1,
    v = VDict d1 /\
    (forall f, f <> "booking_reference" -> assoc_find f d1 = assoc_find f d) /\
    (truthy (dict_get d1 "booking_reference") = true ->
     exists s, dict_get d1 "booking_reference" = VStr s /\ py_upper s = s).
Proof.
  unfold upper_reference. cbn [value_get rbind].
  destruct (truthy (dict_get d "booking_reference")) eqn:Ht.
  - cbn [value_item]. unfold dict_item, dict_get in *.
    destruct (assoc_find "booking_reference" d) as [r|]; [|discriminate].
    cbn [rbind]. destruct r; cbn [value_upper rbind]; try discriminate.
    cbn [value_set]. intros H. inversion H; subst v. clear H.
    eexists. split; [reflexivity|]. split.
    + intros f Hf. rewrite assoc_find_set.
      destruct (String.eqb f "booking_reference") eqn:E; [|reflexivity].
      apply String.eqb_eq in E. contradiction.
    + intros _. rewrite assoc_find_set, String.eqb_refl.
      exists (py_upper s). split; [reflexivity|apply py_upper_idempotent].
  - intros H. inversion H; subst v. exists d. split; [reflexivity|].
    split; [auto|]. intros Ht'. congruence.
Qed.

Lemma g4f_body_shape (d d' : dict) :
  g4f_body (Ok (VDict d)) = Ok (VDict d') -> normalized d'.
Proof.
  unfold g4f_body. cbn [rbind].
  destruct (upper_reference (VDict d)) as [v|x] eqn:H1; cbn [rbind]; [|discriminate].
  destruct (upper_reference_shape d v H1) as (d1 & -> & _ & Href).
  cbn [value_get rbind].
  destruct (truthy (dict_get d1 "totalPassengers")) eqn:Ht.
  - cbn [value_item value_set]. unfold dict_item.
    assert (Hsome : exists t, assoc_find "totalPassengers" d1 = Some t /\
                              dict_get d1 "totalPassengers" = t).
    { unfold dict_get in *. destruct (assoc_find "totalPassengers" d1); [eauto|discriminate]. }
    destruct Hsome as (t & Hfind & _). rewrite Hfind. cbn [rbind].
    destruct (py_int t) as [w|x] eqn:Hint; cbn [rbind try_except];
      intros H; inversion H; subst d'; clear H; split.
    + rewrite dict_get_set_ne by discriminate. exact Href.
    + intros _. rewrite dict_get_set_eq. apply (py_int_integer t w Hint).
    + rewrite dict_get_set_ne by discriminate. exact Href.
    + rewrite dict_get_set_eq. discriminate.
  - cbn [rbind]. intros H. inversion H; subst d'. split; [exact Href|].
    intros Ht'. congruence.
Qed.

Lemma huggingface_body_shape (d d' : dict) :
  huggingface_body (Ok (VDict d)) = Ok (VDict d') -> normalized d'.
Proof.
  unfold huggingface_body. cbn [rbind].
  destruct (upper_reference (VDict d)) as [v|x] eqn:H1; cbn [rbind]; [|discriminate].
  destruct (upper_reference_shape d v H1) as (d1 & -> & _ & Href).
  cbn [value_get rbind].
  destruct (truthy (dict_get d1 "totalPassengers")) eqn:Ht.
  - cbn [value_item value_set]. unfold dict_item.
    destruct (assoc_find "totalPassengers" d1) as [t|]; cbn [rbind]; [|discriminate].
    destruct (py_int t) as [w|x] eqn:Hint; cbn [rbind]; [|discriminate].
    intros H; inversion H; subst d'; clear H; split.
    + rewrite dict_get_set_ne by discriminate. exact Href.
    + intros _. rewrite dict_get_set_eq. apply (py_int_integer t w Hint).
  - cbn [rbind]. intros H. inversion H; subst d'. split; [exact Href|].
    intros Ht'. congruence.
Qed.

Lemma parse_with_g4f_shape (response : result value) :
  parse_with_g4f response = Ok VNone \/
  exists d, parse_with_g4f response = Ok (VDict d) /\ normalized d.
Proof.
  destruct (parse_with_g4f_cases response) as [H|(d & d' & -> & H & _)]; [auto|].
  right. exists d'. split; [exact H|].
  unfold parse_with_g4f in H. apply (g4f_body_shape d d').
  destruct (g4f_body (Ok (VDict d))); cbn [try_except] in H; [exact H|discriminate].
Qed.

Lemma parse_with_huggingface_shape (response : http_outcome) :
  parse_with_huggingface response = Ok VNone \/
  exists d, parse_with_huggingface response = Ok (VDict d) /\ normalized d.
Proof.
  destruct (parse_with_huggingface_cases response) as [H|(d & d' & -> & H & _)]; [auto|].
  right. exists d'. split; [exact H|].
  unfold parse_with_huggingface in H. cbn [Z.eqb Pos.eqb] in H.
  apply (huggingface_body_shape d d').
  destruct (huggingface_body (Ok (VDict d))); cbn [try_except] in H;
    [exact H|discriminate].
Qed.

(** X10. What [parse_with_ai] hands to [main] is [None] or an object that
    is not empty, whose booking reference, when true, is an upper-case
    string and whose passenger count, when true, is an integer. *)
Theorem parsed_answer_shape (USE_G4F : bool) (g4f_response : result value)
    (hf_response : http_outcome) :
  parse_with_ai USE_G4F g4f_response hf_response = Ok VNone \/
  exists d,
    parse_with_ai USE_G4F g4f_response hf_response = Ok (VDict d) /\
    d <> [] /\ normalized d.
Proof.
  unfold parse_with_ai.
  assert (Hsecond : forall response,
    (let? parsed := parse_with_huggingface response in
     if truthy parsed then Ok parsed else Ok VNone) = Ok VNone \/
    exists d,
      (let? parsed := parse_with_huggingface response in
       if truthy parsed then Ok parsed else Ok VNone) = Ok (VDict d) /\
      d <> [] /\ normalized d).
  { intros response.
    destruct (parse_with_huggingface_shape response) as [H|(d & H & Hn)];
      rewrite H; cbn [rbind truthy]; [auto|].
    destruct d as [|kv d]; [auto|]. right. exists (kv :: d). auto. }
  destruct USE_G4F; [|exact (Hsecond hf_response)].
  destruct (parse_with_g4f_shape g4f_response) as [H|(d & H & Hn)];
    rewrite H; cbn [rbind truthy]; [exact (Hsecond _)|].
  destruct d as [|kv d]; [exact (Hsecond _)|]. right. exists (kv :: d). auto.
Qed.

(** X11. A booking reference that is true and not a string (a number, a
    list, an object) costs the whole answer with either parser: [upper] is
    missing and the result is [None]. *)
Theorem reference_not_a_string (d : dict) :
  truthy (dict_get d "booking_reference") = true ->
  (forall s, dict_get d "booking_reference" <> VStr s) ->
  parse_with_g4f (Ok (VDict d)) = Ok VNone /\
  parse_with_huggingface (HttpStatus 200 (Ok (VDict d))) = Ok VNone.
Proof.
  intros Ht Hs.
  assert (H : exists x, upper_reference (VDict d) = Raise x).
  { unfold upper_reference. cbn [value_get rbind]. rewrite Ht.
    cbn [value_item]. unfold dict_item, dict_get in *.
    destruct (assoc_find "booking_reference" d) as [r|]; [|discriminate].
    cbn [rbind]. destruct r; cbn [value_upper rbind]; eauto.
    exfalso. apply (Hs s). reflexivity. }
  destruct H as [x Hx].
  unfold parse_with_g4f, parse_with_huggingface, g4f_body, huggingface_body.
  cbn [rbind Z.eqb Pos.eqb]. rewrite Hx. split; reflexivity.
Qed.

Lemma reference_not_a_string_witness :
  parse_with_g4f (Ok (VDict answer_number_reference)) = Ok VNone /\
  parse_with_huggingface (HttpStatus 200 (Ok (VDict answer_number_reference))) = Ok VNone.
Proof.
  apply (reference_not_a_string answer_number_reference).
  - reflexivity.
  - intros s. discriminate.
Defined.

Lemma dict_set_same (k : string) (v : value) (d : dict) :
  assoc_find k d = Some v -> dict_set k v d = d.
Proof.
  induction d as [|[k0 v0] d IH]; cbn [assoc_find dict_set]; [discriminate|].
  destruct (String.eqb k k0) eqn:E.
  - apply String.eqb_eq in E. subst k0. intros H. inversion H. reflexivity.
  - intros H. rewrite IH by exact H. reflexivity.
Qed.

Lemma dict_get_Some (d : dict) (k : string) :
  truthy (dict_get d k) = true -> assoc_find k d = Some (dict_get d k).
Proof.
  unfold dict_get. destruct (assoc_find k d); [reflexivity|discriminate].
Qed.

(** X12. The clean-up is idempotent: applied to an object it returned, it
    returns the same object. *)
Theorem cleanup_idempotent (response : result value) (d : dict) :
  parse_with_g4f response = Ok (VDict d) ->
  parse_with_g4f (Ok (VDict d)) = Ok (VDict d).
Proof.
  intros H.
  destruct (parse_with_g4f_shape response) as [H0|(d0 & H0 & Href & Hcount)];
    rewrite H in H0; [discriminate|].
  inversion H0; subst d0. clear H0.
  unfold parse_with_g4f, g4f_body. cbn [rbind].
  assert (H1 : upper_reference (VDict d) = Ok (VDict d)).
  { unfold upper_reference. cbn [value_get rbind].
    destruct (truthy (dict_get d "booking_reference")) eqn:Ht; [|reflexivity].
    destruct (Href eq_refl) as (s & Hs & Hup).
    pose proof (dict_get_Some d _ Ht) as Hfind. rewrite Hs in Hfind.
    cbn [value_item]. unfold dict_item. rewrite Hfind.
    cbn [rbind value_upper value_set]. rewrite Hup.
    rewrite (dict_set_same _ _ _ Hfind). reflexivity. }
  rewrite H1. cbn [rbind value_get].
  destruct (truthy (dict_get d "totalPassengers")) eqn:Ht; [|reflexivity].
  destruct (Hcount eq_refl) as (z & Hz).
  pose proof (dict_get_Some d _ Ht) as Hfind. rewrite Hz in Hfind.
  cbn [value_item value_set]. unfold dict_item. rewrite Hfind.
  cbn [rbind py_int try_except]. rewrite (dict_set_same _ _ _ Hfind). reflexivity.
Qed.

Lemma cleanup_idempotent_witness :
  parse_with_g4f (Ok (VDict [ ("booking_reference", VStr "GYG7");
                              ("name", VStr "Lena Roth");
                              ("phoneNumber", VStr "+4930");
                              ("totalPassengers", VNone) ]))
  = Ok (VDict [ ("booking_reference", VStr "GYG7"); ("name", VStr "Lena Roth");
                ("phoneNumber", VStr "+4930"); ("totalPassengers", VNone) ]).
Proof.
  apply (cleanup_idempotent (Ok (VDict answer_gyg7))).
  vm_compute; reflexivity.
Defined.

(** ** The matcher of the patterns searched with [re.I] *)

Lemma prev_after_app (prev : option ascii) (a b : list ascii) :
  prev_after prev (a ++ b) = prev_after (prev_after prev a) b.
Proof. unfold prev_after. apply fold_left_app. Qed.

Lemma istrip_prefix_sound (t : list ascii) :
  forall prev s prev' s',
    istrip_prefix t prev s = Some (prev', s') ->
    exists w, s = (w ++ s')%list /\ map lower_char w = map lower_char t /\
              prev' = prev_after prev w.
Proof.
  induction t as [|a t IH]; intros prev s prev' s' H; cbn [istrip_prefix] in H.
  - inversion H; subst. exists []. auto.
  - destruct s as [|b s]; [discriminate|].
    destruct (same_letter a b) eqn:E; [|discriminate].
    apply Ascii.eqb_eq in E.
    destruct (IH _ _ _ _ H) as (w & -> & Hw & ->).
    exists (b :: w). cbn [map app]. rewrite Hw, E. auto.
Qed.

Lemma istrip_prefix_complete (t : list ascii) :
  forall prev w s,
    map lower_char w = map lower_char t ->
    istrip_prefix t prev (w ++ s) = Some (prev_after prev w, s).
Proof.
  induction t as [|a t IH]; intros prev w s H.
  - destruct w; [reflexivity|discriminate].
  - destruct w as [|b w]; [discriminate|]. cbn [map] in H. inversion H.
    cbn [istrip_prefix app]. unfold same_letter.
    replace (lower_char a) with (lower_char b) by assumption.
    rewrite Ascii.eqb_refl. rewrite (IH (Some b) w s) by assumption. reflexivity.
Qed.

Lemma lazy_loop_iff (s : list ascii) :
  forall prev k,
    lazy_loop prev s k = true <->
    exists w s', s = (w ++ s')%list /\ same_line w /\ k (prev_after prev w) s' = true.
Proof.
  unfold same_line.
  induction s as [|c s IH]; intros prev k; cbn [lazy_loop].
  - split.
    + intros H. exists [], []. auto.
    + intros (w & s' & Hs & _ & Hk). destruct w; [|discriminate].
      cbn in Hs. subst s'. exact Hk.
  - rewrite orb_true_iff, andb_true_iff, IH. split.
    + intros [H|[Hc (w & s' & -> & Hw & Hk)]].
      * exists [], (c :: s). auto.
      * exists (c :: w), s'. cbn [forallb app]. rewrite Hc, Hw. auto.
    + intros (w & s' & Hs & Hw & Hk). destruct w as [|a w].
      * cbn in Hs. subst s'. left. exact Hk.
      * cbn [app] in Hs. inversion Hs; subst a s. cbn [forallb] in Hw.
        apply andb_true_iff in Hw as [Hc Hw]. right. split; [exact Hc|].
        exists w, s'. auto.
Qed.

(** The matcher finds exactly the matches. *)
Lemma pmatch_iff (r : pattern) :
  forall prev s k,
    pmatch r prev s k = true <->
    exists prev' s', pruns r prev s prev' s' /\ k prev' s' = true.
Proof.
  induction r as [t| | |r1 IH1 r2 IH2|r1 IH1 r2 IH2|r IH]; intros prev s k;
    cbn [pmatch].
  - split.
    + destruct (istrip_prefix (chars t) prev s) as [[prev' s']|] eqn:E; [|discriminate].
      intros Hk. apply istrip_prefix_sound in E.
      destruct E as (w & -> & Hw & ->).
      exists (prev_after prev w), s'. split; [constructor; exact Hw|exact Hk].
    + intros (prev' & s' & Hrun & Hk). inversion Hrun; subst.
      rewrite istrip_prefix_complete by assumption. exact Hk.
  - rewrite lazy_loop_iff. split.
    + intros (w & s' & -> & Hw & Hk).
      exists (prev_after prev w), s'. split; [constructor; exact Hw|exact Hk].
    + intros (prev' & s' & Hrun & Hk). inversion Hrun; subst.
      exists w, s'. auto.
  - split.
    + destruct (xorb (word_before prev) (word_after s)) eqn:E; [|discriminate].
      intros Hk. exists prev, s. split; [constructor; exact E|exact Hk].
    + intros (prev' & s' & Hrun & Hk). inversion Hrun; subst.
      match goal with H : xorb _ _ = true |- _ => rewrite H end. exact Hk.
  - rewrite IH1. split.
    + intros (prev1 & s1 & H1 & H2). apply IH2 in H2.
      destruct H2 as (prev2 & s2 & H2 & Hk).
      exists prev2, s2. split; [econstructor; eassumption|exact Hk].
    + intros (prev2 & s2 & Hrun & Hk). inversion Hrun; subst.
      eexists _, _. split; [eassumption|]. apply IH2. eauto.
  - rewrite orb_true_iff, IH1, IH2. split.
    + intros [(p' & s' & H & Hk)|(p' & s' & H & Hk)]; exists p', s';
        (split; [|exact Hk]); [apply pruns_alt_l|apply pruns_alt_r]; exact H.
    + intros (p' & s' & Hrun & Hk). inversion Hrun; subst; [left|right]; eauto.
  - rewrite orb_true_iff, IH. split.
    + intros [(p' & s' & H & Hk)|Hk].
      * exists p', s'. split; [apply pruns_opt_some; exact H|exact Hk].
      * exists prev, s. split; [apply pruns_opt_none|exact Hk].
    + intros (p' & s' & Hrun & Hk). inversion Hrun; subst; [left|right]; eauto.
Qed.

(** The search finds a match at some position of the text. *)
Lemma psearch_iff (r : pattern) (s : list ascii) :
  forall prev,
    psearch r prev s = true <->
    exists pre s1 prev' s',
      s = (pre ++ s1)%list /\ pruns r (prev_after prev pre) s1 prev' s'.
Proof.
  induction s as [|c s IH]; intros prev; cbn [psearch];
    rewrite orb_true_iff, pmatch_iff.
  - split.
    + intros [(p' & s' & H & _)|H]; [|discriminate].
      exists [], [], p', s'. auto.
    + intros (pre & s1 & p' & s' & Hs & H).
      destruct pre; [|discriminate]. cbn in Hs. subst s1. left. eauto.
  - rewrite IH. split.
    + intros [(p' & s' & H & _)|(pre & s1 & p' & s' & -> & H)].
      * exists [], (c :: s), p', s'. auto.
      * exists (c :: pre), s1, p', s'. auto.
    + intros (pre & s1 & p' & s' & Hs & H). destruct pre as [|a pre].
      * cbn in Hs. subst s1. left. eauto.
      * cbn [app] in Hs. inversion Hs; subst a s. right.
        exists pre, s1, p', s'. auto.
Qed.

(** A match reads a prefix of the text. *)
Lemma pruns_reads (r : pattern) (prev : option ascii) (s : list ascii)
    (prev' : option ascii) (s' : list ascii) :
  pruns r prev s prev' s' ->
  exists w, s = (w ++ s')%list /\ prev' = prev_after prev w.
Proof.
  induction 1 as [t prev w s Hw|prev w s Hw|prev s Hb
                 |r1 r2 prev s prev1 s1 prev2 s2 _ IH1 _ IH2
                 |r1 r2 prev s prev' s' _ IH|r1 r2 prev s prev' s' _ IH
                 |r prev s prev' s' _ IH|r prev s].
  - exists w. auto.
  - exists w. auto.
  - exists []. auto.
  - destruct IH1 as (w1 & -> & ->). destruct IH2 as (w2 & -> & ->).
    exists (w1 ++ w2)%list. rewrite app_assoc, prev_after_app. auto.
  - exact IH.
  - exact IH.
  - exact IH.
  - exists []. auto.
Qed.

(** ** Lower case does not matter to the search *)

Ltac all_chars c := destruct c as [[] [] [] [] [] [] [] []]; vm_compute; reflexivity.

Lemma lower_char_idempotent (c : ascii) : lower_char (lower_char c) = lower_char c.
Proof. all_chars c. Qed.

Lemma is_word_lower (c : ascii) : is_word (lower_char c) = is_word c.
Proof. all_chars c. Qed.

Lemma is_newline_lower (c : ascii) : is_newline (lower_char c) = is_newline c.
Proof. all_chars c. Qed.

Lemma chars_append (a b : string) : chars (String.append a b) = (chars a ++ chars b)%list.
Proof.
  unfold chars. induction a as [|c a IH]; [reflexivity|].
  change (c :: list_ascii_of_string (String.append a b)
          = c :: (list_ascii_of_string a ++ list_ascii_of_string b)%list).
  f_equal. exact IH.
Qed.

Lemma chars_py_lower (s : string) : chars (py_lower s) = map lower_char (chars s).
Proof. unfold py_lower. apply chars_text. Qed.

Lemma same_letter_lower (a b : ascii) : same_letter a (lower_char b) = same_letter a b.
Proof. unfold same_letter. rewrite lower_char_idempotent. reflexivity. Qed.

Lemma istrip_prefix_lower (t : list ascii) :
  forall prev s,
    istrip_prefix t (lower_prev prev) (map lower_char s) =
    match istrip_prefix t prev s with
    | Some (prev', s') => Some (lower_prev prev', map lower_char s')
    | None => None
    end.
Proof.
  induction t as [|a t IH]; intros prev s; cbn [istrip_prefix]; [reflexivity|].
  destruct s as [|b s]; cbn [map]; [reflexivity|].
  rewrite same_letter_lower. destruct (same_letter a b); [|reflexivity].
  apply (IH (Some b) s).
Qed.

Lemma lazy_loop_lower (s : list ascii) :
  forall prev k k',
    (forall p x, k' (lower_prev p) (map lower_char x) = k p x) ->
    lazy_loop (lower_prev prev) (map lower_char s) k' = lazy_loop prev s k.
Proof.
  induction s as [|c s IH]; intros prev k k' Hk; cbn [lazy_loop map].
  - apply (Hk prev []).
  - rewrite is_newline_lower.
    change (Some (lower_char c)) with (lower_prev (Some c)).
    rewrite (IH (Some c) k k' Hk).
    rewrite <- (Hk prev (c :: s)). reflexivity.
Qed.

Lemma pmatch_lower (r : pattern) :
  forall prev s k k',
    (forall p x, k' (lower_prev p) (map lower_char x) = k p x) ->
    pmatch r (lower_prev prev) (map lower_char s) k' = pmatch r prev s k.
Proof.
  induction r as [t| | |r1 IH1 r2 IH2|r1 IH1 r2 IH2|r IH]; intros prev s k k' Hk;
    cbn [pmatch].
  - rewrite istrip_prefix_lower.
    destruct (istrip_prefix (chars t) prev s) as [[prev' s']|]; [apply Hk|reflexivity].
  - apply lazy_loop_lower. exact Hk.
  - assert (Hb : word_before (lower_prev prev) = word_before prev).
    { destruct prev; cbn; [apply is_word_lower|reflexivity]. }
    assert (Ha : word_after (map lower_char s) = word_after s).
    { destruct s; cbn; [reflexivity|apply is_word_lower]. }
    rewrite Hb, Ha. destruct (xorb _ _); [apply Hk|reflexivity].
  - apply IH1. intros p x. apply IH2. exact Hk.
  - rewrite (IH1 prev s k k' Hk), (IH2 prev s k k' Hk). reflexivity.
  - rewrite (IH prev s k k' Hk), (Hk prev s). reflexivity.
Qed.

Lemma psearch_lower (r : pattern) (s : list ascii) :
  forall prev,
    psearch r (lower_prev prev) (map lower_char s) = psearch r prev s.
Proof.
  induction s as [|c s IH]; intros prev.
  - pose proof (pmatch_lower r prev [] (fun _ _ => true) (fun _ _ => true)) as H.
    cbn [map] in H. cbn [psearch map]. rewrite H by auto. reflexivity.
  - pose proof (pmatch_lower r prev (c :: s) (fun _ _ => true) (fun _ _ => true)) as H.
    cbn [map] in H. cbn [psearch map]. rewrite H by auto.
    change (Some (lower_char c)) with (lower_prev (Some c)).
    rewrite (IH (Some c)). reflexivity.
Qed.

(** The search in the lower-cased text is the search in the text. *)
Lemma re_search_i_lower (r : pattern) (s : string) :
  re_search_i r (py_lower s) = re_search_i r s.
Proof.
  unfold re_search_i. rewrite chars_py_lower. apply (psearch_lower r (chars s) None).
Qed.

Lemma first_match_existsb (patterns : list pattern) (combined : string) :
  first_match patterns combined = existsb (fun r => re_search_i r combined) patterns.
Proof.
  induction patterns as [|r rest IH]; cbn [first_match existsb]; [reflexivity|].
  destruct (re_search_i r combined); [reflexivity|exact IH].
Qed.

(** Both filters look for one of their patterns in [subject content]. *)
Lemma filter_searches (patterns : list pattern) (subject email_content : string) :
  existsb (fun r => re_search_i r
                      (py_lower (String.append (String.append subject " ") email_content)))
    patterns = true <->
  exists r, In r patterns /\
            psearch r None (chars subject ++ chars " " ++ chars email_content) = true.
Proof.
  rewrite existsb_exists. split; intros (r & Hin & H); exists r; (split; [exact Hin|]).
  - rewrite re_search_i_lower in H. unfold re_search_i in H.
    rewrite !chars_append, <- app_assoc in H. exact H.
  - rewrite re_search_i_lower. unfold re_search_i.
    rewrite !chars_append, <- app_assoc. exact H.
Qed.

(** ** [is_allowed_booking_email]: two words decide *)

Lemma mentions_inside (t : string) (pre w post : list ascii) :
  mentions t w -> mentions t (pre ++ w ++ post).
Proof.
  intros (a & x & b & -> & Hx). exists (pre ++ a)%list, x, (b ++ post)%list.
  split; [|exact Hx]. rewrite <- !app_assoc. reflexivity.
Qed.

Lemma covers_lit (t t' : string) (a b : list ascii) :
  map lower_char (chars t') = (a ++ chars t ++ b)%list -> covers t (PLit t').
Proof.
  intros Ht prev s prev' s' H. inversion H; subst.
  exists w. split; [reflexivity|].
  match goal with Hw : map lower_char w = _ |- _ =>
    rewrite Ht in Hw; apply map_eq_app in Hw;
    destruct Hw as (wa & w1 & -> & Ha & Hrest) end.
  apply map_eq_app in Hrest. destruct Hrest as (wt & wb & -> & Hwt & Hb).
  exists wa, wt, wb. auto.
Qed.

Lemma covers_cat_l (t : string) (r1 r2 : pattern) :
  covers t r1 -> covers t (PCat r1 r2).
Proof.
  intros Hc prev s prev' s' H. inversion H; subst.
  match goal with H1 : pruns r1 _ _ _ _ |- _ =>
    destruct (Hc _ _ _ _ H1) as (w1 & -> & Hm) end.
  match goal with H2 : pruns r2 _ _ _ _ |- _ =>
    destruct (pruns_reads _ _ _ _ _ H2) as (w2 & -> & _) end.
  exists (w1 ++ w2)%list. split; [rewrite app_assoc; reflexivity|].
  apply (mentions_inside t [] w1 w2). exact Hm.
Qed.

Lemma covers_cat_r (t : string) (r1 r2 : pattern) :
  covers t r2 -> covers t (PCat r1 r2).
Proof.
  intros Hc prev s prev' s' H. inversion H; subst.
  match goal with H2 : pruns r2 _ _ _ _ |- _ =>
    destruct (Hc _ _ _ _ H2) as (w2 & -> & Hm) end.
  match goal with H1 : pruns r1 _ _ _ _ |- _ =>
    destruct (pruns_reads _ _ _ _ _ H1) as (w1 & -> & _) end.
  exists (w1 ++ w2)%list. split; [rewrite app_assoc; reflexivity|].
  pose proof (mentions_inside t w1 w2 [] Hm) as Hm'.
  rewrite app_nil_r in Hm'. exact Hm'.
Qed.

Ltac covers_word a b :=
  apply (covers_lit _ _ (chars a) (chars b)); reflexivity.

(** Every pattern of the filter needs the word booking or the word amend. *)
Lemma allowed_patterns_cover (r : pattern) :
  In r allowed_patterns -> covers "booking" r \/ covers "amend" r.
Proof.
  unfold allowed_patterns. cbn [In].
  intros [<-|[<-|[<-|[<-|[<-|[<-|[<-|[<-|[<-|[<-|[<-|[<-|[]]]]]]]]]]]]].
  - left. covers_word "new " "".
  - left. covers_word "" "".
  - left. covers_word "" " confirmation".
  - left. covers_word "" " details".
  - left. covers_word "" " detail change".
  - left. covers_word "change " "".
  - right. apply covers_cat_l. covers_word "" "".
  - left. apply covers_cat_r, covers_cat_r. covers_word " " "".
  - left. covers_word "urgent " "".
  - left. covers_word "urgent: new " " received".
  - left. apply covers_cat_r, covers_cat_r. covers_word " " "".
  - left. covers_word "" " cancelled".
Qed.

Lemma psearch_covers (t : string) (r : pattern) (s : list ascii) :
  covers t r -> psearch r None s = true -> mentions t s.
Proof.
  intros Hc H. apply psearch_iff in H.
  destruct H as (pre & s1 & prev' & s' & -> & Hrun).
  destruct (Hc _ _ _ _ Hrun) as (w & -> & Hm).
  apply mentions_inside. exact Hm.
Qed.

Lemma psearch_lit (t : string) (s : list ascii) :
  map lower_char (chars t) = chars t -> mentions t s -> psearch (PLit t) None s = true.
Proof.
  intros Ht (pre & w & post & -> & Hw). apply psearch_iff.
  exists pre, (w ++ post)%list, (prev_after (prev_after None pre) w), post.
  split; [reflexivity|]. constructor. unfold reads in Hw. rewrite Hw, Ht. reflexivity.
Qed.

(** X13. [is_allowed_booking_email] answers [True] exactly when the subject
    and the text, joined by a space, hold the word booking or the word
    amend, in any case: the other ten patterns add nothing. *)
Theorem allowed_iff_booking_or_amend (subject email_content : string) :
  is_allowed_booking_email subject email_content = true <->
  mentions "booking" (chars subject ++ chars " " ++ chars email_content) \/
  mentions "amend" (chars subject ++ chars " " ++ chars email_content).
Proof.
  unfold is_allowed_booking_email. cbv zeta. rewrite filter_searches. split.
  - intros (r & Hin & H).
    destruct (allowed_patterns_cover r Hin) as [Hc|Hc];
      [left|right]; apply (psearch_covers _ r _ Hc H).
  - intros [H|H].
    + exists (PLit "booking"). split; [cbn; auto|].
      apply psearch_lit; [reflexivity|exact H].
    + exists (PCat (PLit "amend") (POpt (PAlt (PLit "ment") (PLit "ed")))).
      split; [cbn; auto 10|].
      destruct H as (pre & w & post & -> & Hw). apply psearch_iff.
      exists pre, (w ++ post)%list, (prev_after (prev_after None pre) w), post.
      split; [reflexivity|].
      apply (pruns_cat _ _ _ _ (prev_after (prev_after None pre) w) post).
      * constructor. unfold reads in Hw. rewrite Hw. reflexivity.
      * apply pruns_opt_none.
Qed.

(** ** [detect_amendment]: the signs of an amendment *)

Lemma pruns_lit_iff (t : string) (prev : option ascii) (s : list ascii)
    (prev' : option ascii) (s' : list ascii) :
  pruns (PLit t) prev s prev' s' <->
  exists w, s = (w ++ s')%list /\ map lower_char w = map lower_char (chars t) /\
            prev' = prev_after prev w.
Proof.
  split.
  - intros H. inversion H; subst. exists w. auto.
  - intros (w & -> & Hw & ->). constructor. exact Hw.
Qed.

Lemma pruns_lazy_iff (prev : option ascii) (s : list ascii)
    (prev' : option ascii) (s' : list ascii) :
  pruns PLazy prev s prev' s' <->
  exists w, s = (w ++ s')%list /\ same_line w /\ prev' = prev_after prev w.
Proof.
  split.
  - intros H. inversion H; subst. exists w. auto.
  - intros (w & -> & Hw & ->). constructor. exact Hw.
Qed.

Lemma pruns_bound_iff (prev : option ascii) (s : list ascii)
    (prev' : option ascii) (s' : list ascii) :
  pruns PBound prev s prev' s' <->
  s' = s /\ prev' = prev /\ xorb (word_before prev) (word_after s) = true.
Proof.
  split.
  - intros H. inversion H; subst. auto.
  - intros (-> & -> & H). constructor. exact H.
Qed.

Lemma pruns_cat_iff (r1 r2 : pattern) (prev : option ascii) (s : list ascii)
    (prev' : option ascii) (s' : list ascii) :
  pruns (PCat r1 r2) prev s prev' s' <->
  exists prev1 s1, pruns r1 prev s prev1 s1 /\ pruns r2 prev1 s1 prev' s'.
Proof.
  split.
  - intros H. inversion H; subst. eauto.
  - intros (prev1 & s1 & H1 & H2). econstructor; eassumption.
Qed.

Lemma pruns_alt_iff (r1 r2 : pattern) (prev : option ascii) (s : list ascii)
    (prev' : option ascii) (s' : list ascii) :
  pruns (PAlt r1 r2) prev s prev' s' <->
  pruns r1 prev s prev' s' \/ pruns r2 prev s prev' s'.
Proof.
  split.
  - intros H. inversion H; subst; auto.
  - intros [H|H]; [apply pruns_alt_l|apply pruns_alt_r]; exact H.
Qed.

(** A literal in lower case is read by the texts that spell it. *)
Lemma pruns_word (t t' : string) (prev : option ascii) (s : list ascii)
    (prev' : option ascii) (s' : list ascii) :
  map lower_char (chars t') = chars t ->
  (pruns (PLit t') prev s prev' s' <->
   exists w, s = (w ++ s')%list /\ reads t w /\ prev' = prev_after prev w).
Proof.
  intros Ht. rewrite pruns_lit_iff. unfold reads. rewrite Ht. reflexivity.
Qed.

Lemma pruns_field_words (prev : option ascii) (s : list ascii)
    (prev' : option ascii) (s' : list ascii) :
  pruns field_words prev s prev' s' <->
  exists f, s = (f ++ s')%list /\ is_field f /\ prev' = prev_after prev f.
Proof.
  unfold field_words, is_field.
  rewrite !pruns_alt_iff.
  rewrite (pruns_word "date" "Date"), (pruns_word "pickup" "Pickup"),
    (pruns_word "address" "Address"), (pruns_word "time" "Time"),
    (pruns_word "participants" "Participants") by reflexivity.
  split.
  - intros [H|[H|[H|[H|H]]]]; destruct H as (f & -> & Hf & ->); exists f; tauto.
  - intros (f & -> & [H|[H|[H|[H|H]]]] & ->);
      [left|right; left|right; right; left|right; right; right; left
      |right; right; right; right]; exists f; auto.
Qed.

Lemma tilde_only (c : ascii) : lower_char c = "~"%char -> c = "~"%char.
Proof.
  destruct c as [[] [] [] [] [] [] [] []]; vm_compute; intros H;
    first [reflexivity|discriminate H].
Qed.

Lemma reads_tildes (w : list ascii) : reads "~~" w <-> w = chars "~~".
Proof.
  unfold reads. split.
  - intros H. destruct w as [|a [|b [|c w]]]; try discriminate.
    cbn in H. injection H as Ha Hb.
    apply tilde_only in Ha. apply tilde_only in Hb. subst. reflexivity.
  - intros ->. reflexivity.
Qed.

(** The word new begins and ends with a word character. *)
Lemma reads_new (w : list ascii) :
  reads "new" w ->
  exists a b c, w = [a; b; c] /\ is_word a = true /\ is_word c = true.
Proof.
  unfold reads. intros H. destruct w as [|a [|b [|c [|d w]]]]; try discriminate.
  cbn in H. injection H as Ha Hb Hc.
  exists a, b, c. split; [reflexivity|].
  rewrite <- (is_word_lower a), <- (is_word_lower c), Ha, Hc. split; reflexivity.
Qed.

(** [\bNew\b] at a position: the word new that stands alone. *)
Lemma pruns_new_word (rest : pattern) (prev : option ascii) (s : list ascii)
    (prev' : option ascii) (s' : list ascii) :
  pruns (PCat PBound (PCat (PLit "New") (PCat PBound rest))) prev s prev' s' <->
  exists w s1,
    s = (w ++ s1)%list /\ reads "new" w /\
    word_before prev = false /\ word_after s1 = false /\
    pruns rest (prev_after prev w) s1 prev' s'.
Proof.
  rewrite pruns_cat_iff. split.
  - intros (p1 & x1 & H1 & H). apply pruns_bound_iff in H1.
    destruct H1 as (-> & -> & Hb1).
    apply pruns_cat_iff in H. destruct H as (p2 & x2 & H2 & H).
    apply (pruns_word "new" "New") in H2; [|reflexivity].
    destruct H2 as (w & -> & Hw & ->).
    apply pruns_cat_iff in H. destruct H as (p3 & x3 & H3 & H).
    apply pruns_bound_iff in H3. destruct H3 as (-> & -> & Hb2).
    destruct (reads_new w Hw) as (a & b & c & -> & Ha & Hc).
    cbn in Hb1, Hb2. rewrite Ha in Hb1. rewrite Hc in Hb2.
    exists [a; b; c], x2. split; [reflexivity|]. split; [exact Hw|].
    split; [destruct (word_before prev); [discriminate|reflexivity]|].
    split; [destruct (word_after x2); [discriminate|reflexivity]|].
    exact H.
  - intros (w & s1 & -> & Hw & Hb & Ha & H).
    destruct (reads_new w Hw) as (a & b & c & -> & Hwa & Hwc).
    exists prev, ([a; b; c] ++ s1)%list. split.
    + apply pruns_bound_iff. cbn. rewrite Hb, Hwa. auto.
    + apply pruns_cat_iff. exists (prev_after prev [a; b; c]), s1. split.
      * apply (pruns_word "new" "New"); [reflexivity|]. exists [a; b; c]. auto.
      * apply pruns_cat_iff. exists (prev_after prev [a; b; c]), s1.
        split; [|exact H]. apply pruns_bound_iff. cbn. rewrite Ha, Hwc. auto.
Qed.

(** [\bNew\b] as the end of a pattern. *)
Lemma pruns_new_word_end (prev : option ascii) (s : list ascii)
    (prev' : option ascii) (s' : list ascii) :
  pruns (PCat PBound (PCat (PLit "New") PBound)) prev s prev' s' <->
  exists w,
    s = (w ++ s')%list /\ reads "new" w /\
    word_before prev = false /\ word_after s' = false /\
    prev' = prev_after prev w.
Proof.
  rewrite pruns_cat_iff. split.
  - intros (p1 & x1 & H1 & H). apply pruns_bound_iff in H1.
    destruct H1 as (-> & -> & Hb1).
    apply pruns_cat_iff in H. destruct H as (p2 & x2 & H2 & H3).
    apply (pruns_word "new" "New") in H2; [|reflexivity].
    destruct H2 as (w & -> & Hw & ->).
    apply pruns_bound_iff in H3. destruct H3 as (-> & -> & Hb2).
    destruct (reads_new w Hw) as (a & b & c & -> & Ha & Hc).
    cbn in Hb1, Hb2. rewrite Ha in Hb1. rewrite Hc in Hb2.
    exists [a; b; c]. split; [reflexivity|]. split; [exact Hw|].
    split; [destruct (word_before prev); [discriminate|reflexivity]|].
    split; [destruct (word_after x2); [discriminate|reflexivity]|].
    reflexivity.
  - intros (w & -> & Hw & Hb & Ha & ->).
    destruct (reads_new w Hw) as (a & b & c & -> & Hwa & Hwc).
    exists prev, ([a; b; c] ++ s')%list. split.
    + apply pruns_bound_iff. cbn. rewrite Hb, Hwa. auto.
    + apply pruns_cat_iff. exists (prev_after prev [a; b; c]), s'. split.
      * apply (pruns_word "new" "New"); [reflexivity|]. exists [a; b; c]. auto.
      * apply pruns_bound_iff. cbn. rewrite Ha, Hwc. auto.
Qed.

Lemma search_keyword (t : string) (s : list ascii) :
  map lower_char (chars t) = chars t ->
  (psearch (PLit t) None s = true <-> mentions t s).
Proof.
  intros Ht. split.
  - apply psearch_covers. apply (covers_lit t t [] []).
    rewrite Ht, app_nil_r. reflexivity.
  - apply psearch_lit. exact Ht.
Qed.

Lemma search_struck (s : list ascii) :
  psearch (PCat (PLit "~~") (PCat PLazy (PLit "~~"))) None s = true <-> struck s.
Proof.
  rewrite psearch_iff. unfold struck. split.
  - intros (pre & s1 & p' & s' & -> & H).
    apply pruns_cat_iff in H. destruct H as (p1 & x1 & H1 & H).
    apply (pruns_word "~~" "~~") in H1; [|reflexivity].
    destruct H1 as (a & -> & Ha & ->). apply (proj1 (reads_tildes a)) in Ha. subst a.
    apply pruns_cat_iff in H. destruct H as (p2 & x2 & H2 & H3).
    apply pruns_lazy_iff in H2. destruct H2 as (mid & -> & Hmid & ->).
    apply (pruns_word "~~" "~~") in H3; [|reflexivity].
    destruct H3 as (b & -> & Hb & ->). apply (proj1 (reads_tildes b)) in Hb. subst b.
    exists pre, mid, s'. auto.
  - intros (pre & mid & post & -> & Hmid).
    exists pre, (chars "~~" ++ mid ++ chars "~~" ++ post)%list.
    eexists _, post. split; [reflexivity|].
    apply pruns_cat_iff. eexists _, (mid ++ chars "~~" ++ post)%list. split.
    + apply (pruns_word "~~" "~~"); [reflexivity|].
      exists (chars "~~"). split; [reflexivity|]. split; [reflexivity|reflexivity].
    + apply pruns_cat_iff. eexists _, (chars "~~" ++ post)%list. split.
      * apply pruns_lazy_iff. exists mid. auto.
      * apply (pruns_word "~~" "~~"); [reflexivity|].
        exists (chars "~~"). split; [reflexivity|]. split; reflexivity.
Qed.

Lemma search_new_then_field (s : list ascii) :
  psearch (PCat PBound (PCat (PLit "New") (PCat PBound (PCat PLazy field_words))))
    None s = true <->
  new_then_field s.
Proof.
  rewrite psearch_iff. unfold new_then_field, stands_alone. split.
  - intros (pre & s1 & p' & s' & -> & H).
    apply pruns_new_word in H.
    destruct H as (w & x1 & -> & Hw & Hb & Ha & H).
    apply pruns_cat_iff in H. destruct H as (p2 & x2 & H2 & H3).
    apply pruns_lazy_iff in H2. destruct H2 as (mid & -> & Hmid & ->).
    apply pruns_field_words in H3. destruct H3 as (f & -> & Hf & ->).
    exists pre, w, mid, f, s'. auto.
  - intros (pre & w & mid & f & post & -> & Hw & [Hb Ha] & Hmid & Hf).
    exists pre, (w ++ mid ++ f ++ post)%list. eexists _, post.
    split; [reflexivity|].
    apply pruns_new_word. exists w, (mid ++ f ++ post)%list.
    split; [reflexivity|]. split; [exact Hw|]. split; [exact Hb|].
    split; [exact Ha|].
    apply pruns_cat_iff. eexists _, (f ++ post)%list. split.
    + apply pruns_lazy_iff. exists mid. auto.
    + apply pruns_field_words. exists f. auto.
Qed.

Lemma search_field_then_new (s : list ascii) :
  psearch (PCat field_words (PCat PLazy (PCat PBound (PCat (PLit "New") PBound))))
    None s = true <->
  field_then_new s.
Proof.
  rewrite psearch_iff. unfold field_then_new, stands_alone. split.
  - intros (pre & s1 & p' & s' & -> & H).
    apply pruns_cat_iff in H. destruct H as (p1 & x1 & H1 & H).
    apply pruns_field_words in H1. destruct H1 as (f & -> & Hf & ->).
    apply pruns_cat_iff in H. destruct H as (p2 & x2 & H2 & H3).
    apply pruns_lazy_iff in H2. destruct H2 as (mid & -> & Hmid & ->).
    apply pruns_new_word_end in H3.
    destruct H3 as (w & -> & Hw & Hb & Ha & ->).
    exists pre, f, mid, w, s'.
    split; [reflexivity|]. split; [exact Hf|]. split; [exact Hmid|].
    split; [exact Hw|]. split; [|exact Ha].
    rewrite !prev_after_app. exact Hb.
  - intros (pre & f & mid & w & post & -> & Hf & Hmid & Hw & [Hb Ha]).
    exists pre, (f ++ mid ++ w ++ post)%list. eexists _, post.
    split; [reflexivity|].
    apply pruns_cat_iff. eexists _, (mid ++ w ++ post)%list. split.
    + apply pruns_field_words. exists f. auto.
    + apply pruns_cat_iff. eexists _, (w ++ post)%list. split.
      * apply pruns_lazy_iff. exists mid. auto.
      * apply pruns_new_word_end. exists w.
        split; [reflexivity|]. split; [exact Hw|].
        rewrite !prev_after_app in Hb. auto.
Qed.

(** X14. [detect_amendment] answers [True] exactly when the subject and
    the text, joined by a space, show one of these, in any case: two pairs
    of tildes on one line; the word new standing alone and after it, on the
    same line, one of date, pickup, address, time, participants; one of
    these and after it, on the same line, the word new standing alone; or
    one of amended, updated, changed, modification. *)
Theorem amendment_iff_evidence (email_content subject : string) :
  detect_amendment email_content subject = true <->
  amendment_evidence (chars subject ++ chars " " ++ chars email_content).
Proof.
  unfold detect_amendment. cbv zeta. rewrite first_match_existsb, filter_searches.
  unfold amendment_evidence, amendment_patterns.
  rewrite <- search_struck, <- search_new_then_field, <- search_field_then_new.
  rewrite <- (search_keyword "amended"), <- (search_keyword "updated"),
    <- (search_keyword "changed"), <- (search_keyword "modification") by reflexivity.
  cbn [In]. split.
  - intros (r & Hin & H).
    destruct Hin as [<-|[<-|[<-|[<-|[<-|[<-|[<-|[]]]]]]]]; tauto.
  - intros [H|[H|[H|[H|[H|[H|H]]]]]]; eexists; (split; [|exact H]); auto 10.
Qed.

(** ** The loop of [main] *)

Lemma process_email_effect (clock : nat -> Z) (USE_G4F : bool) (email_content : string)
    (is_amendment : bool) (g4f_response : result value) (hf_response : http_outcome)
    (st : state) :
  outcome_effect
    (process_email clock USE_G4F email_content is_amendment g4f_response hf_response st).1
    st
    (process_email clock USE_G4F email_content is_amendment g4f_response hf_response st).2.
Proof.
  unfold process_email.
  destruct (let? greeting_name := extract_greeting_name email_content in
            let? parsed := parse_with_ai USE_G4F g4f_response hf_response in
            Ok (greeting_name, parsed)) as [[g parsed]|x].
  - unfold process_parsed.
    pose proof (try_body_effect clock is_amendment g parsed st) as H.
    destruct (try_body clock is_amendment g parsed st) as [[o|y] st'];
      cbn [fst snd]; [exact H|].
    destruct H as [Hc Hn]. cbn [outcome_effect]. split; [exact Hc|].
    unfold counters in *. cbn. inversion Hn. reflexivity.
  - cbn. auto.
Qed.

Lemma outcome_effect_totals (o : outcome) (st st' : state) :
  outcome_effect o st st' -> totals 1 st st'.
Proof.
  unfold totals.
  destruct o; cbn [outcome_effect]; intros H; unfold counters in H;
    repeat match goal with
           | H : _ /\ _ |- _ => destruct H
           | H : (_, _) = (_, _) |- _ => inversion H; clear H
           | H : collection _ = collection _ |- _ => rewrite H
           end; lia.
Qed.

Lemma process_message_totals (clock : nat -> Z) (USE_G4F : bool) (f : fetched)
    (st : state) :
  totals 1 st (process_message clock USE_G4F f st).2.
Proof.
  unfold process_message. destruct f as [e|m].
  - cbn [snd]. unfold totals. cbn. lia.
  - destruct (is_allowed_booking_email _ _); cbn [negb].
    + pose proof (process_email_effect clock USE_G4F (msg_content m)
                    (detect_amendment (msg_content m) (msg_subject m))
                    (msg_g4f m) (msg_hf m) st) as H.
      destruct (process_email _ _ _ _ _ _ _) as [o st']. cbn [fst snd] in *.
      apply (outcome_effect_totals o). exact H.
    + cbn [snd]. unfold totals. lia.
Qed.

Lemma totals_trans (n m : nat) (st1 st2 st3 : state) :
  totals n st1 st2 -> totals m st2 st3 -> totals (n + m) st1 st3.
Proof. unfold totals. intros H1 H2. lia. Qed.

Lemma run_messages_totals (clock : nat -> Z) (USE_G4F : bool) (msgs : list fetched) :
  forall st,
    List.length (run_messages clock USE_G4F msgs st).1 = List.length msgs /\
    totals (List.length msgs) st (run_messages clock USE_G4F msgs st).2.
Proof.
  induction msgs as [|f rest IH]; intros st; cbn [run_messages].
  - cbn [fst snd List.length]. split; [reflexivity|]. unfold totals. lia.
  - pose proof (process_message_totals clock USE_G4F f st) as H1.
    destruct (process_message clock USE_G4F f st) as [a st1]. cbn [snd] in H1.
    destruct (IH st1) as [Hlen H2].
    destruct (run_messages clock USE_G4F rest st1) as [answers st2].
    cbn [fst snd List.length] in *. split; [rewrite Hlen; reflexivity|].
    apply (totals_trans 1 (List.length rest) st st1 st2 H1 H2).
Qed.

Lemma last_five_length {A : Type} (l : list A) :
  List.length (last_five l) = Nat.min 5 (List.length l).
Proof. unfold last_five. rewrite length_skipn. lia. Qed.

(** X15. A run of the loop handles the last five messages of the mailbox,
    or all of them when there are fewer.  After it the number of records is
    the number before plus the new bookings minus the cancellations that
    were matched; the messages counted as processed or as errors are at most
    the messages handled; and the new, amended, duplicate and cancelled
    messages together are at most the processed ones.  No counter goes
    down. *)
Theorem run_totals (clock : nat -> Z) (USE_G4F : bool) (mailbox : list fetched)
    (st : state) :
  List.length (main_loop clock USE_G4F mailbox st).1 = Nat.min 5 (List.length mailbox) /\
  totals (Nat.min 5 (List.length mailbox)) st (main_loop clock USE_G4F mailbox st).2.
Proof.
  unfold main_loop.
  destruct (run_messages_totals clock USE_G4F (last_five mailbox) st) as [Hlen Ht].
  rewrite last_five_length in Hlen, Ht. split; assumption.
Qed.

Lemma last_five_app {A : Type} (older recent : list A) :
  List.length recent = 5%nat -> last_five (older ++ recent) = recent.
Proof.
  intros H. unfold last_five. rewrite length_app, H.
  replace (List.length older + 5 - 5)%nat with (List.length older + 0)%nat by lia.
  rewrite skipn_app, Nat.add_0_r, skipn_all.
  replace (List.length older - List.length older)%nat with 0%nat by lia.
  reflexivity.
Qed.

(** X16. Only the last five messages count: whatever precedes them in the
    mailbox, the run answers the five and ends in the same state. *)
Theorem older_messages_ignored (clock : nat -> Z) (USE_G4F : bool)
    (older recent : list fetched) (st : state) :
  List.length recent = 5%nat ->
  main_loop clock USE_G4F (older ++ recent) st = run_messages clock USE_G4F recent st.
Proof.
  intros H. unfold main_loop. rewrite (last_five_app older recent H). reflexivity.
Qed.

Lemma older_messages_ignored_witness :
  main_loop Z.of_nat true mailbox_seven state_gyg4
  = run_messages Z.of_nat true
      [ mail_new; mail_amendment; FetchFailed ConnectionError;
        mail_cancellation; mail_no_reference ] state_gyg4.
Proof.
  apply (older_messages_ignored Z.of_nat true [mail_other; mail_other]
           [ mail_new; mail_amendment; FetchFailed ConnectionError;
             mail_cancellation; mail_no_reference ] state_gyg4).
  reflexivity.
Defined.

(** The run of the seven messages on a store of two records. *)
Example run_of_seven :
  (main_loop Z.of_nat true mailbox_seven state_gyg4).1
  = [ Answered NewBooking;
      Answered (Amended ["tourDate"]);
      Answered (Failed ConnectionError);
      Answered (Cancelled (VStr "GYG4"));
      Answered NoReference ] /\
  counters (main_loop Z.of_nat true mailbox_seven state_gyg4).2
  = (3, 1, 1, 1, 0, 1)%nat /\
  List.length (collection (main_loop Z.of_nat true mailbox_seven state_gyg4).2) = 2%nat.
Proof. repeat split; vm_compute; reflexivity. Qed.

(** X17. A message whose subject and text hold neither the word booking
    nor the word amend is skipped: nothing is extracted from it, whatever
    the services would answer, and the state stays as it was. *)
Theorem other_mail_skipped (clock : nat -> Z) (USE_G4F : bool) (m : message)
    (st : state) :
  ~ mentions "booking" (chars (msg_subject m) ++ chars " " ++ chars (msg_content m)) ->
  ~ mentions "amend" (chars (msg_subject m) ++ chars " " ++ chars (msg_content m)) ->
  process_message clock USE_G4F (Fetched m) st = (NotAllowed, st).
Proof.
  intros Hb Ha. unfold process_message.
  destruct (is_allowed_booking_email (msg_subject m) (msg_content m)) eqn:E;
    [|reflexivity].
  exfalso. unfold is_allowed_booking_email in E. cbv zeta in E.
  apply filter_searches in E. destruct E as (r & Hin & H).
  destruct (allowed_patterns_cover r Hin) as [Hc|Hc].
  - apply Hb. apply (psearch_covers _ r _ Hc H).
  - apply Ha. apply (psearch_covers _ r _ Hc H).
Qed.

Lemma other_mail_skipped_witness :
  process_message Z.of_nat true
    (Fetched (mkMessage "Your weekly summary" "Nothing to do."
                (Raise ConnectionError) (HttpFailed ConnectionError)))
    empty_state
  = (NotAllowed, empty_state).
Proof.
  apply (other_mail_skipped Z.of_nat true
           (mkMessage "Your weekly summary" "Nothing to do."
              (Raise ConnectionError) (HttpFailed ConnectionError))
           empty_state).
  - intros H. apply (proj2 (search_keyword "booking" _ eq_refl)) in H.
    vm_compute in H. discriminate H.
  - intros H. apply (proj2 (search_keyword "amend" _ eq_refl)) in H.
    vm_compute in H. discriminate H.
Defined.

(** ** The text handed to [json.loads] *)

Lemma cut_sound (sep s a b : list ascii) :
  cut sep s = Some (a, b) -> s = (a ++ sep ++ b)%list.
Proof.
  revert a b. induction s as [|c s IH]; intros a b; cbn [cut].
  - destruct (strip_prefix sep []) as [rest|] eqn:E; [|discriminate].
    intros H. injection H as <- <-. apply strip_prefix_app in E. exact E.
  - destruct (strip_prefix sep (c :: s)) as [rest|] eqn:E.
    + intros H. injection H as <- <-. apply strip_prefix_app in E. exact E.
    + destruct (cut sep s) as [[a' b']|]; [|discriminate].
      intros H. injection H as <- <-. rewrite (IH a' b' eq_refl). reflexivity.
Qed.

Lemma free_of_app (c : ascii) (a b : list ascii) :
  free_of c (a ++ b) = free_of c a && free_of c b.
Proof. unfold free_of. apply forallb_app. Qed.

Lemma strip_prefix_other (c x : ascii) (sep s : list ascii) :
  Ascii.eqb x c = false -> strip_prefix (c :: sep) (x :: s) = None.
Proof.
  intros H. cbn [strip_prefix]. rewrite Ascii.eqb_sym, H. reflexivity.
Qed.

Lemma cut_prefix (sep b : list ascii) : cut sep (sep ++ b) = Some ([], b).
Proof.
  pose proof (proj2 (strip_prefix_app sep (sep ++ b) b) eq_refl) as H.
  destruct (sep ++ b)%list; cbn [cut]; rewrite H; reflexivity.
Qed.

Lemma cut_free (c : ascii) (sep a b : list ascii) :
  free_of c a = true -> cut (c :: sep) (a ++ (c :: sep) ++ b) = Some (a, b).
Proof.
  induction a as [|x a IH]; intros H.
  - exact (cut_prefix (c :: sep) b).
  - cbn [free_of forallb] in H. apply andb_true_iff in H. destruct H as [Hx Ha].
    apply negb_true_iff in Hx.
    change ((x :: a) ++ (c :: sep) ++ b)%list with (x :: (a ++ (c :: sep) ++ b))%list.
    cbn [cut]. rewrite (strip_prefix_other c x sep _ Hx).
    rewrite (IH Ha). reflexivity.
Qed.

Lemma cut_none_free (c : ascii) (sep s : list ascii) :
  free_of c s = true -> cut (c :: sep) s = None.
Proof.
  induction s as [|x s IH]; intros H.
  - reflexivity.
  - cbn [free_of forallb] in H. apply andb_true_iff in H. destruct H as [Hx Hs].
    apply negb_true_iff in Hx.
    cbn [cut]. rewrite (strip_prefix_other c x sep _ Hx).
    rewrite (IH Hs). reflexivity.
Qed.

Lemma split_fuel_enough (c : ascii) (sep : list ascii) (n : nat) :
  forall (m : nat) (s : list ascii),
    (List.length s <= n)%nat -> (List.length s <= m)%nat ->
    split_fuel n (c :: sep) s = split_fuel m (c :: sep) s.
Proof.
  induction n as [|n IH]; intros m s Hn Hm.
  - destruct s; [|cbn in Hn; lia].
    destruct m; reflexivity.
  - destruct m as [|m].
    + destruct s; [|cbn in Hm; lia]. reflexivity.
    + cbn [split_fuel].
      destruct (cut (c :: sep) s) as [[a b]|] eqn:E; [|reflexivity].
      apply cut_sound in E.
      assert (List.length b < List.length s)%nat as Hlt.
      { rewrite E. rewrite !length_app. cbn [List.length]. lia. }
      rewrite (IH m b) by lia. reflexivity.
Qed.

Lemma split_on_cut (c : ascii) (sep s : list ascii) :
  split_on (c :: sep) s =
  match cut (c :: sep) s with
  | Some (a, b) => a :: split_on (c :: sep) b
  | None => [s]
  end.
Proof.
  unfold split_on. destruct s as [|x s].
  - reflexivity.
  - cbn [List.length split_fuel].
    destruct (cut (c :: sep) (x :: s)) as [[a b]|] eqn:E; [|reflexivity].
    apply cut_sound in E.
    assert (List.length b <= List.length s)%nat as Hle.
    { apply (f_equal (@List.length ascii)) in E. rewrite !length_app in E.
      cbn [List.length] in E. lia. }
    rewrite (split_fuel_enough c sep (List.length s) (List.length b) b Hle (le_n _)).
    reflexivity.
Qed.

Lemma fence_cons : fence = ("`" :: chars "``")%char.
Proof. reflexivity. Qed.

Lemma split_join (parts : list (list ascii)) :
  forallb (free_of "`") parts = true -> parts <> [] ->
  split_on fence (join fence parts) = parts.
Proof.
  rewrite fence_cons.
  induction parts as [|p rest IH]; intros H Hne; [congruence|].
  cbn [forallb] in H. apply andb_true_iff in H. destruct H as [Hp Hrest].
  destruct rest as [|q rest].
  - cbn [join]. rewrite split_on_cut, (cut_none_free _ _ _ Hp). reflexivity.
  - change (join ("`"%char :: chars "``") (p :: q :: rest))
      with (p ++ ("`"%char :: chars "``") ++ join ("`"%char :: chars "``") (q :: rest))%list.
    rewrite split_on_cut, (cut_free _ _ _ _ Hp).
    rewrite (IH Hrest) by discriminate. reflexivity.
Qed.

Lemma contains_join (p q : list ascii) (rest : list (list ascii)) :
  contains fence (join fence (p :: q :: rest)) = true.
Proof.
  change (join fence (p :: q :: rest))
    with (p ++ fence ++ join fence (q :: rest))%list.
  unfold contains.
  destruct (cut fence (p ++ fence ++ join fence (q :: rest))) as [x|] eqn:E;
    [reflexivity|].
  exfalso. revert E. generalize (join fence (q :: rest)). intros r.
  induction p as [|x p IH]; intros E.
  - change ([] ++ fence ++ r)%list with (fence ++ r)%list in E.
    rewrite cut_prefix in E. discriminate.
  - change ((x :: p) ++ fence ++ r)%list with (x :: (p ++ fence ++ r))%list in E.
    cbn [cut] in E.
    destruct (strip_prefix fence (x :: (p ++ fence ++ r)%list)); [discriminate|].
    destruct (cut fence (p ++ fence ++ r)) as [[a b]|]; [discriminate|].
    apply IH. reflexivity.
Qed.

(** *** White space at the two ends *)

Lemma drop_space_keep (c : ascii) (x y : list ascii) :
  is_space c = false -> drop_space (x ++ c :: y) = (drop_space x ++ c :: y)%list.
Proof.
  intros Hc. induction x as [|a x IH].
  - cbn [drop_space app]. rewrite Hc. reflexivity.
  - cbn [drop_space app]. destruct (is_space a); [exact IH|reflexivity].
Qed.

Lemma drop_space_all (ws l : list ascii) :
  all_space ws = true -> drop_space (ws ++ l) = drop_space l.
Proof.
  induction ws as [|a ws IH]; intros H; [reflexivity|].
  cbn [all_space forallb] in H. apply andb_true_iff in H. destruct H as [Ha Hws].
  cbn [drop_space app]. rewrite Ha. exact (IH Hws).
Qed.

Lemma rstrip_keep (c : ascii) (x y : list ascii) :
  is_space c = false -> rstrip (x ++ c :: y) = (x ++ c :: rstrip y)%list.
Proof.
  intros Hc. unfold rstrip.
  rewrite rev_app_distr. cbn [rev]. rewrite <- app_assoc. cbn [app].
  rewrite (drop_space_keep c _ _ Hc).
  rewrite rev_app_distr. cbn [rev]. rewrite rev_involutive, <- app_assoc.
  reflexivity.
Qed.

Lemma strip_chars_rstrip (l : list ascii) : strip_chars l = rstrip (drop_space l).
Proof. reflexivity. Qed.

Lemma contains_fence (parts : list (list ascii)) :
  (1 < List.length parts)%nat -> contains fence (join fence parts) = true.
Proof.
  destruct parts as [|p [|q rest]]; cbn [List.length]; try lia.
  intros _. apply contains_join.
Qed.

Lemma free_parts (before : list (list ascii)) (part part' : list ascii)
    (after : list (list ascii)) :
  forallb (free_of "`") (before ++ part :: after) = true ->
  free_of "`" part' = true ->
  forallb (free_of "`") (before ++ part' :: after) = true.
Proof.
  rewrite !forallb_app. cbn [forallb]. intros H Hp.
  apply andb_true_iff in H. destruct H as [Hb H].
  apply andb_true_iff in H. destruct H as [_ Ha].
  rewrite Hb, Hp, Ha. reflexivity.
Qed.

Lemma free_part (before : list (list ascii)) (part : list ascii)
    (after : list (list ascii)) :
  forallb (free_of "`") (before ++ part :: after) = true ->
  free_of "`" part = true.
Proof.
  rewrite forallb_app. cbn [forallb]. intros H.
  apply andb_true_iff in H. destruct H as [_ H].
  apply andb_true_iff in H. destruct H as [H _]. exact H.
Qed.

Lemma split_fenced (before : list (list ascii)) (part : list ascii)
    (after : list (list ascii)) :
  forallb (free_of "`") (before ++ part :: after) = true ->
  split_on fence (join fence (before ++ part :: after)) = (before ++ part :: after)%list.
Proof.
  intros H. apply split_join; [exact H|]. destruct before; discriminate.
Qed.

Lemma g4f_pick_passes (before rest : list (list ascii)) (t : list ascii) :
  forallb g4f_passes before = true ->
  g4f_pick (before ++ rest) t = g4f_pick rest t.
Proof.
  induction before as [|p before IH]; intros H; [reflexivity|].
  cbn [forallb] in H. apply andb_true_iff in H. destruct H as [Hp Hb].
  unfold g4f_passes in Hp. apply andb_true_iff in Hp. destruct Hp as [H1 H2].
  apply negb_true_iff in H1. apply negb_true_iff in H2.
  change ((p :: before) ++ rest)%list with (p :: (before ++ rest))%list.
  cbn [g4f_pick]. rewrite H1, H2. exact (IH Hb).
Qed.

Lemma starts_with_app (t s : list ascii) : starts_with t (t ++ s) = true.
Proof.
  unfold starts_with.
  rewrite (proj2 (strip_prefix_app t (t ++ s) s) eq_refl). reflexivity.
Qed.

Lemma strip_label (body : list ascii) :
  strip_chars (chars "json" ++ body) = (chars "json" ++ rstrip body)%list.
Proof.
  rewrite strip_chars_rstrip.
  change (chars "json" ++ body)%list
    with ("j" :: chars "so" ++ "n" :: body)%char%list.
  change (drop_space ("j" :: chars "so" ++ "n" :: body)%char%list)
    with ("j" :: chars "so" ++ "n" :: body)%char%list.
  exact (rstrip_keep "n" ("j" :: chars "so")%char body eq_refl).
Qed.

(** X18. An answer with a code block: the parts before the block are
    passed over (none of them starts, white space apart, with [json] or
    with a brace), and the text that is parsed is the body of the block
    labelled [json], without the white space around it.  A block without
    label that starts with a brace is taken whole. *)
Theorem g4f_fenced_block (before : list (list ascii)) (body : list ascii)
    (after : list (list ascii)) :
  forallb (free_of "`") (before ++ body :: after)%list = true ->
  (1 < List.length (before ++ body :: after)%list)%nat ->
  forallb g4f_passes before = true ->
  g4f_unfence (join fence (before ++ (chars "json" ++ body)%list :: after)%list)
    = strip_chars body /\
  (starts_with (chars "{") (strip_chars body) = true ->
   g4f_unfence (join fence (before ++ body :: after)%list) = strip_chars body).
Proof.
  intros Hfree Hlen Hpass. split.
  - assert (free_of "`" (chars "json" ++ body) = true) as Hlab.
    { rewrite free_of_app, (free_part _ _ _ Hfree). reflexivity. }
    pose proof (free_parts _ _ _ _ Hfree Hlab) as Hfree'.
    unfold g4f_unfence. rewrite contains_fence.
    + rewrite (split_fenced _ _ _ Hfree'), (g4f_pick_passes _ _ _ Hpass).
      cbn [g4f_pick]. rewrite strip_label, starts_with_app. reflexivity.
    + rewrite length_app in *. cbn [List.length] in *. lia.
  - intros Hbrace. unfold g4f_unfence. rewrite (contains_fence _ Hlen).
    rewrite (split_fenced _ _ _ Hfree), (g4f_pick_passes _ _ _ Hpass).
    cbn [g4f_pick]. rewrite Hbrace.
    destruct (starts_with (chars "json") (strip_chars body)) eqn:E; [|reflexivity].
    exfalso. unfold starts_with in *.
    destruct (strip_chars body) as [|c l]; [discriminate|].
    cbn [strip_prefix chars list_ascii_of_string] in *.
    destruct (Ascii.eqb "{" c) eqn:Ec; [|discriminate].
    apply Ascii.eqb_eq in Ec. subst c. discriminate.
Qed.

Lemma g4f_fenced_block_witness :
  g4f_unfence (join fence [chars "Here you are:"; (chars "json" ++ chars "
{}
")%list; chars ""])
    = chars "{}" /\
  g4f_unfence (join fence [chars "Here you are:"; chars "
{}
"; chars ""])
    = chars "{}".
Proof.
  destruct (g4f_fenced_block [chars "Here you are:"] (chars "
{}
") [chars ""]) as [H1 H2].
  - vm_compute. reflexivity.
  - simpl. lia.
  - vm_compute. reflexivity.
  - split; [exact H1|]. apply H2. vm_compute. reflexivity.
Defined.

(** X19. White space between the fence and the label is not allowed for:
    the part is recognised by its stripped text, but the four characters
    are cut from the part as it stands, so that with [n] characters of white
    space the last [n] letters of [json] (all four from four on) stay in
    front of the text that is parsed. *)
Theorem g4f_space_before_label (before : list (list ascii)) (ws body : list ascii)
    (after : list (list ascii)) :
  forallb (free_of "`") (before ++ (ws ++ chars "json" ++ body)%list :: after)%list = true ->
  (1 < List.length (before ++ (ws ++ chars "json" ++ body)%list :: after)%list)%nat ->
  forallb g4f_passes before = true ->
  all_space ws = true -> ws <> [] ->
  g4f_unfence (join fence (before ++ (ws ++ chars "json" ++ body)%list :: after)%list)
    = (skipn (4 - List.length ws) (chars "json") ++ rstrip body)%list.
Proof.
  intros Hfree Hlen Hpass Hws Hne.
  unfold g4f_unfence. rewrite (contains_fence _ Hlen).
  rewrite (split_fenced _ _ _ Hfree), (g4f_pick_passes _ _ _ Hpass).
  cbn [g4f_pick].
  assert (strip_chars (ws ++ chars "json" ++ body)%list
          = (chars "json" ++ rstrip body)%list) as Hs.
  { rewrite strip_chars_rstrip, (drop_space_all _ _ Hws).
    rewrite <- strip_label. reflexivity. }
  rewrite Hs, starts_with_app.
  destruct ws as [|a [|b [|c [|d ws]]]]; [congruence| | | |].
  - exact (rstrip_keep "n" [] body eq_refl).
  - exact (rstrip_keep "n" ["o"%char] body eq_refl).
  - exact (rstrip_keep "n" ["s"; "o"]%char body eq_refl).
  - cbn [all_space forallb] in Hws.
    repeat (apply andb_true_iff in Hws; destruct Hws as [_ Hws]).
    change (skipn 4 ((a :: b :: c :: d :: ws) ++ chars "json" ++ body)%list)
      with (ws ++ chars "json" ++ body)%list.
    rewrite strip_chars_rstrip, (drop_space_all _ _ Hws).
    rewrite <- strip_chars_rstrip. cbn [List.length Nat.sub skipn]. exact (strip_label body).
Qed.

Lemma g4f_space_before_label_witness :
  g4f_unfence (join fence [chars ""; (chars " " ++ chars "json" ++ chars "{} ")%list; chars ""])
    = chars "n{}".
Proof.
  apply (g4f_space_before_label [chars ""] (chars " ") (chars "{} ") [chars ""]).
  - vm_compute. reflexivity.
  - simpl. lia.
  - vm_compute. reflexivity.
  - vm_compute. reflexivity.
  - discriminate.
Defined.

(** *** The braces *)

Lemma find_char_range (c : ascii) (s : list ascii) :
  -1 <= find_char c s < Z.of_nat (List.length s).
Proof.
  induction s as [|x s IH]; cbn [find_char List.length]; [lia|].
  destruct (Ascii.eqb x c); [lia|].
  destruct (find_char c s <? 0) eqn:E; [lia|].
  apply Z.ltb_ge in E. lia.
Qed.

Lemma find_char_free (c : ascii) (a b : list ascii) :
  free_of c a = true ->
  find_char c (a ++ b) =
  if find_char c b <? 0 then -1 else Z.of_nat (List.length a) + find_char c b.
Proof.
  induction a as [|x a IH]; intros H.
  - cbn [app List.length]. destruct (find_char c b <? 0) eqn:E; [|lia].
    apply Z.ltb_lt in E. pose proof (find_char_range c b). lia.
  - cbn [free_of forallb] in H. apply andb_true_iff in H. destruct H as [Hx Ha].
    apply negb_true_iff in Hx.
    cbn [app find_char List.length]. rewrite Hx, (IH Ha).
    destruct (find_char c b <? 0) eqn:E; [reflexivity|].
    apply Z.ltb_ge in E.
    destruct (Z.of_nat (List.length a) + find_char c b <? 0) eqn:E'; [|lia].
    apply Z.ltb_lt in E'. lia.
Qed.

Lemma rfind_char_range (c : ascii) (s : list ascii) :
  -1 <= rfind_char c s < Z.of_nat (List.length s).
Proof.
  induction s as [|x s IH]; cbn [rfind_char List.length]; [lia|].
  destruct (0 <=? rfind_char c s) eqn:E; [lia|].
  destruct (Ascii.eqb x c); lia.
Qed.

Lemma rfind_char_none (c : ascii) (b : list ascii) :
  free_of c b = true -> rfind_char c b = -1.
Proof.
  induction b as [|x b IH]; intros H; [reflexivity|].
  cbn [free_of forallb] in H. apply andb_true_iff in H. destruct H as [Hx Hb].
  apply negb_true_iff in Hx.
  cbn [rfind_char]. rewrite (IH Hb), Hx. reflexivity.
Qed.

Lemma rfind_char_free (c : ascii) (a b : list ascii) :
  free_of c b = true -> rfind_char c (a ++ b) = rfind_char c a.
Proof.
  intros H. induction a as [|x a IH].
  - cbn [app]. exact (rfind_char_none c b H).
  - cbn [app rfind_char]. rewrite IH. reflexivity.
Qed.

Lemma rfind_char_last (c : ascii) (l j2 : list ascii) :
  free_of c j2 = true ->
  rfind_char c (l ++ c :: j2) = Z.of_nat (List.length l).
Proof.
  intros H. induction l as [|x l IH].
  - cbn [app rfind_char List.length]. rewrite (rfind_char_none c j2 H).
    rewrite Ascii.eqb_refl. reflexivity.
  - cbn [app rfind_char List.length]. rewrite IH.
    destruct (0 <=? Z.of_nat (List.length l)) eqn:E; [lia|].
    apply Z.leb_gt in E. lia.
Qed.

Lemma slice_middle (a m b : list ascii) :
  slice (Z.of_nat (List.length a))
        (Z.of_nat (List.length a) + Z.of_nat (List.length m)) (a ++ m ++ b) = m.
Proof.
  unfold slice.
  replace (Z.to_nat (Z.of_nat (List.length a) + Z.of_nat (List.length m)
                     - Z.of_nat (List.length a))) with (List.length m) by lia.
  rewrite Nat2Z.id, skipn_app, skipn_all, Nat.sub_diag.
  change (take (List.length m) (m ++ b) = m).
  rewrite firstn_app, firstn_all, Nat.sub_diag.
  apply app_nil_r.
Qed.

Lemma braces_found (j1 body j2 : list ascii) :
  free_of "{" j1 = true -> free_of "}" j2 = true ->
  huggingface_braces (j1 ++ "{" :: body ++ "}" :: j2)%char%list
  = ("{" :: body ++ ["}"])%char%list.
Proof.
  intros H1 H2. unfold huggingface_braces. cbv zeta.
  rewrite (find_char_free "{" j1 _ H1).
  change (find_char "{" ("{" :: body ++ "}" :: j2)%char%list) with 0.
  cbn [Z.ltb Z.compare]. rewrite Z.add_0_r.
  replace (j1 ++ "{" :: body ++ "}" :: j2)%char%list
    with ((j1 ++ "{" :: body) ++ "}" :: j2)%char%list
    by (rewrite <- app_assoc; reflexivity).
  rewrite (rfind_char_last "}" _ j2 H2).
  rewrite length_app. cbn [List.length].
  destruct ((0 <=? Z.of_nat (List.length j1))
            && (Z.of_nat (List.length j1)
                <? Z.of_nat (List.length j1 + S (List.length body)) + 1)) eqn:E.
  - replace ((j1 ++ "{" :: body) ++ "}" :: j2)%char%list
      with (j1 ++ ("{" :: body ++ ["}"]) ++ j2)%char%list
      by (rewrite <- !app_assoc; cbn [app]; rewrite <- app_assoc; reflexivity).
    replace (Z.of_nat (List.length j1 + S (List.length body)) + 1)
      with (Z.of_nat (List.length j1)
            + Z.of_nat (List.length ("{" :: body ++ ["}"])%char%list)).
    + apply slice_middle.
    + cbn [List.length]. rewrite length_app. cbn [List.length]. lia.
  - exfalso. apply andb_false_iff in E. destruct E as [E|E].
    + apply Z.leb_gt in E. lia.
    + apply Z.ltb_ge in E. lia.
Qed.

(** X20. The search for the JSON object keeps the text from the first
    opening brace to the last closing brace and drops what stands around
    it; a text in which no closing brace comes after an opening brace is
    left as it is. *)
Theorem huggingface_braces_spec (j1 body j2 a b : list ascii) :
  free_of "{" j1 = true -> free_of "}" j2 = true ->
  free_of "{" a = true -> free_of "}" b = true ->
  huggingface_braces (j1 ++ "{" :: body ++ "}" :: j2)%char%list
    = ("{" :: body ++ ["}"])%char%list /\
  huggingface_braces (a ++ b) = (a ++ b)%list.
Proof.
  intros H1 H2 Ha Hb. split; [exact (braces_found j1 body j2 H1 H2)|].
  unfold huggingface_braces. cbv zeta.
  rewrite (find_char_free "{" a b Ha), (rfind_char_free "}" a b Hb).
  pose proof (rfind_char_range "}" a) as Hr.
  pose proof (find_char_range "{" b) as Hf.
  destruct (find_char "{" b <? 0) eqn:E; [reflexivity|].
  apply Z.ltb_ge in E.
  destruct ((0 <=? Z.of_nat (List.length a) + find_char "{" b)
            && (Z.of_nat (List.length a) + find_char "{" b
                <? rfind_char "}" a + 1)) eqn:E'; [|reflexivity].
  exfalso. apply andb_true_iff in E'. destruct E' as [_ E'].
  apply Z.ltb_lt in E'. lia.
Qed.

Lemma huggingface_braces_spec_witness :
  huggingface_braces (chars "Sure: {a: {}} done") = chars "{a: {}}" /\
  huggingface_braces (chars "} no object {") = chars "} no object {".
Proof.
  apply (huggingface_braces_spec (chars "Sure: ") (chars "a: {}") (chars " done")
           (chars "} no object ") (chars "{")); vm_compute; reflexivity.
Defined.

(** *** The fenced answer of the Hugging Face service *)

Lemma huggingface_pick_passes (before rest : list (list ascii)) (t : list ascii) :
  forallb huggingface_passes before = true ->
  huggingface_pick (before ++ rest) t = huggingface_pick rest t.
Proof.
  induction before as [|p before IH]; intros H; [reflexivity|].
  cbn [forallb] in H. apply andb_true_iff in H. destruct H as [Hp Hb].
  unfold huggingface_passes in Hp. apply negb_true_iff in Hp.
  change ((p :: before) ++ rest)%list with (p :: (before ++ rest))%list.
  cbn [huggingface_pick]. rewrite Hp. exact (IH Hb).
Qed.

Lemma split_not_contained (c : ascii) (sep s : list ascii) :
  contains (c :: sep) s = false -> split_on (c :: sep) s = [s].
Proof.
  unfold contains. intros H. rewrite split_on_cut.
  destruct (cut (c :: sep) s); [discriminate|reflexivity].
Qed.

Lemma free_of_In (c : ascii) (s : list ascii) :
  free_of c s = true <-> ~ In c s.
Proof.
  unfold free_of. rewrite forallb_forall. split.
  - intros H Hin. specialize (H c Hin). rewrite Ascii.eqb_refl in H. discriminate.
  - intros H x Hx. apply negb_true_iff. apply Ascii.eqb_neq. intros ->. exact (H Hx).
Qed.

Lemma drop_space_incl (l : list ascii) : incl (drop_space l) l.
Proof.
  induction l as [|x l IH]; cbn [drop_space]; [apply incl_refl|].
  destruct (is_space x); [apply incl_tl; exact IH|apply incl_refl].
Qed.

Lemma free_drop_space (c : ascii) (l : list ascii) :
  free_of c l = true -> free_of c (drop_space l) = true.
Proof.
  rewrite !free_of_In. intros H Hin. apply H. exact (drop_space_incl l c Hin).
Qed.

Lemma free_rstrip (c : ascii) (l : list ascii) :
  free_of c l = true -> free_of c (rstrip l) = true.
Proof.
  rewrite !free_of_In. intros H Hin. apply H. unfold rstrip in Hin.
  apply in_rev in Hin. apply drop_space_incl in Hin. apply in_rev in Hin.
  exact Hin.
Qed.

Lemma strip_object (j1 body j2 : list ascii) :
  strip_chars (j1 ++ "{" :: body ++ "}" :: j2)%char%list
  = (drop_space j1 ++ "{" :: body ++ "}" :: rstrip j2)%char%list.
Proof.
  rewrite strip_chars_rstrip, (drop_space_keep "{" j1 _ eq_refl).
  replace (drop_space j1 ++ "{" :: body ++ "}" :: j2)%char%list
    with ((drop_space j1 ++ "{" :: body) ++ "}" :: j2)%char%list
    by (rewrite <- app_assoc; reflexivity).
  rewrite (rstrip_keep "}" _ j2 eq_refl), <- app_assoc. reflexivity.
Qed.

(** X21. A fenced answer of the service: when no part before the block
    holds the word json (in any case) and the block is labelled [json] and
    holds one object, around which there is no brace and in which the word
    json does not occur, the text that is parsed is the object, from its
    opening to its closing brace. *)
Theorem huggingface_fenced_block (before : list (list ascii))
    (j1 body j2 : list ascii) (after : list (list ascii)) :
  forallb (free_of "`")
    (before ++ (j1 ++ "{" :: body ++ "}" :: j2)%char%list :: after) = true ->
  forallb huggingface_passes before = true ->
  contains (chars "json") (j1 ++ "{" :: body ++ "}" :: j2)%char%list = false ->
  free_of "{" j1 = true -> free_of "}" j2 = true ->
  huggingface_json_text
    (join fence
       (before ++ (chars "json" ++ j1 ++ "{" :: body ++ "}" :: j2)%char%list :: after))
  = Some ("{" :: body ++ ["}"])%char%list.
Proof.
  intros Hfree Hpass Hword H1 H2.
  set (mid := (j1 ++ "{" :: body ++ "}" :: j2)%char%list) in *.
  assert (free_of "`" (chars "json" ++ mid) = true) as Hlab.
  { rewrite free_of_app, (free_part _ _ _ Hfree). reflexivity. }
  pose proof (free_parts _ _ _ _ Hfree Hlab) as Hfree'.
  unfold huggingface_json_text, huggingface_unfence.
  destruct (contains fence (join fence (before ++ (chars "json" ++ mid)%list :: after)))
    eqn:Hf.
  - rewrite (split_fenced _ _ _ Hfree'), (huggingface_pick_passes _ _ _ Hpass).
    cbn [huggingface_pick].
    assert (contains (chars "json") (map lower_char (chars "json" ++ mid)) = true)
      as Hlow.
    { rewrite map_app. unfold contains.
      change (map lower_char (chars "json")) with (chars "json").
      rewrite cut_prefix. reflexivity. }
    rewrite Hlow.
    change (chars "json") with ("j"%char :: chars "son") in *.
    rewrite split_on_cut, cut_prefix, (split_not_contained _ _ _ Hword).
    f_equal. subst mid. rewrite strip_object.
    apply braces_found; [apply free_drop_space|apply free_rstrip]; assumption.
  - f_equal. subst mid.
    assert (before = [] /\ after = []) as [-> ->].
    { destruct before as [|p before]; [destruct after as [|q after]|].
      - split; reflexivity.
      - cbn [app] in Hf. rewrite contains_join in Hf. discriminate.
      - rewrite contains_fence in Hf; [discriminate|].
        cbn [List.length app]. rewrite length_app. cbn [List.length]. lia. }
    cbn [app join].
    replace (chars "json" ++ j1 ++ "{" :: body ++ "}" :: j2)%char%list
      with ((chars "json" ++ j1) ++ "{" :: body ++ "}" :: j2)%char%list
      by (rewrite <- app_assoc; reflexivity).
    apply braces_found; [|assumption].
    rewrite free_of_app, H1. reflexivity.
Qed.

Lemma huggingface_fenced_block_witness :
  huggingface_json_text
    (join fence [chars "Result: ";
                 (chars "json" ++ chars " " ++ "{" :: chars "a: 1" ++ "}" :: chars " ")%char%list;
                 chars " done"])
  = Some (chars "{a: 1}").
Proof.
  apply (huggingface_fenced_block [chars "Result: "] (chars " ") (chars "a: 1")
           (chars " ") [chars " done"]); vm_compute; reflexivity.
Defined.

(** X22. The label is looked for in the lower-cased part but the part is
    split at [json] as written: the first part that holds the word only
    with a capital letter somewhere (JSON, Json) ends the extraction with
    the [IndexError] of [part.split("json")[1]], whatever follows it. *)
Theorem huggingface_capital_label (before : list (list ascii)) (part : list ascii)
    (after : list (list ascii)) :
  forallb (free_of "`") (before ++ part :: after)%list = true ->
  (1 < List.length (before ++ part :: after)%list)%nat ->
  forallb huggingface_passes before = true ->
  contains (chars "json") (map lower_char part) = true ->
  contains (chars "json") part = false ->
  huggingface_json_text (join fence (before ++ part :: after)%list) = None.
Proof.
  intros Hfree Hlen Hpass Hlow Hword.
  unfold huggingface_json_text, huggingface_unfence.
  rewrite (contains_fence _ Hlen).
  rewrite (split_fenced _ _ _ Hfree), (huggingface_pick_passes _ _ _ Hpass).
  cbn [huggingface_pick]. rewrite Hlow.
  change (chars "json") with ("j"%char :: chars "son") in *.
  rewrite (split_not_contained _ _ _ Hword). reflexivity.
Qed.

Lemma huggingface_capital_label_witness :
  huggingface_json_text
    (join fence [chars "Here is the JSON: "; chars "json {} "; chars ""]) = None.
Proof.
  apply (huggingface_capital_label [] (chars "Here is the JSON: ")
           [chars "json {} "; chars ""]).
  - vm_compute. reflexivity.
  - simpl. lia.
  - reflexivity.
  - vm_compute. reflexivity.
  - vm_compute. reflexivity.
Defined.
